(** * Auto-Reversi: the game engine (game.py) and the search engine (bot.py)

    A shallow embedding of the two Python classes [Game] and [ReversiBot]
    and the properties of their documented behaviour.

    Python features that matter for the properties are modelled explicitly:
    - list indexing accepts negative indices (counted from the end) and
      raises [IndexError] outside [-len, len);
    - a [dict] is an insertion-ordered association list, and a missing key
      raises [KeyError];
    - [assert] raises [AssertionError];
    - a [while] loop is run with a bound on the number of iterations
      ("fuel"); running out of fuel for every bound is non-termination;
    - methods of [Game] mutate the object: they are computations in a state
      and exception monad over the record of the object's fields, so that the
      mutations made before an exception is raised stay visible. *)

From Stdlib Require Import ZArith List Bool Lia.
Import ListNotations.
Open Scope Z_scope.

(** ** Outcomes of Python computations *)

Inductive exn : Type := KeyError | IndexError | AssertionError | TypeError.

Inductive res (A : Type) : Type :=
| Ok (a : A)
| Raise (e : exn)
| OutOfFuel.

Arguments Ok {A} a.
Arguments Raise {A} e.
Arguments OutOfFuel {A}.

Definition rbind {A B : Type} (m : res A) (k : A -> res B) : res B :=
  match m with
  | Ok a => k a
  | Raise e => Raise e
  | OutOfFuel => OutOfFuel
  end.

Declare Scope res_scope.
Delimit Scope res_scope with res.
Notation "x <- m ;; k" := (rbind m (fun x => k))
  (at level 100, m at next level, right associativity) : res_scope.
Notation "' p <- m ;; k" := (rbind m (fun p => k))
  (at level 100, p pattern, m at next level, right associativity) : res_scope.

Definition rmap {A B : Type} (f : A -> B) (m : res A) : res B :=
  rbind m (fun a => Ok (f a)).

(** [while cond: body] over a loop state [S]; the condition may itself
    raise. *)
Fixpoint while {S : Type} (fuel : nat) (cond : S -> res bool)
    (body : S -> res S) (s : S) : res S :=
  match fuel with
  | O => OutOfFuel
  | Datatypes.S n =>
      rbind (cond s) (fun b =>
        if b then rbind (body s) (while n cond body) else Ok s)
  end.

(** [for x in l: body] threading an accumulator. *)
Fixpoint for_each {A S : Type} (l : list A) (body : A -> S -> res S) (s : S)
    : res S :=
  match l with
  | [] => Ok s
  | x :: l' => rbind (body x s) (for_each l' body)
  end.

(** ** Python lists and dicts *)

Module Py.

(** [range(n)] *)
Definition range (n : Z) : list Z := map Z.of_nat (seq 0 (Z.to_nat n)).

Definition len {A : Type} (l : list A) : Z := Z.of_nat (length l).

(** The position an index denotes in a list of length [n], if any. *)
Definition index (n i : Z) : option nat :=
  if (0 <=? i) && (i <? n) then Some (Z.to_nat i)
  else if (- n <=? i) && (i <? 0) then Some (Z.to_nat (n + i))
  else None.

(** [l[i]] *)
Definition getitem {A : Type} (l : list A) (i : Z) : res A :=
  match index (len l) i with
  | Some k =>
      match nth_error l k with
      | Some x => Ok x
      | None => Raise IndexError
      end
  | None => Raise IndexError
  end.

Fixpoint update {A : Type} (l : list A) (k : nat) (v : A) : list A :=
  match l, k with
  | [], _ => []
  | _ :: l', O => v :: l'
  | x :: l', S k' => x :: update l' k' v
  end.

(** [l[i] = v] *)
Definition setitem {A : Type} (l : list A) (i : Z) (v : A) : res (list A) :=
  match index (len l) i with
  | Some k => Ok (update l k v)
  | None => Raise IndexError
  end.

(** [m[r][c]] and [m[r][c] = v] on a list of lists. *)
Definition getitem2 {A : Type} (m : list (list A)) (r c : Z) : res A :=
  rbind (getitem m r) (fun row => getitem row c).

Definition setitem2 {A : Type} (m : list (list A)) (r c : Z) (v : A)
    : res (list (list A)) :=
  rbind (getitem m r) (fun row =>
  rbind (setitem row c v) (fun row' => setitem m r row')).

(** Dicts keyed by a pair of integers, in insertion order. *)
Definition key : Type := (Z * Z)%type.

Definition key_eqb (a b : key) : bool :=
  (fst a =? fst b) && (snd a =? snd b).

Definition dict (V : Type) : Type := list (key * V).

Fixpoint lookup {V : Type} (d : dict V) (k : key) : option V :=
  match d with
  | [] => None
  | (k', v) :: d' => if key_eqb k' k then Some v else lookup d' k
  end.

(** [d[k]] *)
Definition dict_get {V : Type} (d : dict V) (k : key) : res V :=
  match lookup d k with
  | Some v => Ok v
  | None => Raise KeyError
  end.

(** [d[k] = v]: an existing key keeps its position. *)
Fixpoint dict_set {V : Type} (d : dict V) (k : key) (v : V) : dict V :=
  match d with
  | [] => [(k, v)]
  | (k', v') :: d' =>
      if key_eqb k' k then (k', v) :: d' else (k', v') :: dict_set d' k v
  end.

End Py.

(** ** Cells and game states (game.py) *)

Inductive COLOR : Type := BLACK | WHITE | UNTOUCHED.

(** A Python value that is a [COLOR] or [None]: the fields [_my_color] and
    [_opponent_color] are [None] until a running state is first assigned,
    and [move] stores [_my_color] into the board. *)
Inductive pyval : Type :=
| PyNone
| Enum (c : COLOR).

Coercion Enum : COLOR >-> pyval.

Definition COLOR_eqb (a b : COLOR) : bool :=
  match a, b with
  | BLACK, BLACK | WHITE, WHITE | UNTOUCHED, UNTOUCHED => true
  | _, _ => false
  end.

(** [a == b] *)
Definition py_eqb (a b : pyval) : bool :=
  match a, b with
  | PyNone, PyNone => true
  | Enum x, Enum y => COLOR_eqb x y
  | _, _ => false
  end.

Definition Board : Type := list (list pyval).

Definition direction : Type := (Z * Z)%type.

Definition moves : Type := Py.dict (list direction).

Inductive GAMESTATE : Type :=
| INITIALIZING
| RUNNING_BLACK
| RUNNING_WHITE
| WIN_BLACK
| WIN_WHITE
| DRAW.

Definition GAMESTATE_eqb (a b : GAMESTATE) : bool :=
  match a, b with
  | INITIALIZING, INITIALIZING | RUNNING_BLACK, RUNNING_BLACK
  | RUNNING_WHITE, RUNNING_WHITE | WIN_BLACK, WIN_BLACK
  | WIN_WHITE, WIN_WHITE | DRAW, DRAW => true
  | _, _ => false
  end.

Definition is_running (s : GAMESTATE) : bool :=
  existsb (GAMESTATE_eqb s) [RUNNING_WHITE; RUNNING_BLACK].

Definition is_finished (s : GAMESTATE) : bool :=
  existsb (GAMESTATE_eqb s) [WIN_BLACK; WIN_WHITE; DRAW].

(** [x += (a == b)] *)
Definition b2z (b : bool) : Z := if b then 1 else 0.

(** ** The game engine: class [Game] (game.py) *)

Module Game.

(** Size of game board *)
Definition BOARD_SIZE : Z := 8.

(** 8 directions to search *)
Definition DIRECTIONS : list direction :=
  [(-1, -1); (-1, 0); (-1, 1); (0, -1); (0, 1); (1, -1); (1, 0); (1, 1)].

(** The fields of a [Game] object. *)
Record t : Type := mk {
  board : Board;
  _state : GAMESTATE;
  _legal_moves : moves;
  _my_color : pyval;
  _opponent_color : pyval;
  _remain : Z;
  _white_count : Z;
  _black_count : Z;
  _no_move_round : Z
}.

Definition with_board (b : Board) (g : t) : t :=
  mk b (_state g) (_legal_moves g) (_my_color g) (_opponent_color g)
     (_remain g) (_white_count g) (_black_count g) (_no_move_round g).

Definition with_state (s : GAMESTATE) (g : t) : t :=
  mk (board g) s (_legal_moves g) (_my_color g) (_opponent_color g)
     (_remain g) (_white_count g) (_black_count g) (_no_move_round g).

Definition with_legal_moves (m : moves) (g : t) : t :=
  mk (board g) (_state g) m (_my_color g) (_opponent_color g)
     (_remain g) (_white_count g) (_black_count g) (_no_move_round g).

Definition with_colors (my opp : pyval) (g : t) : t :=
  mk (board g) (_state g) (_legal_moves g) my opp
     (_remain g) (_white_count g) (_black_count g) (_no_move_round g).

Definition with_counts (remain white black : Z) (g : t) : t :=
  mk (board g) (_state g) (_legal_moves g) (_my_color g) (_opponent_color g)
     remain white black (_no_move_round g).

Definition with_no_move_round (n : Z) (g : t) : t :=
  mk (board g) (_state g) (_legal_moves g) (_my_color g) (_opponent_color g)
     (_remain g) (_white_count g) (_black_count g) n.

(** [Game()] *)
Definition __init__ : t :=
  mk (map (fun _ => map (fun _ => Enum UNTOUCHED) (Py.range BOARD_SIZE))
          (Py.range BOARD_SIZE))
     INITIALIZING [] PyNone PyNone 0 0 0 0.

(** *** Methods as computations over the object *)

Definition M (A : Type) : Type := t -> res A * t.

Definition ret {A : Type} (a : A) : M A := fun g => (Ok a, g).

Definition bind {A B : Type} (m : M A) (k : A -> M B) : M B :=
  fun g =>
    match m g with
    | (Ok a, g') => k a g'
    | (Raise e, g') => (Raise e, g')
    | (OutOfFuel, g') => (OutOfFuel, g')
    end.

Definition lift {A : Type} (r : res A) : M A := fun g => (r, g).

Definition get : M t := fun g => (Ok g, g).

Definition modify (f : t -> t) : M unit := fun g => (Ok tt, f g).

Definition raise {A : Type} (e : exn) : M A := fun g => (Raise e, g).

Definition assert (b : bool) : M unit :=
  if b then ret tt else raise AssertionError.

Definition exn_eqb (a b : exn) : bool :=
  match a, b with
  | KeyError, KeyError | IndexError, IndexError
  | AssertionError, AssertionError | TypeError, TypeError => true
  | _, _ => false
  end.

(** [try: m except e: h] *)
Definition try_except {A : Type} (m : M A) (e : exn) (h : M A) : M A :=
  fun g =>
    match m g with
    | (Raise e', g') => if exn_eqb e e' then h g' else (Raise e', g')
    | r => r
    end.

Declare Scope game_scope.
Delimit Scope game_scope with game.
Notation "x <- m ;; k" := (bind m (fun x => k))
  (at level 100, m at next level, right associativity) : game_scope.
Notation "' p <- m ;; k" := (bind m (fun p => k))
  (at level 100, p pattern, m at next level, right associativity) : game_scope.
Notation "m ;; k" := (bind m (fun _ => k))
  (at level 100, right associativity) : game_scope.
Local Open Scope game_scope.

Fixpoint whileM {S : Type} (fuel : nat) (cond : S -> M bool)
    (body : S -> M S) (s : S) : M S :=
  match fuel with
  | O => lift OutOfFuel
  | Datatypes.S n =>
      b <- cond s;;
      if b then (s' <- body s;; whileM n cond body s') else ret s
  end.

Fixpoint forM {A S : Type} (l : list A) (body : A -> S -> M S) (s : S)
    : M S :=
  match l with
  | [] => ret s
  | x :: l' => s' <- body x s;; forM l' body s'
  end.

(** [self.board[r][c]] and [self.board[r][c] = v] *)
Definition board_get (r c : Z) : M pyval :=
  g <- get;; lift (Py.getitem2 (board g) r c).

Definition board_set (r c : Z) (v : pyval) : M unit :=
  g <- get;;
  b <- lift (Py.setitem2 (board g) r c v);;
  modify (with_board b).

(** [0 <= x < self.BOARD_SIZE] *)
Definition in_range (x : Z) : bool := (0 <=? x) && (x <? BOARD_SIZE).

(** The setter of the property [state]. *)
Definition set_state (value : GAMESTATE) : M unit :=
  modify (with_state value);;
  if GAMESTATE_eqb value RUNNING_BLACK then
    modify (with_colors BLACK WHITE)
  else if GAMESTATE_eqb value RUNNING_WHITE then
    modify (with_colors WHITE BLACK)
  else ret tt.

(** [_count_board] *)
Definition _count_board : M unit :=
  '(white, black, remain) <-
    forM (Py.range BOARD_SIZE) (fun row acc =>
      forM (Py.range BOARD_SIZE) (fun col '(white, black, remain) =>
        x <- board_get row col;;
        let white := white + b2z (py_eqb x WHITE) in
        y <- board_get row col;;
        let black := black + b2z (py_eqb y BLACK) in
        z <- board_get row col;;
        let remain := remain + b2z (py_eqb z UNTOUCHED) in
        ret (white, black, remain)) acc) (0, 0, 0);;
  modify (with_counts remain white black).

(** [_end] *)
Definition _end : M unit :=
  g <- get;;
  if _white_count g =? _black_count g then set_state DRAW
  else if _white_count g >? _black_count g then set_state WIN_WHITE
  else set_state WIN_BLACK.

Section Loops.

(** Bound on the iterations of each [while] loop. *)
Variable fuel : nat.

(** [_search_available_directions] *)
Definition _search_available_directions (row col : Z) : M (list direction) :=
  forM DIRECTIONS (fun d directions =>
    '(r, c, count) <-
      whileM fuel
        (fun '(r, c, _) =>
           if in_range r && in_range c then
             x <- board_get r c;;
             g <- get;;
             ret (py_eqb x (_opponent_color g))
           else ret false)
        (fun '(r, c, count) => ret (r + fst d, c + snd d, count + 1))
        (row + fst d, col + snd d, 0);;
    (* Requires opponent's color count > 0 and meet my color in the end *)
    if count >? 0 then
      if in_range r && in_range c then
        x <- board_get r c;;
        g <- get;;
        if py_eqb x (_my_color g) then ret (directions ++ [d])
        else ret directions
      else ret directions
    else ret directions) [].

(** [_search_legal_moves] *)
Definition _search_legal_moves : M moves :=
  g <- get;;
  assert (is_running (_state g));;
  forM (Py.range BOARD_SIZE) (fun row legal_moves =>
    forM (Py.range BOARD_SIZE) (fun col legal_moves =>
      x <- board_get row col;;
      if py_eqb x UNTOUCHED then
        directions <- _search_available_directions row col;;
        (* No available directions: illegal *)
        if Py.len directions >? 0 then
          ret (Py.dict_set legal_moves (row, col) directions)
        else ret legal_moves
      else ret legal_moves) legal_moves) [].

(** [_switch_side] *)
Definition _switch_side : M unit :=
  g <- get;;
  assert (is_running (_state g));;
  (if GAMESTATE_eqb (_state g) RUNNING_BLACK then set_state RUNNING_WHITE
   else set_state RUNNING_BLACK);;
  legal_moves <- _search_legal_moves;;
  if Py.len legal_moves >? 0 then
    modify (with_no_move_round 0);;
    modify (with_legal_moves legal_moves)
  else
    modify (fun g => with_no_move_round (_no_move_round g + 1) g);;
    g <- get;;
    (* Both sides could not make legal moves: game is over *)
    if _no_move_round g >=? 2 then _end else ret tt.

(** [start]; [shuffled] is the outcome of [random.shuffle(colors)]: whether
    the two colors were exchanged. *)
Definition start (shuffled : bool) (black_first : bool) : M unit :=
  let colors : COLOR * COLOR :=
    if shuffled then (WHITE, BLACK) else (BLACK, WHITE) in
  board_set 3 3 (fst colors);;
  board_set 3 4 (snd colors);;
  board_set 4 3 (snd colors);;
  board_set 4 4 (fst colors);;
  _count_board;;
  (if black_first then set_state RUNNING_BLACK
   else set_state RUNNING_WHITE);;
  legal_moves <- _search_legal_moves;;
  modify (with_legal_moves legal_moves).

(** What [move] prints. *)
Inductive printed : Type := Nothing | Not_a_legal_move.

(** The flips of [move]: the body of its [try] up to the recount. *)
Definition move_flips (row col : Z) : M unit :=
  g <- get;;
  available_directions <- lift (Py.dict_get (_legal_moves g) (row, col));;
  g <- get;;
  board_set row col (_my_color g);;
  forM available_directions (fun d (_ : unit) =>
    '(r, c) <-
      whileM fuel
        (fun '(r, c) =>
           x <- board_get r c;;
           g <- get;;
           ret (py_eqb x (_opponent_color g)))
        (fun '(r, c) =>
           g <- get;;
           board_set r c (_my_color g);;
           ret (r + fst d, c + snd d))
        (row + fst d, col + snd d);;
    ret tt) tt.

(** [move] *)
Definition move (row col : Z) : M printed :=
  try_except
    (move_flips row col;;
     (* Check game count and state *)
     _count_board;;
     g <- get;;
     (if _remain g =? 0 then _end else _switch_side);;
     ret Nothing)
    KeyError
    (ret Not_a_legal_move).

End Loops.

End Game.

(** ** The search engine: class [ReversiBot] (bot.py) *)

(** A [for] loop whose body may [return] from the enclosing function. *)
Inductive flow (S R : Type) : Type :=
| Next (s : S)
| Return (r : R).

Arguments Next {S R} s.
Arguments Return {S R} r.

Fixpoint for_return {A S R : Type} (l : list A)
    (body : A -> S -> res (flow S R)) (s : S) : res (flow S R) :=
  match l with
  | [] => Ok (Next s)
  | x :: l' =>
      rbind (body x s) (fun f =>
        match f with
        | Next s' => for_return l' body s'
        | Return r => Ok (Return r)
        end)
  end.

Module ReversiBot.

Local Open Scope res_scope.

(** Infinity *)
Definition INF : Z := 10000.

(** 8 directions to search *)
Definition DIRECTIONS : list direction :=
  [(-1, -1); (-1, 0); (-1, 1); (0, -1); (0, 1); (1, -1); (1, 0); (1, 1)].

(** Scores for different type of cells *)
Definition SCORE_CORNER : Z := 100.
Definition SCORE_AROUND : Z := -10.
Definition SCORE_BOUND : Z := 10.
Definition SCORE_NORMAL : Z := 1.

(** [x in {a, b, ...}] *)
Definition mem (x : Z) (s : list Z) : bool := existsb (Z.eqb x) s.

(** The weight the loop of [_evaluate] stores at [(row, col)]. *)
Definition weight_at (size row col : Z) : Z :=
  let bound := [0; size - 1] in
  let around := [0; 1; size - 2; size - 1] in
  (* Normal positions *)
  if ((0 <? row) && (row <? size - 1)) && ((0 <? col) && (col <? size - 1))
  then SCORE_NORMAL
  (* Most important positions: corner *)
  else if mem row bound && mem col bound then SCORE_CORNER
  (* Undesired positions: cells around corners *)
  else if mem row around && mem col around then SCORE_AROUND
  (* Boundary positions but neither corners nor corners' neighbors *)
  else SCORE_BOUND.

(** The grid [weights] built by [_evaluate]: a grid of zeros filled cell by
    cell. *)
Definition weights (size : Z) : res (list (list Z)) :=
  let zeros := map (fun _ => map (fun _ => 0) (Py.range size)) (Py.range size) in
  for_each (Py.range size) (fun row w =>
    for_each (Py.range size) (fun col w =>
      Py.setitem2 w row col (weight_at size row col)) w) zeros.

Section Bot.

(** Bound on the iterations of each [while] loop. *)
Variable fuel : nat.

(** The fields [self.my_color] and [self.opponent_color], set by
    [analyze]. *)
Variables my_color opponent_color : pyval.

(** [0 <= r < len(board) and 0 <= c < len(board[0])] *)
Definition in_board (board : Board) (r c : Z) : res bool :=
  if (0 <=? r) && (r <? Py.len board) then
    row0 <- Py.getitem board 0;;
    Ok ((0 <=? c) && (c <? Py.len row0))
  else Ok false.

(** The inner function [_search_available_directions] of
    [_search_legal_moves], with the variables it closes over.  The result is
    [None] when the function falls off its end. *)
Definition _search_available_directions (board : Board)
    (my_color opponent_color : pyval) (row col : Z)
    : res (option (list direction)) :=
  f <- for_return DIRECTIONS (fun d d_list =>
         '(r, c, count) <-
           while fuel
             (fun '(r, c, _) =>
                inside <- in_board board r c;;
                if inside then
                  x <- Py.getitem2 board r c;;
                  Ok (py_eqb x opponent_color)
                else Ok false)
             (fun '(_, _, count) =>
                Ok (row + fst d, col + snd d, count + 1))
             (row + fst d, col + snd d, 0);;
         (* Requires opponent's color count > 0 and meet my color at last *)
         d_list <-
           (if count >? 0 then
              inside <- in_board board r c;;
              if inside then
                x <- Py.getitem2 board r c;;
                if py_eqb x my_color then Ok (d_list ++ [d]) else Ok d_list
              else Ok d_list
            else Ok d_list);;
         (* the [return d_list] sits in the body of the loop *)
         Ok (Return d_list)) [];;
  match f with
  | Return d_list => Ok (Some d_list)
  | Next _ => Ok None
  end.

(** [_search_legal_moves] *)
Definition _search_legal_moves (board : Board) (is_max : bool) : res moves :=
  (* Assign colors *)
  let '(my_color, opponent_color) :=
    if is_max then (my_color, opponent_color)
    else (opponent_color, my_color) in
  (* Search legal moves for black / white color *)
  for_each (Py.range (Py.len board)) (fun row legal_moves =>
    row0 <- Py.getitem board 0;;
    for_each (Py.range (Py.len row0)) (fun col legal_moves =>
      x <- Py.getitem2 board row col;;
      if py_eqb x UNTOUCHED then
        directions <-
          _search_available_directions board my_color opponent_color row col;;
        match directions with
        | None => Raise TypeError (* [len(None)] *)
        | Some directions =>
            if Py.len directions >? 0 then
              Ok (Py.dict_set legal_moves (row, col) directions)
            else Ok legal_moves
        end
      else Ok legal_moves) legal_moves) [].

(** Cell score: calculate sum of weighted cells *)
Definition cell_score (board : Board) (size : Z) (weights : list (list Z))
    : res Z :=
  for_each (Py.range size) (fun row cell_score =>
    for_each (Py.range size) (fun col cell_score =>
      x <- Py.getitem2 board row col;;
      if py_eqb x my_color then
        w <- Py.getitem2 weights row col;;
        Ok (cell_score + w)
      else
        y <- Py.getitem2 board row col;;
        if py_eqb y opponent_color then
          w <- Py.getitem2 weights row col;;
          Ok (cell_score - w)
        else Ok cell_score) cell_score) 0.

(** Freedom score, from the two maps of legal moves. *)
Definition freedom (opponent_moves my_moves : moves) : Z :=
  let freedom_score := 0 in
  let freedom_score :=
    if Py.len opponent_moves =? 0 then freedom_score + 100
    else freedom_score in
  let freedom_score :=
    if Py.len my_moves =? 0 then freedom_score - 100 else freedom_score in
  freedom_score.

(** [_evaluate] *)
Definition _evaluate (board : Board) : res Z :=
  let size := Py.len board in
  weights <- weights size;;
  cell_score <- cell_score board size weights;;
  opponent_moves <- _search_legal_moves board false;;
  my_moves <- _search_legal_moves board true;;
  let freedom_score := freedom opponent_moves my_moves in
  Ok (cell_score + freedom_score).

(** The move made on the copied board inside the loop of [_negamax]. *)
Definition make_move (board : Board) (my_color opponent_color : pyval)
    (move : Py.key) (directions : list direction) : res Board :=
  let new_board := board in
  let '(row, col) := move in
  new_board <- Py.setitem2 new_board row col my_color;;
  for_each directions (fun d new_board =>
    let '(r, c) := (row + fst d, col + snd d) in
    while fuel
      (fun new_board =>
         x <- Py.getitem2 new_board r c;;
         Ok (py_eqb x opponent_color))
      (fun new_board => Py.setitem2 new_board r c my_color)
      new_board) new_board.

(** The loop of [_negamax] over the legal moves; [rec] is [_negamax] one ply
    deeper.  The loop state is [(alpha, max_move, max_score)], at first
    [(alpha, None, -INF)]. *)
Definition negamax_loop
    (rec : Board -> Z -> Z -> bool -> res (option Py.key * Z))
    (board : Board) (beta : Z) (is_max : bool)
    (my_color opponent_color : pyval) (legal_moves : moves)
    (start : Z * option Py.key * Z)
    : res (flow (Z * option Py.key * Z) (option Py.key * Z)) :=
  for_return legal_moves (fun '(move, directions) '(alpha, max_move, max_score) =>
    (* Copy a new board and make move *)
    new_board <- make_move board my_color opponent_color move directions;;
    '(_, score) <- rec new_board (- beta) (- alpha) (negb is_max);;
    let score := - score in
    (* Pruning, and keep move with maximum score *)
    if score >? alpha then
      if score >=? beta then Ok (Return (Some move, score))
      else
        let alpha := Z.max alpha score in
        if score >? max_score then Ok (Next (alpha, Some move, score))
        else Ok (Next (alpha, max_move, max_score))
    else
      if score >? max_score then Ok (Next (alpha, Some move, score))
      else Ok (Next (alpha, max_move, max_score)))
    start.

(** [_negamax], by recursion on the remaining depth. *)
Fixpoint negamax_rec (depth : nat) (board : Board) (alpha beta : Z)
    (is_max : bool) : res (option Py.key * Z) :=
  let flag := if is_max then 1 else -1 in
  match depth with
  | O =>
      (* Leaf node *)
      v <- _evaluate board;; Ok (None, flag * v)
  | S depth' =>
      (* Get current legal moves *)
      legal_moves <- _search_legal_moves board is_max;;
      if Py.len legal_moves =? 0 then
        opponent_legal_moves <- _search_legal_moves board (negb is_max);;
        if Py.len opponent_legal_moves =? 0 then
          v <- _evaluate board;; Ok (None, flag * v)
        else
          '(_, score) <-
            negamax_rec depth' board (- beta) (- alpha) (negb is_max);;
          Ok (None, - score)
      else
        let '(my_color, opponent_color) :=
          if is_max then (my_color, opponent_color)
          else (opponent_color, my_color) in
        (* Try each move *)
        f <- negamax_loop (negamax_rec depth') board beta is_max
               my_color opponent_color legal_moves (alpha, None, - INF);;
        match f with
        | Return r => Ok r
        | Next (_, max_move, max_score) => Ok (max_move, max_score)
        end
  end.

(** [_negamax]: [depth <= 0] is a leaf, and each call passes [depth - 1]. *)
Definition _negamax (board : Board) (depth : Z) (alpha beta : Z)
    (is_max : bool) : res (option Py.key * Z) :=
  negamax_rec (Z.to_nat depth) board alpha beta is_max.

End Bot.

(** [analyze] *)
Definition analyze (fuel : nat) (game : Game.t) (depth : Z)
    : res (option Py.key) :=
  if is_running (Game._state game) && (depth >? 0) then
    let my_color := Game._my_color game in
    let opponent_color := Game._opponent_color game in
    (* Build minimax game tree and choose max value *)
    '(move, _) <-
      _negamax fuel my_color opponent_color (Game.board game) depth
        (- INF) INF true;;
    Ok move
  else Raise AssertionError.

End ReversiBot.

(** ** Positions and reference definitions used by the properties *)

(** A sequence of calls of [move], with what each call printed. *)
Fixpoint play (fuel : nat) (ms : list Py.key) : Game.M (list Game.printed) :=
  match ms with
  | [] => Game.ret []
  | (row, col) :: ms' =>
      Game.bind (Game.move fuel row col) (fun p =>
      Game.bind (play fuel ms') (fun ps => Game.ret (p :: ps)))
  end.

(** The object after [Game()] and [start(black_first)]. *)
Definition started (fuel : nat) (shuffled black_first : bool) : Game.t :=
  snd (Game.start fuel shuffled black_first Game.__init__).

(** The standard opening position. *)
Definition opening (shuffled : bool) : Board :=
  Game.board (started 8 shuffled true).

(** A board that is empty except for the given cells. *)
Definition place (cells : list (Py.key * COLOR)) : Board :=
  fold_left
    (fun b '((r, c), v) =>
       match Py.setitem2 b r c (Enum v) with Ok b' => b' | _ => b end)
    cells (Game.board Game.__init__).

(** A running game on a given board with black to move, its map of legal
    moves computed by the game engine. *)
Definition black_to_move (fuel : nat) (b : Board) : Game.t :=
  let g := Game.mk b RUNNING_BLACK [] BLACK WHITE 0 0 0 0 in
  match fst (Game._search_legal_moves fuel g) with
  | Ok m => Game.with_legal_moves m g
  | _ => g
  end.

(** All rows of a board are as long as the board. *)
Definition square (board : Board) : Prop :=
  Forall (fun row => length row = length board) board.

Definition squareb (board : Board) : bool :=
  forallb (fun row => Nat.eqb (length row) (length board)) board.

(** *** The legality scan of the search engine, in closed form *)

(** The test of the [while] loop of the search engine's direction scan. *)
Definition walk_test (board : Board) (opponent_color : pyval) (r c : Z)
    : res bool :=
  rbind (ReversiBot.in_board board r c) (fun inside =>
    if inside then
      rbind (Py.getitem2 board r c) (fun x => Ok (py_eqb x opponent_color))
    else Ok false).

(** What the direction scan of the search engine amounts to when it is given
    at least one iteration. *)
Definition directions_closed (board : Board) (my_color opponent_color : pyval)
    (row col : Z) : res (option (list direction)) :=
  match walk_test board opponent_color (row + -1) (col + -1) with
  | Ok true => OutOfFuel
  | Ok false => Ok (Some [])
  | Raise e => Raise e
  | OutOfFuel => OutOfFuel
  end.

(** [ReversiBot._search_legal_moves] over a given direction scan. *)
Definition scan_with
    (scan : Board -> pyval -> pyval -> Z -> Z -> res (option (list direction)))
    (my_color opponent_color : pyval) (board : Board) (is_max : bool)
    : res moves :=
  let '(my_color, opponent_color) :=
    if is_max then (my_color, opponent_color)
    else (opponent_color, my_color) in
  for_each (Py.range (Py.len board)) (fun row legal_moves =>
    rbind (Py.getitem board 0) (fun row0 =>
    for_each (Py.range (Py.len row0)) (fun col legal_moves =>
      rbind (Py.getitem2 board row col) (fun x =>
      if py_eqb x UNTOUCHED then
        rbind (scan board my_color opponent_color row col) (fun directions =>
        match directions with
        | None => Raise TypeError
        | Some directions =>
            if Py.len directions >? 0 then
              Ok (Py.dict_set legal_moves (row, col) directions)
            else Ok legal_moves
        end)
      else Ok legal_moves)) legal_moves)) [].

(** A bottom row [_ O * _ _ _ _ _] on an otherwise empty board: black
    captures at [(7, 0)]. *)
Definition one_capture : Board := place [((7, 1), WHITE); ((7, 2), BLACK)].

(** A bottom row [_ O O * _ _ _ _]: black captures two pieces at
    [(7, 0)]. *)
Definition two_captures : Board :=
  place [((7, 1), WHITE); ((7, 2), WHITE); ((7, 3), BLACK)].

(** Eight legal moves from the opening, black first, after which black is to
    move again and has no legal move. *)
Definition pass_moves : list Py.key :=
  [(2, 4); (2, 5); (2, 6); (1, 6); (4, 2); (2, 7); (0, 7); (0, 5)].

Definition after_pass (fuel : nat) : Game.t :=
  snd (play fuel pass_moves (started fuel false true)).

(** The object with the turn handed to the other side, as the setter of
    [state] does it. *)
Definition other_side (g : Game.t) : Game.t :=
  snd (Game.set_state
         (if GAMESTATE_eqb (Game._state g) RUNNING_BLACK then RUNNING_WHITE
          else RUNNING_BLACK) g).

(** Two outcomes of a method agree: the same result or exception, and the
    same object whenever the method returned. *)
Definition same_outcome {A : Type} (a b : res A * Game.t) : Prop :=
  fst a = fst b /\ (forall x, fst a = Ok x -> snd a = snd b).

(** A method that neither reads nor writes the field [_state]. *)
Definition state_blind {A : Type} (m : Game.M A) : Prop :=
  forall s g, m (Game.with_state s g) = (fst (m g), Game.with_state s (snd (m g))).

(** A method whose outcome does not depend on the field [_state]. *)
Definition state_independent {A : Type} (m : Game.M A) : Prop :=
  forall s g, same_outcome (m (Game.with_state s g)) (m g).

(** Two outcomes related by [R] on results, equal otherwise. *)
Definition res_rel {S T : Type} (R : S -> T -> Prop) (a : res S) (b : res T)
    : Prop :=
  match a, b with
  | Ok x, Ok y => R x y
  | Raise e, Raise e' => e = e'
  | OutOfFuel, OutOfFuel => True
  | _, _ => False
  end.

(** A one-piece position on which the static evaluation returns. *)
Definition lone_edge_piece : Board := place [((7, 3), BLACK)].

(** *** The static evaluation as a sum over the cells *)

(** The cell at [(r, c)], for indices in range. *)
Definition cell {A : Type} (d : A) (m : list (list A)) (r c : Z) : A :=
  nth (Z.to_nat c) (nth (Z.to_nat r) m []) d.

(** The contribution of one cell: the weight for a cell of self's color, the
    negated weight for a cell of the opponent's color, nothing otherwise. *)
Definition cell_value (my_color opponent_color : pyval) (w : Z) (x : pyval)
    : Z :=
  if py_eqb x my_color then w
  else if py_eqb x opponent_color then - w
  else 0.

Definition sum_over (l : list Z) (f : Z -> Z) : Z :=
  fold_right (fun i s => f i + s) 0 l.

(** The cell score for a grid of weights given as a function of the size
    and the cell. *)
Definition cell_sum (weight : Z -> Z -> Z -> Z)
    (my_color opponent_color : pyval) (board : Board) : Z :=
  let N := Py.len board in
  sum_over (Py.range N) (fun r =>
    sum_over (Py.range N) (fun c =>
      cell_value my_color opponent_color (weight N r c)
        (cell PyNone board r c))).

Definition is_corner (N r c : Z) : bool :=
  ((r =? 0) || (r =? N - 1)) && ((c =? 0) || (c =? N - 1)).

Definition is_interior (N r c : Z) : bool :=
  ((0 <? r) && (r <? N - 1)) && ((0 <? c) && (c <? N - 1)).

(** Row or column index in [{0, 1, N-2, N-1}]. *)
Definition near_border (N x : Z) : bool :=
  (x =? 0) || (x =? 1) || (x =? N - 2) || (x =? N - 1).

(** The grid of weights in the words of the description: corners 100;
    non-corner cells with row or column in [{0, 1, N-2, N-1}] -10; interior
    cells 1; remaining edge cells 10. *)
Definition weight_described (N r c : Z) : Z :=
  if is_corner N r c then 100
  else if near_border N r || near_border N c then -10
  else if is_interior N r c then 1
  else 10.

(** The same with the second class narrowed to the non-corner edge cells
    with both row and column in [{0, 1, N-2, N-1}]. *)
Definition weight_amended (N r c : Z) : Z :=
  if is_corner N r c then 100
  else if is_interior N r c then 1
  else if near_border N r && near_border N c then -10
  else 10.

(** Cell score plus freedom score, the freedom score taken from the two
    scans of the search engine. *)
Definition evaluation (weight : Z -> Z -> Z -> Z) (fuel : nat)
    (my_color opponent_color : pyval) (board : Board) : res Z :=
  rbind (ReversiBot._search_legal_moves fuel my_color opponent_color board
           false) (fun opponent_moves =>
  rbind (ReversiBot._search_legal_moves fuel my_color opponent_color board
           true) (fun my_moves =>
  Ok (cell_sum weight my_color opponent_color board
      + ((if Py.len opponent_moves =? 0 then 100 else 0)
         + (if Py.len my_moves =? 0 then -100 else 0))))).

(** A grid of [n] rows of length [n]. *)
Definition shape {A : Type} (n : nat) (m : list (list A)) : Prop :=
  length m = n /\ forall row, In row m -> length row = n.

(** A grid of shape [n] that holds [f r c] at the cells selected by [P]. *)
Definition filled (n : nat) (f : Z -> Z -> Z) (P : Z -> Z -> Prop)
    (m : list (list Z)) : Prop :=
  shape n m
  /\ forall r c, 0 <= r < Z.of_nat n -> 0 <= c < Z.of_nat n -> P r c ->
       cell 0 m r c = f r c.

(** *** Full minimax, the reference for the pruned search

    The search over the same game tree (the same legality scan, the same
    move on a copied board, the same pass rule and the same evaluation at
    the leaves) in which every legal move is examined: the score of a move
    is the negated value of the position it leads to, and the first move to
    attain the maximal score is kept, later moves of equal score never
    replacing it.

    Both searches are also given over an arbitrary legality scan and an
    arbitrary evaluation, the two methods [_negamax] calls on [self]. *)

Section Search.

Variable fuel : nat.
Variable search : Board -> bool -> res moves.
Variable evaluate : Board -> res Z.
Variables my_color opponent_color : pyval.

Definition full_loop
    (rec : Board -> bool -> res (option Py.key * Z))
    (board : Board) (is_max : bool) (mover other : pyval)
    (legal_moves : moves) (best : option Py.key * Z)
    : res (option Py.key * Z) :=
  for_each legal_moves (fun '(move, directions) '(max_move, max_score) =>
    rbind (ReversiBot.make_move fuel board mover other move directions)
      (fun new_board =>
    rbind (rec new_board (negb is_max)) (fun '(_, score) =>
    let score := - score in
    if score >? max_score then Ok (Some move, score)
    else Ok (max_move, max_score))))
    best.

Fixpoint full_rec (depth : nat) (board : Board) (is_max : bool)
    : res (option Py.key * Z) :=
  let flag := if is_max then 1 else -1 in
  match depth with
  | O => rbind (evaluate board) (fun v => Ok (None, flag * v))
  | S depth' =>
      rbind (search board is_max) (fun legal_moves =>
      if Py.len legal_moves =? 0 then
        rbind (search board (negb is_max)) (fun opponent_legal_moves =>
        if Py.len opponent_legal_moves =? 0 then
          rbind (evaluate board) (fun v => Ok (None, flag * v))
        else
          rbind (full_rec depth' board (negb is_max)) (fun '(_, score) =>
          Ok (None, - score)))
      else
        let '(mover, other) :=
          if is_max then (my_color, opponent_color)
          else (opponent_color, my_color) in
        full_loop (full_rec depth') board is_max mover other legal_moves
          (None, - ReversiBot.INF))
  end.

(** [_negamax] with the two methods it calls as parameters. *)
Fixpoint pruned_rec (depth : nat) (board : Board) (alpha beta : Z)
    (is_max : bool) : res (option Py.key * Z) :=
  let flag := if is_max then 1 else -1 in
  match depth with
  | O => rbind (evaluate board) (fun v => Ok (None, flag * v))
  | S depth' =>
      rbind (search board is_max) (fun legal_moves =>
      if Py.len legal_moves =? 0 then
        rbind (search board (negb is_max)) (fun opponent_legal_moves =>
        if Py.len opponent_legal_moves =? 0 then
          rbind (evaluate board) (fun v => Ok (None, flag * v))
        else
          rbind (pruned_rec depth' board (- beta) (- alpha) (negb is_max))
            (fun '(_, score) => Ok (None, - score)))
      else
        let '(mover, other) :=
          if is_max then (my_color, opponent_color)
          else (opponent_color, my_color) in
        rbind (ReversiBot.negamax_loop fuel (pruned_rec depth') board beta
                 is_max mover other legal_moves (alpha, None, - ReversiBot.INF))
          (fun f =>
        match f with
        | Return r => Ok r
        | Next (_, max_move, max_score) => Ok (max_move, max_score)
        end))
  end.

End Search.

(** Full minimax over the search engine's own scan and evaluation. *)
Definition minimax_rec (fuel : nat) (my_color opponent_color : pyval)
    : nat -> Board -> bool -> res (option Py.key * Z) :=
  full_rec fuel
    (ReversiBot._search_legal_moves fuel my_color opponent_color)
    (ReversiBot._evaluate fuel my_color opponent_color)
    my_color opponent_color.

Definition minimax (fuel : nat) (my_color opponent_color : pyval)
    (board : Board) (depth : Z) (is_max : bool) : res (option Py.key * Z) :=
  minimax_rec fuel my_color opponent_color (Z.to_nat depth) board is_max.

(** The value [s] returned for a window [(alpha, beta)] bounds the full
    minimax value [v]: from above when it fails low, from below when it
    fails high, and it is exact inside the window. *)
Definition window_bound (alpha beta v s : Z) : Prop :=
  (s <= alpha -> v <= s) /\ (beta <= s -> s <= v) /\ (alpha < s < beta -> s = v).

(** *** A working legality scan and a bounded evaluation, to instantiate
    the searches *)

(** The legality scan of the game engine for the side [is_max] selects. *)
Definition game_scan (fuel : nat) (my_color opponent_color : pyval)
    (board : Board) (is_max : bool) : res moves :=
  let '(mover, other) :=
    if is_max then (my_color, opponent_color)
    else (opponent_color, my_color) in
  fst (Game._search_legal_moves fuel
         (Game.mk board RUNNING_BLACK [] mover other 0 0 0 0)).

(** The cell score, kept strictly inside [(-INF, INF)]. *)
Definition clamped_cell_score (my_color opponent_color : pyval)
    (board : Board) : res Z :=
  Ok (Z.max (- ReversiBot.INF + 1)
        (Z.min (ReversiBot.INF - 1)
           (cell_sum weight_amended my_color opponent_color board))).

(** *** Termination of the game engine's scan *)

(** A method that returns without changing the object [g]. *)
Definition returns_unchanged {A : Type} (m : Game.M A) (g : Game.t) : Prop :=
  exists a, m g = (Ok a, g).

(** The number of cells between [(r, c)] and the edge of the board along
    the direction [d], [(r, c)] included. *)
Definition to_edge (d : direction) (r c : Z) : nat :=
  if Game.in_range r && Game.in_range c then
    Z.to_nat
      (if fst d =? 1 then Game.BOARD_SIZE - r
       else if fst d =? -1 then r + 1
       else if snd d =? 1 then Game.BOARD_SIZE - c
       else c + 1)
  else O.

(** *** The search engine's scan and simulated move, in closed form *)

(** Some empty cell of the board has, diagonally up and to the left, a cell
    of the board holding the color [opponent_color]. *)
Definition bot_hangs (board : Board) (opponent_color : pyval) : bool :=
  let N := Py.len board in
  existsb (fun row =>
    existsb (fun col =>
      py_eqb (cell PyNone board row col) UNTOUCHED
      && (((0 <=? row + -1) && (row + -1 <? N))
          && ((0 <=? col + -1) && (col + -1 <? N)))
      && py_eqb (cell PyNone board (row + -1) (col + -1)) opponent_color)
      (Py.range N)) (Py.range N).

(** Turn the cell [(r, c)] to [my_color] if it holds [opponent_color]. *)
Definition flip_adjacent (my_color opponent_color : pyval) (r c : Z)
    (new_board : Board) : res Board :=
  rbind (Py.getitem2 new_board r c) (fun x =>
    if py_eqb x opponent_color then Py.setitem2 new_board r c my_color
    else Ok new_board).

(** *** Counting cells *)

(** The number of cells of a board that hold [v]. *)
Definition count_cells (v : pyval) (board : Board) : Z :=
  Z.of_nat (length (filter (fun x => py_eqb x v) (concat board))).

Definition add3 (a b : Z * Z * Z) : Z * Z * Z :=
  let '(a1, a2, a3) := a in
  let '(b1, b2, b3) := b in
  (a1 + b1, a2 + b2, a3 + b3).

Definition sum3 {A : Type} (l : list A) (f : A -> Z * Z * Z) : Z * Z * Z :=
  fold_right (fun x s => add3 (f x) s) (0, 0, 0) l.

(** *** Invariants of the game object *)

(** The method leaves the object as it was, whatever its outcome. *)
Definition readonly {A : Type} (m : Game.M A) : Prop :=
  forall g, snd (m g) = g.

(** The method keeps the property [P] of the object, whatever its outcome
    (also when it raises). *)
Definition preserves {A : Type} (P : Game.t -> Prop) (m : Game.M A) : Prop :=
  forall g, P g -> P (snd (m g)).

(** In a running state the two color fields are the ones the state names. *)
Definition colors_follow_state (g : Game.t) : Prop :=
  match Game._state g with
  | RUNNING_BLACK =>
      Game._my_color g = BLACK /\ Game._opponent_color g = WHITE
  | RUNNING_WHITE =>
      Game._my_color g = WHITE /\ Game._opponent_color g = BLACK
  | _ => True
  end.

(** Every cell holds a color, and the color fields are set as soon as the
    stored map has a key. *)
Definition cells_are_colors (g : Game.t) : Prop :=
  Forall (Forall (fun x => x <> PyNone)) (Game.board g)
  /\ (Game._my_color g = PyNone -> Game._legal_moves g = []).

Definition well_formed (g : Game.t) : Prop :=
  shape 8 (Game.board g) /\ colors_follow_state g /\ cells_are_colors g.

(** The objects that calls of [start] and [move] can produce from a new
    game, with any arguments and whatever the outcome of each call. *)
Inductive reachable : Game.t -> Prop :=
| reachable_new : reachable Game.__init__
| reachable_start (fuel : nat) (shuffled black_first : bool) (g : Game.t) :
    reachable g ->
    reachable (snd (Game.start fuel shuffled black_first g))
| reachable_move (fuel : nat) (row col : Z) (g : Game.t) :
    reachable g ->
    reachable (snd (Game.move fuel row col g)).

(** From a state with [P] the method ends, whatever its outcome, in a state
    with [Q]. *)
Definition ensures {A : Type} (P : Game.t -> Prop) (m : Game.M A)
    (Q : Game.t -> Prop) : Prop :=
  forall g, P g -> Q (snd (m g)).

(** A well-formed object whose color fields are set. *)
Definition well_formed_set (g : Game.t) : Prop :=
  well_formed g /\ Game._my_color g <> PyNone.

(** *** Legal moves of the game engine *)

Definition on_board (r c : Z) : bool := Game.in_range r && Game.in_range c.

(** The number of consecutive cells holding [opponent_color], from
    [(r, c)] on along [d], within the board; at most [n]. *)
Fixpoint run_length (n : nat) (board : Board) (opponent_color : pyval)
    (d : direction) (r c : Z) : Z :=
  match n with
  | O => 0
  | S n' =>
      if on_board r c && py_eqb (cell PyNone board r c) opponent_color
      then 1 + run_length n' board opponent_color d (r + fst d) (c + snd d)
      else 0
  end.

(** Placing at [(row, col)] captures along [d]: a run of at least one
    opponent cell starts next to the cell and ends, on the board, at a cell
    of the mover. *)
Definition captures_along (board : Board) (my_color opponent_color : pyval)
    (row col : Z) (d : direction) : bool :=
  let k :=
    run_length 8 board opponent_color d (row + fst d) (col + snd d) in
  (k >? 0)
  && (on_board (row + fst d + k * fst d) (col + snd d + k * snd d)
      && py_eqb (cell PyNone board (row + fst d + k * fst d)
                   (col + snd d + k * snd d)) my_color).

Definition legal_directions (board : Board) (my_color opponent_color : pyval)
    (row col : Z) : list direction :=
  filter (captures_along board my_color opponent_color row col)
    Game.DIRECTIONS.

Definition legal_entry (board : Board) (my_color opponent_color : pyval)
    (legal_moves : moves) (row col : Z) : moves :=
  if py_eqb (cell PyNone board row col) UNTOUCHED then
    let directions := legal_directions board my_color opponent_color row col in
    if Py.len directions >? 0
    then Py.dict_set legal_moves (row, col) directions
    else legal_moves
  else legal_moves.

(** The map of legal moves of a board, cell by cell in row-major order. *)
Definition legal_moves_of (board : Board) (my_color opponent_color : pyval)
    : moves :=
  fold_left (fun legal_moves row =>
    fold_left (fun legal_moves col =>
      legal_entry board my_color opponent_color legal_moves row col)
      (Py.range Game.BOARD_SIZE) legal_moves)
    (Py.range Game.BOARD_SIZE) [].

(** The rule of the game: the [k >= 1] cells after [(row, col)] along [d]
    are on the board and hold the opponent's color, and the next cell is on
    the board and holds the mover's color. *)
Definition captures (board : Board) (my_color opponent_color : pyval)
    (row col : Z) (d : direction) (k : Z) : Prop :=
  1 <= k
  /\ (forall i, 1 <= i <= k ->
        on_board (row + i * fst d) (col + i * snd d) = true
        /\ cell PyNone board (row + i * fst d) (col + i * snd d)
           = opponent_color)
  /\ on_board (row + (k + 1) * fst d) (col + (k + 1) * snd d) = true
  /\ cell PyNone board (row + (k + 1) * fst d) (col + (k + 1) * snd d)
     = my_color.

(** What the scan records for one cell, if anything. *)
Definition entry_of (board : Board) (my_color opponent_color : pyval)
    (row col : Z) : option (list direction) :=
  if py_eqb (cell PyNone board row col) UNTOUCHED then
    let directions := legal_directions board my_color opponent_color row col in
    if Py.len directions >? 0 then Some directions else None
  else None.

(** *** The board after a legal move *)

(** The grid with [v] at [(r, c)], for indices in range. *)
Definition set_cell {A : Type} (m : list (list A)) (r c : Z) (v : A)
    : list (list A) :=
  Py.update m (Z.to_nat r) (Py.update (nth (Z.to_nat r) m []) (Z.to_nat c) v).

(** The board with [v] at the [k] cells from [(r, c)] on along [d]. *)
Fixpoint flip_cells (k : nat) (board : Board) (v : pyval) (d : direction)
    (r c : Z) : Board :=
  match k with
  | O => board
  | S k' => flip_cells k' (set_cell board r c v) v d (r + fst d) (c + snd d)
  end.

(** The board after placing at [(row, col)] and turning, along each of the
    directions, the run of the opponent that starts next to the cell. *)
Definition flipped_board (board : Board) (my_color opponent_color : pyval)
    (row col : Z) (directions : list direction) : Board :=
  fold_left (fun b d =>
    flip_cells
      (Z.to_nat (run_length 8 board opponent_color d (row + fst d)
                   (col + snd d)))
      b my_color d (row + fst d) (col + snd d))
    directions (set_cell board row col my_color).

(** The stored map is the map of legal moves of the board for the side to
    move. *)
Definition fresh (g : Game.t) : Prop :=
  Game._legal_moves g
  = legal_moves_of (Game.board g) (Game._my_color g) (Game._opponent_color g).

(** The cell [(r, c)] is among the [k] cells from [(r0, c0)] on along
    [d]. *)
Definition on_segment (d : direction) (r0 c0 : Z) (k : nat) (r c : Z) : Prop :=
  exists j, 0 <= j < Z.of_nat k /\ r = r0 + j * fst d /\ c = c0 + j * snd d.

(** The cell [(r, c)] is the cell of the move or one of the cells it
    captures. *)
Definition turned (board : Board) (my_color opponent_color : pyval)
    (row col r c : Z) : Prop :=
  (r = row /\ c = col)
  \/ exists d k i,
       In d Game.DIRECTIONS
       /\ captures board my_color opponent_color row col d k
       /\ 1 <= i <= k /\ r = row + i * fst d /\ c = col + i * snd d.

(** *** The turn after a move *)

(** The state [_switch_side] assigns. *)
Definition other_state (s : GAMESTATE) : GAMESTATE :=
  if GAMESTATE_eqb s RUNNING_BLACK then RUNNING_WHITE else RUNNING_BLACK.

(** The state [_end] assigns. *)
Definition final_state (white black : Z) : GAMESTATE :=
  if white =? black then DRAW
  else if white >? black then WIN_WHITE
  else WIN_BLACK.

(** The three counters are those of the board. *)
Definition counted (g : Game.t) : Prop :=
  Game._remain g = count_cells UNTOUCHED (Game.board g)
  /\ Game._white_count g = count_cells WHITE (Game.board g)
  /\ Game._black_count g = count_cells BLACK (Game.board g).

(** The side to move has the map of its legal moves, and it is not
    empty. *)
Definition ready (g : Game.t) : Prop :=
  is_running (Game._state g) = true /\ fresh g /\ Game._legal_moves g <> [].

(** The side the state names has no legal move on the board. *)
Definition stuck (g : Game.t) : Prop :=
  is_running (Game._state g) = true
  /\ legal_moves_of (Game.board g) (Game._my_color g)
       (Game._opponent_color g) = [].

(** *** The start of a game *)

(** The color [start] stores at a cell, if the cell is one of the four
    central ones; [shuffled] as in [Game.start]. *)
Definition centre (shuffled : bool) (r c : Z) : option COLOR :=
  if ((r =? 3) && (c =? 3)) || ((r =? 4) && (c =? 4)) then
    Some (if shuffled then WHITE else BLACK)
  else if ((r =? 3) && (c =? 4)) || ((r =? 4) && (c =? 3)) then
    Some (if shuffled then BLACK else WHITE)
  else None.

(** *** The tie-break of the full minimax *)

(** The score the full minimax gives to a move at [board], as the pair
    [entry] of the scan's map (the cell and its directions): the negated
    value of the position after the move, searched [depth] plies deep. *)
Definition move_score (fuel : nat) (search : Board -> bool -> res moves)
    (evaluate : Board -> res Z) (my_color opponent_color : pyval)
    (depth : nat) (board : Board) (is_max : bool)
    (entry : Py.key * list direction) : res Z :=
  let '(mover, other) :=
    if is_max then (my_color, opponent_color)
    else (opponent_color, my_color) in
  rbind (ReversiBot.make_move fuel board mover other (fst entry) (snd entry))
    (fun new_board =>
  rbind (full_rec fuel search evaluate my_color opponent_color depth
           new_board (negb is_max))
    (fun '(_, score) => Ok (- score))).

(** [entry] is the first element of [l], in the order of [l], to attain the
    maximal score [v]: every element before it scores less, and no element
    after it scores more. *)
Definition first_maximum {A : Type} (score : A -> res Z) (l : list A)
    (entry : A) (v : Z) : Prop :=
  exists before after,
    l = before ++ entry :: after
    /\ score entry = Ok v
    /\ (forall e, In e before -> exists s, score e = Ok s /\ s < v)
    /\ (forall e, In e after -> exists s, score e = Ok s /\ s <= v).

(** ** Properties *)

(** *** Loops *)

Lemma rbind_Ok {A B : Type} (m : res A) (k : A -> res B) (b : B) :
  rbind m k = Ok b -> exists a, m = Ok a /\ k a = Ok b.
Proof.
  destruct m as [a| |]; simpl; intros H; try discriminate.
  exists a; split; [reflexivity | exact H].
Qed.

Lemma for_each_ext {A S : Type} (l : list A) (f g : A -> S -> res S) :
  (forall x s, f x s = g x s) ->
  forall s, for_each l f s = for_each l g s.
Proof.
  intros Hfg. induction l as [|x l IH]; intros s; simpl.
  - reflexivity.
  - rewrite Hfg. destruct (g x s); simpl; auto.
Qed.

Lemma for_each_invariant {A S : Type} (P : S -> Prop) (l : list A)
    (body : A -> S -> res S) :
  (forall x s s', P s -> body x s = Ok s' -> P s') ->
  forall s r, P s -> for_each l body s = Ok r -> P r.
Proof.
  intros Hbody. induction l as [|x l IH]; intros s r Hs; simpl.
  - intros [= <-]. exact Hs.
  - intros H. apply rbind_Ok in H. destruct H as (s' & Hx & Hl).
    eapply IH; [eapply Hbody; eassumption | exact Hl].
Qed.

(** *** The legality scan of the search engine *)

(** The walk never moves: its test sees the same cell at every iteration. *)
Lemma bot_walk_fixed (board : Board) (opp : pyval) (r0 c0 : Z) :
  forall (fuel : nat) (count : Z),
    while fuel
      (fun '(r, c, _) =>
         rbind (ReversiBot.in_board board r c) (fun inside =>
           if inside then
             rbind (Py.getitem2 board r c) (fun x => Ok (py_eqb x opp))
           else Ok false))
      (fun '(_, _, count) => Ok (r0, c0, count + 1))
      (r0, c0, count)
    = match fuel with
      | O => OutOfFuel
      | S _ =>
          match walk_test board opp r0 c0 with
          | Ok true => OutOfFuel
          | Ok false => Ok (r0, c0, count)
          | Raise e => Raise e
          | OutOfFuel => OutOfFuel
          end
      end.
Proof.
  induction fuel as [|n IH]; intros count; [reflexivity|].
  cbn [while]. cbn beta iota.
  change (rbind (ReversiBot.in_board board r0 c0) _)
    with (walk_test board opp r0 c0) at 1.
  destruct (walk_test board opp r0 c0) as [[|]|e|] eqn:Ht; cbn [rbind];
    try reflexivity.
  rewrite IH. destruct n; [reflexivity|]. try rewrite Ht. reflexivity.
Qed.

Lemma bot_directions_closed (n : nat) (board : Board) (my opp : pyval)
    (row col : Z) :
  ReversiBot._search_available_directions (S n) board my opp row col
  = directions_closed board my opp row col.
Proof.
  unfold ReversiBot._search_available_directions, directions_closed.
  unfold ReversiBot.DIRECTIONS. cbn [for_return fst snd].
  rewrite bot_walk_fixed.
  destruct (walk_test board opp (row + -1) (col + -1)) as [[|]|e|];
    reflexivity.
Qed.

Lemma bot_scan_unfold (fuel : nat) (my opp : pyval) (board : Board)
    (is_max : bool) :
  ReversiBot._search_legal_moves fuel my opp board is_max
  = scan_with (ReversiBot._search_available_directions fuel) my opp board
      is_max.
Proof. reflexivity. Qed.

Lemma scan_with_ext scan1 scan2 (my opp : pyval) (board : Board)
    (is_max : bool) :
  (forall b m o r c, scan1 b m o r c = scan2 b m o r c) ->
  scan_with scan1 my opp board is_max = scan_with scan2 my opp board is_max.
Proof.
  intros H. unfold scan_with. destruct is_max.
  all: apply for_each_ext; intros row lm;
    destruct (Py.getitem board 0); cbn [rbind]; try reflexivity;
    apply for_each_ext; intros col lm';
    destruct (Py.getitem2 board row col); cbn [rbind]; try reflexivity;
    rewrite H; reflexivity.
Qed.

Lemma bot_scan_closed (n : nat) (my opp : pyval) (board : Board)
    (is_max : bool) :
  ReversiBot._search_legal_moves (S n) my opp board is_max
  = scan_with directions_closed my opp board is_max.
Proof.
  rewrite bot_scan_unfold. apply scan_with_ext.
  intros; apply bot_directions_closed.
Qed.

Lemma bot_scan_no_fuel (my opp : pyval) (board : Board) (is_max : bool) :
  ReversiBot._search_legal_moves 0 my opp board is_max
  = scan_with (fun _ _ _ _ _ => OutOfFuel) my opp board is_max.
Proof.
  rewrite bot_scan_unfold. apply scan_with_ext. reflexivity.
Qed.

(** C3 (the claim fails on the code): on the standard opening position,
    whichever way the centre colors were shuffled and for either side, the
    legality scan of the search engine does not return within any number
    of iterations of its walk: the walk re-reads the cell next to the
    candidate instead of advancing, and that cell holds the opponent's
    color. *)
Theorem C3_bot_scan_diverges_on_opening :
  forall (fuel : nat) (shuffled is_max : bool),
    ReversiBot._search_legal_moves fuel BLACK WHITE (opening shuffled) is_max
    = OutOfFuel.
Proof.
  intros [|n] shuffled is_max.
  - rewrite bot_scan_no_fuel. destruct shuffled, is_max; vm_compute; reflexivity.
  - rewrite bot_scan_closed. destruct shuffled, is_max; vm_compute; reflexivity.
Qed.

Lemma bot_directions_empty (fuel : nat) (board : Board) (my opp : pyval)
    (row col : Z) (x : option (list direction)) :
  ReversiBot._search_available_directions fuel board my opp row col = Ok x ->
  x = Some [].
Proof.
  destruct fuel as [|n].
  - discriminate.
  - rewrite bot_directions_closed. unfold directions_closed.
    destruct (walk_test board opp (row + -1) (col + -1)) as [[|]|e|];
      congruence.
Qed.

(** Whenever the scan of the search engine returns, it reports no legal
    move at all. *)
Lemma bot_scan_empty (fuel : nat) (my opp : pyval) (board : Board)
    (is_max : bool) (m : moves) :
  ReversiBot._search_legal_moves fuel my opp board is_max = Ok m -> m = [].
Proof.
  rewrite bot_scan_unfold. unfold scan_with.
  assert (H : forall a b,
    for_each (Py.range (Py.len board)) (fun row legal_moves =>
      rbind (Py.getitem board 0) (fun row0 =>
      for_each (Py.range (Py.len row0)) (fun col legal_moves =>
        rbind (Py.getitem2 board row col) (fun x =>
        if py_eqb x UNTOUCHED then
          rbind (ReversiBot._search_available_directions fuel board a b row col)
            (fun directions =>
          match directions with
          | None => Raise TypeError
          | Some directions =>
              if Py.len directions >? 0 then
                Ok (Py.dict_set legal_moves (row, col) directions)
              else Ok legal_moves
          end)
        else Ok legal_moves)) legal_moves)) [] = Ok m -> m = []).
  { intros a b.
    apply (for_each_invariant (fun s : moves => s = [])); [|reflexivity].
    intros row s s' Hs H. apply rbind_Ok in H. destruct H as (row0 & _ & H).
    revert H.
    apply (for_each_invariant (fun s : moves => s = [])); [|exact Hs].
    clear s s' Hs. intros col s s' Hs H.
    apply rbind_Ok in H. destruct H as (x & _ & H).
    destruct (py_eqb x UNTOUCHED); [|congruence].
    apply rbind_Ok in H. destruct H as (ds & Hds & H).
    apply bot_directions_empty in Hds. subst ds. cbn in H. congruence. }
  destruct is_max; apply H.
Qed.

(** C2 (the claim fails on the code): on a board whose bottom row starts
    [_ O * ...], the game engine finds black's capture at [(7, 0)] along
    direction [(0, 1)], while the scan of the search engine, for the same
    side, returns the empty map. *)
Theorem C2_bot_scan_misses_legal_move :
  forall n : nat,
    fst (Game._search_legal_moves (8 + n)
           (Game.mk one_capture RUNNING_BLACK [] BLACK WHITE 0 0 0 0))
    = Ok [((7, 0), [(0, 1)])]
    /\ ReversiBot._search_legal_moves (S n) BLACK WHITE one_capture true
       = Ok [].
Proof.
  intros n. split.
  - vm_compute. reflexivity.
  - rewrite bot_scan_closed. vm_compute. reflexivity.
Qed.

(** *** Applying a move *)

(** C1 (the claim fails on the code): on a board whose bottom row starts
    [_ O O * ...], black's legal move [(7, 0)] with its recorded direction
    [(0, 1)] flips both white pieces in the game engine, but only the
    adjacent one in the search engine, whose flip loop never advances. *)
Theorem C1_bot_flips_differ_from_game :
  forall n : nat,
    let g := black_to_move (17 + n) two_captures in
    Py.lookup (Game._legal_moves g) (7, 0) = Some [(0, 1)]
    /\ Game.board (snd (Game.move (17 + n) 7 0 g))
       = place [((7, 0), BLACK); ((7, 1), BLACK); ((7, 2), BLACK);
                ((7, 3), BLACK)]
    /\ ReversiBot.make_move (2 + n) two_captures BLACK WHITE (7, 0) [(0, 1)]
       = Ok (place [((7, 0), BLACK); ((7, 1), BLACK); ((7, 2), WHITE);
                    ((7, 3), BLACK)]).
Proof.
  intros n. repeat split; vm_compute; reflexivity.
Qed.

(** *** Turns *)

(** C4 (the claim fails on the code): eight successful moves from [start]
    lead to a running state that names black as the side to move although
    black has no legal move on the board, with the stored map still the one
    white had before its last move, and with white able to move. *)
Theorem C4_stuck_side_is_presented :
  forall n : nat,
    let fuel := (17 + n)%nat in
    let g := after_pass fuel in
    fst (play fuel pass_moves (started fuel false true))
    = Ok (map (fun _ => Game.Nothing) pass_moves)
    /\ Game._state g = RUNNING_BLACK
    /\ fst (Game._search_legal_moves fuel g) = Ok []
    /\ Game._legal_moves g
       = [((0, 5), [(1, 1)]); ((0, 6), [(1, 0)]); ((2, 3), [(0, 1)])]
    /\ Game._no_move_round g = 1
    /\ exists m, fst (Game._search_legal_moves fuel (other_side g)) = Ok m
                 /\ m <> [].
Proof.
  intros n. repeat split; try (vm_compute; reflexivity).
  eexists. split; [vm_compute; reflexivity | discriminate].
Qed.

(** C10 (the claim fails on the code): in the running state reached by the
    same eight moves, [move(0, 5)] finds the cell in the stale map, walks
    over white pieces beyond column 7, and the [IndexError] escapes the
    handler, which catches [KeyError] only. *)
Theorem C10_index_error_escapes :
  forall n : nat,
    let fuel := (17 + n)%nat in
    let g := after_pass fuel in
    is_running (Game._state g) = true
    /\ fst (Game.move fuel 0 5 g) = Raise IndexError.
Proof.
  intros n. split; vm_compute; reflexivity.
Qed.

(** *** Preconditions and illegal requests *)

(** A cell that is not a key of the stored map: the lookup raises
    [KeyError] before anything is written, and the handler prints. *)
Lemma move_not_a_key (fuel : nat) (g : Game.t) (row col : Z) :
  Py.lookup (Game._legal_moves g) (row, col) = None ->
  Game.move fuel row col g = (Ok Game.Not_a_legal_move, g).
Proof.
  intros H.
  unfold Game.move, Game.try_except, Game.move_flips, Game.bind, Game.get,
    Game.lift, Py.dict_get.
  rewrite H. reflexivity.
Qed.

(** C8: in a running state, [move] on a cell that is not a key of the
    current legal-move map prints the report and leaves the whole object
    (board, counts, state and legal-move map) as it was. *)
Theorem C8_illegal_move_changes_nothing (fuel : nat) (g : Game.t)
    (row col : Z) :
  is_running (Game._state g) = true ->
  Py.lookup (Game._legal_moves g) (row, col) = None ->
  Game.move fuel row col g = (Ok Game.Not_a_legal_move, g).
Proof.
  intros _ H. apply move_not_a_key. exact H.
Qed.

Lemma C8_witness :
  Game.move 8 0 0 (started 8 false true)
  = (Ok Game.Not_a_legal_move, started 8 false true).
Proof.
  apply (C8_illegal_move_changes_nothing 8 (started 8 false true) 0 0);
    vm_compute; reflexivity.
Defined.

Lemma same_outcome_refl {A : Type} (a : res A * Game.t) : same_outcome a a.
Proof. split; [reflexivity | intros; reflexivity]. Qed.

Lemma blind_ret {A : Type} (a : A) : state_blind (Game.ret a).
Proof. intros s g. reflexivity. Qed.

Lemma blind_bind {A B : Type} (m : Game.M A) (k : A -> Game.M B) :
  state_blind m -> (forall a, state_blind (k a)) -> state_blind (Game.bind m k).
Proof.
  intros Hm Hk s g. unfold Game.bind. rewrite Hm.
  destruct (m g) as [[a|e|] g1]; cbn [fst snd]; try reflexivity.
  apply Hk.
Qed.

Lemma blind_forM {A S : Type} (l : list A) (body : A -> S -> Game.M S) :
  (forall x s, state_blind (body x s)) ->
  forall s, state_blind (Game.forM l body s).
Proof.
  intros Hbody. induction l as [|x l IH]; intros s; cbn [Game.forM].
  - apply blind_ret.
  - apply blind_bind; [apply Hbody | exact IH].
Qed.

Lemma blind_board_get (r c : Z) : state_blind (Game.board_get r c).
Proof. intros s g. reflexivity. Qed.

Lemma blind_board_set (r c : Z) (v : pyval) : state_blind (Game.board_set r c v).
Proof.
  intros s g. unfold Game.board_set, Game.bind, Game.get, Game.lift,
    Game.modify. cbn [Game.board Game.with_state].
  destruct (Py.setitem2 (Game.board g) r c v); reflexivity.
Qed.

Lemma blind_count_board : state_blind Game._count_board.
Proof.
  unfold Game._count_board. apply blind_bind.
  - apply blind_forM. intros row acc. apply blind_forM.
    intros col [[white black] remain].
    repeat (apply blind_bind; [apply blind_board_get | intros ?]).
    apply blind_ret.
  - intros [[white black] remain] s g. reflexivity.
Qed.

Lemma independent_bind {A B : Type} (m : Game.M A) (k : A -> Game.M B) :
  state_blind m -> (forall a, state_independent (k a)) ->
  state_independent (Game.bind m k).
Proof.
  intros Hm Hk s g. unfold Game.bind. rewrite Hm.
  destruct (m g) as [[a|e|] g1]; cbn [fst snd].
  - apply Hk.
  - split; [reflexivity | discriminate].
  - split; [reflexivity | discriminate].
Qed.

Lemma start_state_independent (fuel : nat) (shuffled black_first : bool) :
  state_independent (Game.start fuel shuffled black_first).
Proof.
  unfold Game.start.
  repeat (apply independent_bind; [apply blind_board_set | intros _]).
  apply independent_bind; [apply blind_count_board | intros _].
  intros s g. destruct black_first; apply same_outcome_refl.
Qed.

(** C7 (amended): [analyze] fails on its assertion when the game is not
    running or the depth is not positive; [start] has no check of the
    state, its outcome is the same from every state; [move] has no check of
    the state either, and outside a running state a cell that is not a key
    of the stored map is reported and leaves the object unchanged. *)
Theorem C7_precondition_checks (fuel : nat) (g : Game.t) :
  (forall depth : Z,
     is_running (Game._state g) = false \/ depth <= 0 ->
     ReversiBot.analyze fuel g depth = Raise AssertionError)
  /\ (forall (shuffled black_first : bool) (s : GAMESTATE),
        same_outcome
          (Game.start fuel shuffled black_first (Game.with_state s g))
          (Game.start fuel shuffled black_first g))
  /\ (forall row col : Z,
        is_running (Game._state g) = false ->
        Py.lookup (Game._legal_moves g) (row, col) = None ->
        Game.move fuel row col g = (Ok Game.Not_a_legal_move, g)).
Proof.
  split; [|split].
  - intros depth H. unfold ReversiBot.analyze.
    destruct H as [H|H].
    + rewrite H. reflexivity.
    + replace (depth >? 0) with false.
      * rewrite andb_false_r. reflexivity.
      * symmetry. rewrite Z.gtb_ltb. apply Z.ltb_ge. exact H.
  - intros shuffled black_first s. apply start_state_independent.
  - intros row col _ H. apply move_not_a_key. exact H.
Qed.

Lemma C7_witness :
  ReversiBot.analyze 8 Game.__init__ 5 = Raise AssertionError
  /\ ReversiBot.analyze 8 (started 8 false true) 0 = Raise AssertionError
  /\ Game.move 8 3 3 Game.__init__ = (Ok Game.Not_a_legal_move, Game.__init__).
Proof.
  destruct (C7_precondition_checks 8 Game.__init__) as (Ha & _ & Hm).
  destruct (C7_precondition_checks 8 (started 8 false true)) as (Hb & _ & _).
  split; [|split].
  - apply Ha. left. reflexivity.
  - apply Hb. right. lia.
  - apply Hm; reflexivity.
Defined.

(** C7 (the claim as stated fails): [start] called on a game that is
    already running returns normally, and [move] called on a game that was
    never started returns normally after printing. *)
Lemma C7_counterexample :
  Game._state (started 8 false true) = RUNNING_BLACK
  /\ fst (Game.start 8 true false (started 8 false true)) = Ok tt
  /\ Game._state Game.__init__ = INITIALIZING
  /\ Game.move 8 3 3 Game.__init__ = (Ok Game.Not_a_legal_move, Game.__init__).
Proof.
  repeat split; vm_compute; reflexivity.
Qed.

(** *** Python lists *)

Lemma In_range (i n : Z) : In i (Py.range n) <-> 0 <= i < n.
Proof.
  unfold Py.range. rewrite in_map_iff. split.
  - intros (k & <- & Hk). apply in_seq in Hk. lia.
  - intros H. exists (Z.to_nat i). split; [lia|]. apply in_seq. lia.
Qed.

Lemma index_in_range (n i : Z) :
  0 <= i < n -> Py.index n i = Some (Z.to_nat i).
Proof.
  intros H. unfold Py.index.
  replace (0 <=? i) with true by (symmetry; apply Z.leb_le; lia).
  replace (i <? n) with true by (symmetry; apply Z.ltb_lt; lia).
  reflexivity.
Qed.

Lemma getitem_in_range {A : Type} (l : list A) (i : Z) (d : A) :
  0 <= i < Py.len l -> Py.getitem l i = Ok (nth (Z.to_nat i) l d).
Proof.
  intros H. unfold Py.getitem. rewrite index_in_range by exact H.
  unfold Py.len in H.
  rewrite (nth_error_nth' l d) by lia. reflexivity.
Qed.

Lemma getitem_In {A : Type} (l : list A) (i : Z) (x : A) :
  Py.getitem l i = Ok x -> In x l.
Proof.
  unfold Py.getitem. destruct (Py.index (Py.len l) i) as [k|]; [|discriminate].
  destruct (nth_error l k) as [y|] eqn:Hk; [|discriminate].
  intros [= <-]. eapply nth_error_In. exact Hk.
Qed.

Lemma square_row (board : Board) (row : list pyval) :
  square board -> In row board -> Py.len row = Py.len board.
Proof.
  intros Hsq Hin. unfold square in Hsq. rewrite Forall_forall in Hsq.
  unfold Py.len. rewrite (Hsq row Hin). reflexivity.
Qed.

Lemma squareb_square (board : Board) : squareb board = true -> square board.
Proof.
  unfold squareb, square. rewrite forallb_forall, Forall_forall.
  intros H row Hin. apply Nat.eqb_eq. apply H. exact Hin.
Qed.

(** The total reading of a cell that [m[r][c]] agrees with in range. *)
Lemma getitem2_square (board : Board) (r c : Z) :
  square board -> 0 <= r < Py.len board -> 0 <= c < Py.len board ->
  Py.getitem2 board r c
  = Ok (nth (Z.to_nat c) (nth (Z.to_nat r) board []) PyNone).
Proof.
  intros Hsq Hr Hc. unfold Py.getitem2.
  rewrite (getitem_in_range board r []) by exact Hr. cbn [rbind].
  apply getitem_in_range.
  rewrite (square_row board); [exact Hc | exact Hsq |].
  apply nth_In. unfold Py.len in Hr. lia.
Qed.

Lemma for_each_no_raise {A S : Type} (l : list A) (body : A -> S -> res S) :
  (forall x s e, In x l -> body x s <> Raise e) ->
  forall s e, for_each l body s <> Raise e.
Proof.
  induction l as [|x l IH]; intros Hbody s e; cbn [for_each].
  - discriminate.
  - destruct (body x s) as [s'|e'|] eqn:Hx; cbn [rbind].
    + apply IH. intros y t e0 Hy. apply Hbody. right. exact Hy.
    + exfalso. apply (Hbody x s e'); [left; reflexivity | exact Hx].
    + discriminate.
Qed.

(** *** The scan of the search engine on square boards *)

Lemma in_board_square (board : Board) (r c : Z) :
  square board ->
  ReversiBot.in_board board r c
  = Ok (((0 <=? r) && (r <? Py.len board))
        && ((0 <=? c) && (c <? Py.len board))).
Proof.
  intros Hsq. unfold ReversiBot.in_board.
  destruct ((0 <=? r) && (r <? Py.len board)) eqn:Hr; [|reflexivity].
  apply andb_true_iff in Hr. destruct Hr as [Hr1 Hr2].
  apply Z.leb_le in Hr1. apply Z.ltb_lt in Hr2.
  assert (H0 : 0 <= 0 < Py.len board) by lia.
  rewrite (getitem_in_range board 0 []) by exact H0. cbn [rbind].
  rewrite (square_row board); [reflexivity | exact Hsq |].
  apply nth_In. unfold Py.len in H0. lia.
Qed.

Lemma walk_test_no_raise (board : Board) (opp : pyval) (r c : Z) (e : exn) :
  square board -> walk_test board opp r c <> Raise e.
Proof.
  intros Hsq. unfold walk_test. rewrite in_board_square by exact Hsq.
  cbn [rbind].
  destruct ((0 <=? r) && (r <? Py.len board)) eqn:Hr; cbn [andb];
    [|discriminate].
  destruct ((0 <=? c) && (c <? Py.len board)) eqn:Hc; [|discriminate].
  apply andb_true_iff in Hr, Hc.
  rewrite getitem2_square; [discriminate | exact Hsq | |].
  - destruct Hr as [H1 H2]. apply Z.leb_le in H1. apply Z.ltb_lt in H2. lia.
  - destruct Hc as [H1 H2]. apply Z.leb_le in H1. apply Z.ltb_lt in H2. lia.
Qed.

Lemma bot_directions_no_raise (fuel : nat) (board : Board) (my opp : pyval)
    (row col : Z) (e : exn) :
  square board ->
  ReversiBot._search_available_directions fuel board my opp row col
  <> Raise e.
Proof.
  intros Hsq. destruct fuel as [|n]; [discriminate|].
  rewrite bot_directions_closed. unfold directions_closed.
  pose proof (walk_test_no_raise board opp (row + -1) (col + -1)) as H.
  destruct (walk_test board opp (row + -1) (col + -1)) as [[|]|e'|];
    try discriminate.
  exfalso. apply (H e'); [exact Hsq | reflexivity].
Qed.

Lemma bot_scan_no_raise (fuel : nat) (my opp : pyval) (board : Board)
    (is_max : bool) (e : exn) :
  square board ->
  ReversiBot._search_legal_moves fuel my opp board is_max <> Raise e.
Proof.
  intros Hsq. rewrite bot_scan_unfold. unfold scan_with.
  assert (H : forall a b,
    for_each (Py.range (Py.len board)) (fun row legal_moves =>
      rbind (Py.getitem board 0) (fun row0 =>
      for_each (Py.range (Py.len row0)) (fun col legal_moves =>
        rbind (Py.getitem2 board row col) (fun x =>
        if py_eqb x UNTOUCHED then
          rbind (ReversiBot._search_available_directions fuel board a b row col)
            (fun directions =>
          match directions with
          | None => Raise TypeError
          | Some directions =>
              if Py.len directions >? 0 then
                Ok (Py.dict_set legal_moves (row, col) directions)
              else Ok legal_moves
          end)
        else Ok legal_moves)) legal_moves)) [] <> Raise e).
  { intros a b. apply for_each_no_raise. intros row s e0 Hrow.
    apply In_range in Hrow.
    assert (H0 : 0 <= 0 < Py.len board) by lia.
    rewrite (getitem_in_range board 0 []) by exact H0. cbn [rbind].
    rewrite (square_row board);
      [| exact Hsq | apply nth_In; unfold Py.len in H0; lia].
    apply for_each_no_raise. intros col s' e1 Hcol.
    apply In_range in Hcol.
    rewrite getitem2_square by assumption. cbn [rbind].
    destruct (py_eqb _ UNTOUCHED); [|discriminate].
    destruct (ReversiBot._search_available_directions fuel board a b row col)
      as [ds|e2|] eqn:Hds; cbn [rbind]; try discriminate.
    - apply bot_directions_empty in Hds. subst ds. cbn. discriminate.
    - exfalso. revert Hds. apply bot_directions_no_raise. exact Hsq. }
  destruct is_max; apply H.
Qed.

(** On a square board the scan of the search engine either reports no
    legal move or does not return. *)
Lemma bot_scan_cases (fuel : nat) (my opp : pyval) (board : Board)
    (is_max : bool) :
  square board ->
  ReversiBot._search_legal_moves fuel my opp board is_max = Ok []
  \/ ReversiBot._search_legal_moves fuel my opp board is_max = OutOfFuel.
Proof.
  intros Hsq.
  destruct (ReversiBot._search_legal_moves fuel my opp board is_max)
    as [m|e|] eqn:H.
  - left. apply bot_scan_empty in H. subst m. reflexivity.
  - exfalso. revert H. apply bot_scan_no_raise. exact Hsq.
  - right. reflexivity.
Qed.

(** *** Static evaluation *)

Lemma py_eqb_eq (a b : pyval) : py_eqb a b = true <-> a = b.
Proof.
  split.
  - destruct a as [|[]], b as [|[]]; cbn; intros H; congruence.
  - intros <-. destruct a as [|[]]; reflexivity.
Qed.

Lemma py_eqb_neq (a b : pyval) : a <> b -> py_eqb a b = false.
Proof.
  intros H. destruct (py_eqb a b) eqn:E; [|reflexivity].
  apply py_eqb_eq in E. contradiction.
Qed.

Lemma for_each_sim {A S T : Type} (R : S -> T -> Prop) (l : list A)
    (f : A -> S -> res S) (g : A -> T -> res T) :
  (forall x s t, R s t -> res_rel R (f x s) (g x t)) ->
  forall s t, R s t -> res_rel R (for_each l f s) (for_each l g t).
Proof.
  intros Hstep. induction l as [|x l IH]; intros s t Hst; cbn [for_each].
  - exact Hst.
  - pose proof (Hstep x s t Hst) as Hx.
    destruct (f x s) as [s'|e|], (g x t) as [t'|e'|]; cbn in Hx |- *;
      try contradiction; auto.
Qed.

Lemma res_rel_opp (a b : res Z) :
  res_rel (fun s t => s = - t) a b -> a = rmap Z.opp b.
Proof.
  destruct a, b; cbn; intros H; try contradiction; congruence.
Qed.

(** Exchanging the two colors negates the cell score. *)
Lemma cell_score_swap (X Y : pyval) (board : Board) (size : Z)
    (w : list (list Z)) :
  X <> Y ->
  ReversiBot.cell_score X Y board size w
  = rmap Z.opp (ReversiBot.cell_score Y X board size w).
Proof.
  intros HXY. apply res_rel_opp. unfold ReversiBot.cell_score.
  apply for_each_sim; [|reflexivity].
  intros row s t Hst. apply for_each_sim; [|exact Hst].
  clear s t Hst. intros col s t Hst.
  destruct (Py.getitem2 board row col) as [x|e|]; cbn [rbind res_rel]; auto.
  destruct (py_eqb x X) eqn:EX, (py_eqb x Y) eqn:EY.
  - apply py_eqb_eq in EX, EY. congruence.
  - destruct (Py.getitem2 w row col); cbn; auto. lia.
  - destruct (Py.getitem2 w row col); cbn; auto. lia.
  - cbn. exact Hst.
Qed.

Lemma evaluate_swap (fuel : nat) (board : Board) (X Y : pyval) :
  square board -> X <> Y ->
  ReversiBot._evaluate fuel X Y board
  = rmap Z.opp (ReversiBot._evaluate fuel Y X board).
Proof.
  intros Hsq HXY. unfold ReversiBot._evaluate.
  destruct (ReversiBot.weights (Py.len board)) as [w|e|]; cbn [rbind rmap];
    try reflexivity.
  rewrite (cell_score_swap X Y) by exact HXY.
  destruct (ReversiBot.cell_score Y X board (Py.len board) w) as [cs|e|];
    cbn [rbind rmap]; try reflexivity.
  change (ReversiBot._search_legal_moves fuel Y X board false)
    with (ReversiBot._search_legal_moves fuel X Y board true).
  change (ReversiBot._search_legal_moves fuel Y X board true)
    with (ReversiBot._search_legal_moves fuel X Y board false).
  destruct (bot_scan_cases fuel X Y board false Hsq) as [HA|HA],
    (bot_scan_cases fuel X Y board true Hsq) as [HB|HB];
    rewrite HA, HB; cbn [rbind rmap]; try reflexivity.
  change (ReversiBot.freedom [] []) with 0. f_equal. lia.
Qed.

(** C9: on every square board and for two distinct colors [X] and [Y] (in
    particular black and white, either way round), the static evaluation
    with self [X] and opponent [Y] is the negation of the static evaluation
    with self [Y] and opponent [X], and so are the values of [_negamax] at
    depth 0; one returns exactly when the other does. *)
Theorem C9_evaluation_antisymmetric (fuel : nat) (board : Board)
    (X Y : pyval) :
  square board -> X <> Y ->
  ReversiBot._evaluate fuel X Y board
  = rmap Z.opp (ReversiBot._evaluate fuel Y X board)
  /\ forall alpha beta alpha' beta' : Z,
       rmap snd (ReversiBot._negamax fuel X Y board 0 alpha beta true)
       = rmap (fun r => - snd r)
           (ReversiBot._negamax fuel Y X board 0 alpha' beta' true).
Proof.
  intros Hsq HXY. split.
  - apply evaluate_swap; assumption.
  - intros alpha beta alpha' beta'. unfold ReversiBot._negamax.
    cbn [Z.to_nat ReversiBot.negamax_rec].
    rewrite (evaluate_swap fuel board X Y) by assumption.
    destruct (ReversiBot._evaluate fuel Y X board) as [v|e|];
      cbn [rbind rmap snd]; try reflexivity.
    f_equal. lia.
Qed.

Lemma C9_witness :
  ReversiBot._evaluate 8 BLACK WHITE lone_edge_piece
  = rmap Z.opp (ReversiBot._evaluate 8 WHITE BLACK lone_edge_piece).
Proof.
  apply (C9_evaluation_antisymmetric 8 lone_edge_piece BLACK WHITE).
  - apply squareb_square. vm_compute. reflexivity.
  - discriminate.
Defined.

(** *** Grids *)

Lemma length_update {A : Type} (l : list A) (k : nat) (v : A) :
  length (Py.update l k v) = length l.
Proof.
  revert k. induction l as [|x l IH]; intros [|k]; cbn; auto.
Qed.

Lemma nth_update {A : Type} (l : list A) (k j : nat) (v d : A) :
  (k < length l)%nat ->
  nth j (Py.update l k v) d = if Nat.eqb k j then v else nth j l d.
Proof.
  revert k j. induction l as [|x l IH]; intros k j Hk; cbn in Hk; [lia|].
  destruct k as [|k], j as [|j]; cbn; auto.
  apply IH. lia.
Qed.

Lemma In_update {A : Type} (l : list A) (k : nat) (v x : A) :
  In x (Py.update l k v) -> x = v \/ In x l.
Proof.
  revert k. induction l as [|y l IH]; intros [|k]; cbn; try tauto.
  - intros [H|H]; auto.
  - intros [H|H]; auto. destruct (IH k H); auto.
Qed.

Lemma setitem_in_range {A : Type} (l : list A) (i : Z) (v : A) :
  0 <= i < Py.len l -> Py.setitem l i v = Ok (Py.update l (Z.to_nat i) v).
Proof.
  intros H. unfold Py.setitem. rewrite index_in_range by exact H.
  reflexivity.
Qed.

Lemma square_shape (board : Board) : square board -> shape (length board) board.
Proof.
  intros H. split; [reflexivity|]. apply Forall_forall. exact H.
Qed.

Lemma shape_row {A : Type} (n : nat) (m : list (list A)) (r : Z) :
  shape n m -> 0 <= r < Z.of_nat n -> length (nth (Z.to_nat r) m []) = n.
Proof.
  intros [Hlen Hrows] Hr. apply Hrows. apply nth_In. lia.
Qed.

Lemma getitem2_shape {A : Type} (d : A) (n : nat) (m : list (list A))
    (r c : Z) :
  shape n m -> 0 <= r < Z.of_nat n -> 0 <= c < Z.of_nat n ->
  Py.getitem2 m r c = Ok (cell d m r c).
Proof.
  intros Hs Hr Hc. unfold Py.getitem2, cell.
  rewrite (getitem_in_range m r []) by (unfold Py.len; destruct Hs; lia).
  cbn [rbind]. apply getitem_in_range.
  unfold Py.len. rewrite (shape_row n m r Hs Hr). exact Hc.
Qed.

Lemma setitem2_shape {A : Type} (n : nat) (m : list (list A)) (r c : Z)
    (v : A) :
  shape n m -> 0 <= r < Z.of_nat n -> 0 <= c < Z.of_nat n ->
  Py.setitem2 m r c v
  = Ok (Py.update m (Z.to_nat r)
          (Py.update (nth (Z.to_nat r) m []) (Z.to_nat c) v)).
Proof.
  intros Hs Hr Hc. unfold Py.setitem2.
  rewrite (getitem_in_range m r []) by (unfold Py.len; destruct Hs; lia).
  cbn [rbind].
  rewrite setitem_in_range
    by (unfold Py.len; rewrite (shape_row n m r Hs Hr); exact Hc).
  cbn [rbind].
  apply setitem_in_range. unfold Py.len; destruct Hs; lia.
Qed.

Lemma setitem2_filled (n : nat) (f : Z -> Z -> Z) (P : Z -> Z -> Prop)
    (m : list (list Z)) (r c : Z) :
  filled n f P m -> 0 <= r < Z.of_nat n -> 0 <= c < Z.of_nat n ->
  exists m',
    Py.setitem2 m r c (f r c) = Ok m'
    /\ filled n f (fun r' c' => P r' c' \/ (r' = r /\ c' = c)) m'.
Proof.
  intros [Hs Hf] Hr Hc. eexists. split.
  { apply (setitem2_shape n); assumption. }
  pose proof (shape_row n m r Hs Hr) as Hrow.
  destruct Hs as [Hlen Hrows]. split; [split|].
  - rewrite length_update. exact Hlen.
  - intros row Hin. apply In_update in Hin. destruct Hin as [->|Hin].
    + rewrite length_update. exact Hrow.
    + apply Hrows. exact Hin.
  - intros r' c' Hr' Hc' HP. unfold cell.
    rewrite nth_update by lia.
    destruct (Nat.eqb (Z.to_nat r) (Z.to_nat r')) eqn:Er.
    + apply Nat.eqb_eq in Er. assert (r' = r) by lia. subst r'.
      rewrite nth_update by lia.
      destruct (Nat.eqb (Z.to_nat c) (Z.to_nat c')) eqn:Ec.
      * apply Nat.eqb_eq in Ec. assert (c' = c) by lia. subst c'. reflexivity.
      * apply Nat.eqb_neq in Ec. destruct HP as [HP|[_ HP]].
        -- apply (Hf r c' Hr' Hc' HP).
        -- subst c'. contradiction.
    + apply Nat.eqb_neq in Er. destruct HP as [HP|[HP _]].
      * apply (Hf r' c' Hr' Hc' HP).
      * subst r'. contradiction.
Qed.

Lemma filled_weaken (n : nat) (f : Z -> Z -> Z) (P Q : Z -> Z -> Prop)
    (m : list (list Z)) :
  (forall r c, 0 <= r < Z.of_nat n -> 0 <= c < Z.of_nat n -> Q r c -> P r c) ->
  filled n f P m -> filled n f Q m.
Proof.
  intros HQP [Hs Hf]. split; [exact Hs|].
  intros r c Hr Hc HQ. apply Hf; auto.
Qed.

(** A loop that keeps an invariant of the elements already visited and
    never fails. *)
Lemma for_each_progress {A S : Type} (I : list A -> S -> Prop) (l : list A)
    (body : A -> S -> res S) :
  (forall pre x s, In x l -> I pre s ->
     exists s', body x s = Ok s' /\ I (pre ++ [x]) s') ->
  forall s, I [] s -> exists s', for_each l body s = Ok s' /\ I l s'.
Proof.
  intros Hstep.
  assert (H : forall post pre s, l = pre ++ post -> I pre s ->
            exists s', for_each post body s = Ok s' /\ I l s').
  { induction post as [|x post IH]; intros pre s Hl Hs; cbn [for_each].
    - exists s. rewrite app_nil_r in Hl. subst l. auto.
    - destruct (Hstep pre x s) as (s' & Hx & Hs'); [| exact Hs |].
      + subst l. apply in_or_app. right. left. reflexivity.
      + rewrite Hx. cbn [rbind]. apply (IH (pre ++ [x])); [|exact Hs'].
        rewrite <- app_assoc. exact Hl. }
  intros s Hs. apply (H l [] s); auto.
Qed.

Lemma range_of_nat (n : nat) :
  Py.range (Z.of_nat n) = map Z.of_nat (seq 0 n).
Proof. unfold Py.range. rewrite Nat2Z.id. reflexivity. Qed.

(** The grid of weights is built without failure and holds [weight_at] at
    every cell. *)
Lemma weights_filled (n : nat) :
  exists w,
    ReversiBot.weights (Z.of_nat n) = Ok w
    /\ filled n (ReversiBot.weight_at (Z.of_nat n)) (fun _ _ => True) w.
Proof.
  unfold ReversiBot.weights.
  set (f := ReversiBot.weight_at (Z.of_nat n)).
  destruct (for_each_progress
              (fun pre w => filled n f (fun r _ => In r pre) w)
              (Py.range (Z.of_nat n))
              (fun row w =>
                 for_each (Py.range (Z.of_nat n))
                   (fun col w => Py.setitem2 w row col (f row col)) w))
    with (s := map (fun _ : Z => map (fun _ : Z => 0) (Py.range (Z.of_nat n)))
                 (Py.range (Z.of_nat n)))
    as (w & Hw & Hfilled).
  - intros pre row w Hrow Hpre. apply In_range in Hrow.
    destruct (for_each_progress
                (fun pre' w =>
                   filled n f (fun r c => In r pre \/ (r = row /\ In c pre')) w)
                (Py.range (Z.of_nat n))
                (fun col w => Py.setitem2 w row col (f row col)))
      with (s := w) as (w' & Hw' & Hfilled').
    + intros pre' col w0 Hcol Hpre'. apply In_range in Hcol.
      destruct (setitem2_filled n f _ w0 row col Hpre' Hrow Hcol)
        as (w1 & Hset & Hfill).
      exists w1. split; [exact Hset|].
      revert Hfill. apply filled_weaken.
      intros r c _ _ [H|[-> H]]; [left; left; exact H|].
      apply in_app_or in H. destruct H as [H|[<-|[]]].
      * left. right. auto.
      * right. auto.
    + revert Hpre. apply filled_weaken. intros r c _ _ [H|[_ []]]. exact H.
    + exists w'. split; [exact Hw'|].
      revert Hfilled'. apply filled_weaken.
      intros r c _ Hc H. apply in_app_or in H. destruct H as [H|[<-|[]]].
      * left. exact H.
      * right. split; [reflexivity|]. apply In_range. exact Hc.
  - split; [split|].
    + rewrite length_map, range_of_nat, length_map, length_seq. reflexivity.
    + intros row Hin. apply in_map_iff in Hin. destruct Hin as (_ & <- & _).
      rewrite length_map, range_of_nat, length_map, length_seq. reflexivity.
    + intros r c _ _ [].
  - exists w. split; [exact Hw|].
    revert Hfilled. apply filled_weaken.
    intros r c Hr _ _. apply In_range. exact Hr.
Qed.

(** *** The static evaluation as a sum *)

Lemma for_each_sum (l : list Z) (g : Z -> Z) (body : Z -> Z -> res Z) :
  (forall i acc, In i l -> body i acc = Ok (acc + g i)) ->
  forall acc, for_each l body acc = Ok (acc + sum_over l g).
Proof.
  induction l as [|i l IH]; intros Hbody acc; cbn [for_each sum_over fold_right].
  - f_equal. lia.
  - rewrite Hbody by (left; reflexivity). cbn [rbind].
    rewrite IH by (intros j a Hj; apply Hbody; right; exact Hj).
    f_equal. unfold sum_over. lia.
Qed.

Lemma sum_over_ext (l : list Z) (f g : Z -> Z) :
  (forall i, f i = g i) -> sum_over l f = sum_over l g.
Proof.
  intros H. induction l as [|i l IH]; cbn; [reflexivity|].
  rewrite H. unfold sum_over in IH. rewrite IH. reflexivity.
Qed.

(** On a square board and a filled grid of weights, the loop of the cell
    score does not fail and computes the sum over the cells. *)
Lemma cell_score_sum (my opp : pyval) (board : Board) (w : list (list Z)) :
  square board ->
  filled (length board) (ReversiBot.weight_at (Py.len board))
    (fun _ _ => True) w ->
  ReversiBot.cell_score my opp board (Py.len board) w
  = Ok (cell_sum ReversiBot.weight_at my opp board).
Proof.
  intros Hsq [Hs Hf]. unfold ReversiBot.cell_score, cell_sum.
  rewrite (for_each_sum (Py.range (Py.len board))
    (fun r => sum_over (Py.range (Py.len board)) (fun c =>
       cell_value my opp (ReversiBot.weight_at (Py.len board) r c)
         (cell PyNone board r c)))); [f_equal; lia|].
  intros row acc Hrow. apply In_range in Hrow.
  apply for_each_sum. intros col acc' Hcol. apply In_range in Hcol.
  rewrite (getitem2_shape PyNone (length board))
    by (auto using square_shape).
  cbn [rbind]. unfold cell_value.
  rewrite (getitem2_shape 0 (length board) w row col Hs Hrow Hcol).
  rewrite (Hf row col Hrow Hcol I).
  destruct (py_eqb (cell PyNone board row col) my); cbn [rbind];
    [reflexivity|].
  destruct (py_eqb (cell PyNone board row col) opp); cbn [rbind];
    f_equal; lia.
Qed.

Lemma weight_at_amended (N r c : Z) :
  ReversiBot.weight_at N r c = weight_amended N r c.
Proof.
  unfold ReversiBot.weight_at, weight_amended, is_corner, is_interior,
    near_border, ReversiBot.mem, ReversiBot.SCORE_NORMAL,
    ReversiBot.SCORE_CORNER, ReversiBot.SCORE_AROUND, ReversiBot.SCORE_BOUND.
  cbn [existsb].
  destruct (Z.ltb_spec 0 r), (Z.ltb_spec r (N - 1)),
    (Z.ltb_spec 0 c), (Z.ltb_spec c (N - 1));
    destruct (Z.eqb_spec r 0), (Z.eqb_spec r (N - 1)); try lia;
    destruct (Z.eqb_spec c 0), (Z.eqb_spec c (N - 1)); try lia;
    cbn [andb orb]; try reflexivity;
    destruct (Z.eqb_spec r 1), (Z.eqb_spec r (N - 2)); try lia;
    destruct (Z.eqb_spec c 1), (Z.eqb_spec c (N - 2)); try lia;
    reflexivity.
Qed.

Lemma cell_sum_amended (my opp : pyval) (board : Board) :
  cell_sum ReversiBot.weight_at my opp board
  = cell_sum weight_amended my opp board.
Proof.
  unfold cell_sum. apply sum_over_ext. intros r.
  apply sum_over_ext. intros c. rewrite weight_at_amended. reflexivity.
Qed.

(** C6 (amended): on every square board and for every assignment of
    colors, the static evaluation is the cell score plus the freedom
    score; the cell score sums the weights of self's cells minus the
    weights of the opponent's cells, with corners 100, interior cells 1,
    non-corner edge cells whose row and column are both in
    [{0, 1, N-2, N-1}] -10 and the remaining edge cells 10; the freedom
    score adds 100 if the scan of the search engine reports no move for the
    opponent and subtracts 100 if it reports none for self; the evaluation
    returns exactly when both scans return. *)
Theorem C6_evaluation_is_cell_score_plus_freedom (fuel : nat)
    (my_color opponent_color : pyval) (board : Board) :
  square board ->
  ReversiBot._evaluate fuel my_color opponent_color board
  = evaluation weight_amended fuel my_color opponent_color board.
Proof.
  intros Hsq. unfold ReversiBot._evaluate, evaluation.
  destruct (weights_filled (length board)) as (w & Hw & Hfilled).
  change (Z.of_nat (length board)) with (Py.len board) in Hw, Hfilled.
  rewrite Hw. cbn [rbind].
  rewrite cell_score_sum by assumption. cbn [rbind].
  rewrite cell_sum_amended.
  destruct (ReversiBot._search_legal_moves fuel my_color opponent_color board
              false) as [om|e|]; cbn [rbind]; try reflexivity.
  destruct (ReversiBot._search_legal_moves fuel my_color opponent_color board
              true) as [mm|e|]; cbn [rbind]; try reflexivity.
  unfold ReversiBot.freedom.
  destruct (Py.len om =? 0), (Py.len mm =? 0); reflexivity.
Qed.

Lemma C6_witness :
  ReversiBot._evaluate 8 BLACK WHITE lone_edge_piece
  = evaluation weight_amended 8 BLACK WHITE lone_edge_piece.
Proof.
  apply (C6_evaluation_is_cell_score_plus_freedom 8 BLACK WHITE
           lone_edge_piece).
  apply squareb_square. vm_compute. reflexivity.
Defined.

(** C6 (the claim as stated fails): with a single black piece on the edge
    cell [(7, 3)], the static evaluation for black is 10, the weight of a
    plain edge cell; the described grid gives that cell the weight -10,
    because its row is in [{0, 1, N-2, N-1}]. *)
Lemma C6_counterexample :
  ReversiBot._evaluate 8 BLACK WHITE lone_edge_piece = Ok 10
  /\ evaluation weight_described 8 BLACK WHITE lone_edge_piece = Ok (-10)
  /\ ReversiBot.weight_at 8 7 3 = 10
  /\ weight_described 8 7 3 = -10.
Proof.
  repeat split; vm_compute; reflexivity.
Qed.

(** *** Pruned search and full minimax *)

(** Since the scan of the search engine never reports a move, the loop over
    the candidate moves is never entered: the pruned search and the full
    minimax run the same computation, whatever the window. *)
Lemma negamax_rec_minimax (fuel : nat) (my opp : pyval) :
  forall (depth : nat) (board : Board) (alpha beta : Z) (is_max : bool),
    ReversiBot.negamax_rec fuel my opp depth board alpha beta is_max
    = minimax_rec fuel my opp depth board is_max.
Proof.
  unfold minimax_rec.
  induction depth as [|d IH]; intros board alpha beta is_max;
    cbn [ReversiBot.negamax_rec full_rec]; [reflexivity|].
  destruct (ReversiBot._search_legal_moves fuel my opp board is_max)
    as [m|e|] eqn:Hm; cbn [rbind]; try reflexivity.
  apply bot_scan_empty in Hm. subst m. cbn [Py.len length Z.of_nat Z.eqb].
  destruct (ReversiBot._search_legal_moves fuel my opp board (negb is_max))
    as [m'|e|] eqn:Hm'; cbn [rbind]; try reflexivity.
  apply bot_scan_empty in Hm'. subst m'. reflexivity.
Qed.


(** *** Pruning over an arbitrary legality scan and evaluation

    The pruned search is compared with the full minimax for every
    implementation of the two methods [_negamax] calls, provided the
    evaluation stays strictly between [-INF] and [INF]: whenever the full
    minimax returns, the pruned search started with the full window
    returns the same move with the same score. *)

Lemma window_bound_neg (alpha beta v s : Z) :
  window_bound (- beta) (- alpha) v s -> window_bound alpha beta (- v) (- s).
Proof. unfold window_bound. lia. Qed.

Lemma window_bound_exact (alpha beta v : Z) : window_bound alpha beta v v.
Proof. unfold window_bound. lia. Qed.

Lemma for_return_ext {A S R : Type} (l : list A)
    (f g : A -> S -> res (flow S R)) :
  (forall x s, f x s = g x s) ->
  forall s, for_return l f s = for_return l g s.
Proof.
  intros Hfg. induction l as [|x l IH]; intros s; cbn [for_return].
  - reflexivity.
  - rewrite Hfg. destruct (g x s) as [[s'|r]| |]; cbn [rbind]; auto.
Qed.

Section Pruning.

Variable fuel : nat.
Variable search : Board -> bool -> res moves.
Variable evaluate : Board -> res Z.
Variables my opp : pyval.

Hypothesis evaluate_bounded :
  forall b v, evaluate b = Ok v -> - ReversiBot.INF < v < ReversiBot.INF.

Local Notation "'full'" := (full_rec fuel search evaluate my opp).
Local Notation "'pruned'" := (pruned_rec fuel search evaluate my opp).

Lemma full_loop_cons (rec : Board -> bool -> res (option Py.key * Z))
    (board : Board) (is_max : bool) (mover other : pyval) (move : Py.key)
    (directions : list direction) (l : moves) (max_move : option Py.key)
    (max_score : Z) :
  full_loop fuel rec board is_max mover other ((move, directions) :: l)
    (max_move, max_score)
  = rbind
      (rbind (ReversiBot.make_move fuel board mover other move directions)
         (fun new_board =>
       rbind (rec new_board (negb is_max)) (fun '(_, score) =>
       if - score >? max_score then Ok (Some move, - score)
       else Ok (max_move, max_score))))
      (full_loop fuel rec board is_max mover other l).
Proof. reflexivity. Qed.

Lemma negamax_loop_cons
    (rec : Board -> Z -> Z -> bool -> res (option Py.key * Z))
    (board : Board) (beta : Z) (is_max : bool) (mover other : pyval)
    (move : Py.key) (directions : list direction) (l : moves)
    (alpha : Z) (max_move : option Py.key) (max_score : Z) :
  ReversiBot.negamax_loop fuel rec board beta is_max mover other
    ((move, directions) :: l) (alpha, max_move, max_score)
  = rbind
      (rbind (ReversiBot.make_move fuel board mover other move directions)
         (fun new_board =>
       rbind (rec new_board (- beta) (- alpha) (negb is_max))
         (fun '(_, score) =>
       if - score >? alpha then
         if - score >=? beta then Ok (Return (Some move, - score))
         else
           if - score >? max_score
           then Ok (Next (Z.max alpha (- score), Some move, - score))
           else Ok (Next (Z.max alpha (- score), max_move, max_score))
       else
         if - score >? max_score then Ok (Next (alpha, Some move, - score))
         else Ok (Next (alpha, max_move, max_score)))))
      (fun f =>
         match f with
         | Next s' =>
             ReversiBot.negamax_loop fuel rec board beta is_max mover other
               l s'
         | Return r => Ok (Return r)
         end).
Proof. reflexivity. Qed.

(** The running maximum of the full loop only grows. *)
Lemma full_loop_mono (rec : Board -> bool -> res (option Py.key * Z))
    (board : Board) (is_max : bool) (mover other : pyval) :
  forall (l : moves) (best r : option Py.key * Z),
    full_loop fuel rec board is_max mover other l best = Ok r ->
    snd best <= snd r.
Proof.
  induction l as [|[move directions] l IH]; intros [fm V] r H.
  - cbn in H. injection H as <-. lia.
  - rewrite full_loop_cons in H.
    apply rbind_Ok in H. destruct H as (best' & Hstep & Hrest).
    apply IH in Hrest.
    apply rbind_Ok in Hstep. destruct Hstep as (nb & _ & Hstep).
    apply rbind_Ok in Hstep. destruct Hstep as ([x w] & _ & Hstep).
    destruct (Z.gtb_spec (- w) V); injection Hstep as <-; cbn [snd] in *; lia.
Qed.

(** The value of the full minimax is a value of the evaluation, up to its
    sign. *)
Lemma full_loop_bounded (rec : Board -> bool -> res (option Py.key * Z))
    (board : Board) (is_max : bool) (mover other : pyval) :
  (forall b m x w, rec b m = Ok (x, w) ->
     - ReversiBot.INF < w < ReversiBot.INF) ->
  forall (l : moves) (best r : option Py.key * Z),
    full_loop fuel rec board is_max mover other l best = Ok r ->
    snd best < ReversiBot.INF ->
    snd r < ReversiBot.INF /\ (l <> [] -> - ReversiBot.INF < snd r).
Proof.
  intros Hrec.
  induction l as [|[move directions] l IH]; intros [fm V] r H HV.
  - cbn in H. injection H as <-. split; [exact HV | congruence].
  - rewrite full_loop_cons in H.
    apply rbind_Ok in H. destruct H as (best' & Hstep & Hrest).
    pose proof (full_loop_mono _ _ _ _ _ _ _ _ Hrest) as Hmono.
    apply rbind_Ok in Hstep. destruct Hstep as (nb & _ & Hstep).
    apply rbind_Ok in Hstep. destruct Hstep as ([x w] & Hw & Hstep).
    apply Hrec in Hw.
    destruct (Z.gtb_spec (- w) V); injection Hstep as <-;
      cbn [snd] in *;
      (destruct (IH _ _ Hrest) as [Hlt _]; [cbn [snd]; lia|]);
      (split; [exact Hlt | intros _; lia]).
Qed.

Lemma full_bounded :
  forall (depth : nat) (board : Board) (is_max : bool)
         (m : option Py.key) (v : Z),
    full depth board is_max = Ok (m, v) ->
    - ReversiBot.INF < v < ReversiBot.INF.
Proof.
  assert (Hleaf : forall board (is_max : bool) m v,
    rbind (evaluate board)
      (fun v0 => Ok (@None Py.key, (if is_max then 1 else -1) * v0))
    = Ok (m, v) -> - ReversiBot.INF < v < ReversiBot.INF).
  { intros board is_max m v H. apply rbind_Ok in H.
    destruct H as (v0 & Hv0 & H). injection H as _ <-.
    apply evaluate_bounded in Hv0. destruct is_max; lia. }
  induction depth as [|d IH]; intros board is_max m v H; cbn [full_rec] in H.
  - eapply Hleaf. exact H.
  - apply rbind_Ok in H. destruct H as (lm & _ & H).
    destruct (Py.len lm =? 0) eqn:Hlen.
    + apply rbind_Ok in H. destruct H as (olm & _ & H).
      destruct (Py.len olm =? 0).
      * eapply Hleaf. exact H.
      * apply rbind_Ok in H. destruct H as ([x w] & Hw & H).
        injection H as _ <-. apply IH in Hw. lia.
    + assert (Hne : lm <> []) by (intros ->; discriminate).
      assert (Hloop : forall mover other,
        full_loop fuel (full d) board is_max mover other lm
          (None, - ReversiBot.INF) = Ok (m, v) ->
        - ReversiBot.INF < v < ReversiBot.INF).
      { intros mover other Hl.
        destruct (full_loop_bounded (full d) board is_max mover other IH
                    lm _ _ Hl) as [H1 H2].
        - cbn [snd]. unfold ReversiBot.INF. lia.
        - cbn [snd] in *. split; [apply H2; exact Hne | exact H1]. }
      destruct is_max; eapply Hloop; exact H.
Qed.

(** The invariant of the pruned loop for a window [(alpha, beta)]: [a] is
    the raised alpha, [ms] the best score so far and [V] the maximum of the
    full loop over the same moves. *)
Lemma pruned_loop_bound
    (rec_full : Board -> bool -> res (option Py.key * Z))
    (rec_pruned : Board -> Z -> Z -> bool -> res (option Py.key * Z))
    (board : Board) (is_max : bool) (mover other : pyval) (alpha beta : Z) :
  (forall b m x w, rec_full b m = Ok (x, w) ->
     forall a b', - ReversiBot.INF <= a -> a < b' -> b' <= ReversiBot.INF ->
       exists x' t, rec_pruned b a b' m = Ok (x', t) /\ window_bound a b' w t) ->
  - ReversiBot.INF <= alpha -> beta <= ReversiBot.INF ->
  forall (l : moves) (fm : option Py.key) (V : Z) (a : Z)
         (mm : option Py.key) (ms : Z) (r : option Py.key * Z),
    full_loop fuel rec_full board is_max mover other l (fm, V) = Ok r ->
    a = Z.max alpha ms -> a < beta -> V <= ms -> (alpha < ms -> ms <= V) ->
    exists f,
      ReversiBot.negamax_loop fuel rec_pruned board beta is_max mover other l
        (a, mm, ms) = Ok f
      /\ match f with
         | Return (_, s) => window_bound alpha beta (snd r) s
         | Next (_, _, s) => window_bound alpha beta (snd r) s
         end.
Proof.
  intros Hrec Halpha Hbeta.
  induction l as [|[move directions] l IH];
    intros fm V a mm ms r H Ha Hab HV HD.
  - cbn in H. injection H as <-. eexists. split; [reflexivity|].
    cbn [snd]. unfold window_bound. lia.
  - rewrite full_loop_cons in H.
    apply rbind_Ok in H. destruct H as ([fm' V'] & Hstep & Hrest).
    pose proof (full_loop_mono _ _ _ _ _ _ _ _ Hrest) as Hmono.
    cbn [snd] in Hmono.
    apply rbind_Ok in Hstep. destruct Hstep as (nb & Hnb & Hstep).
    apply rbind_Ok in Hstep. destruct Hstep as ([x w] & Hw & Hstep).
    destruct (Hrec _ _ _ _ Hw (- beta) (- a)) as (x' & t & Ht & Hbound);
      try lia.
    apply window_bound_neg in Hbound.
    rewrite negamax_loop_cons, Hnb. cbn [rbind]. rewrite Ht. cbn [rbind].
    unfold window_bound in Hbound.
    destruct (Z.gtb_spec (- t) a) as [Hgt|Hle].
    + destruct (Z.geb_spec (- t) beta) as [Hcut|Hin].
      * (* beta cutoff *)
        eexists. split; [reflexivity|]. cbn beta iota.
        assert (- w <= V') by
          (destruct (Z.gtb_spec (- w) V); injection Hstep as _ <-; lia).
        unfold window_bound. lia.
      * (* the score is exact and raises alpha *)
        assert (Hexact : - t = - w) by lia.
        destruct (Z.gtb_spec (- t) ms) as [_|Hms]; [|lia].
        destruct (Z.gtb_spec (- w) V) as [_|HwV]; [|lia].
        injection Hstep as <- <-. cbn [rbind].
        apply (IH _ _ _ _ _ _ Hrest); lia.
    + (* the score fails low *)
      destruct (Z.gtb_spec (- t) ms) as [Hms|Hms]; cbn [rbind].
      * destruct (Z.gtb_spec (- w) V) as [HwV|HwV]; injection Hstep as <- <-;
          apply (IH _ _ _ _ _ _ Hrest); lia.
      * destruct (Z.gtb_spec (- w) V) as [HwV|HwV]; injection Hstep as <- <-;
          apply (IH _ _ _ _ _ _ Hrest); lia.
Qed.

Lemma pruned_in_window :
  forall (depth : nat) (board : Board) (is_max : bool)
         (m : option Py.key) (v : Z),
    full depth board is_max = Ok (m, v) ->
    forall alpha beta,
      - ReversiBot.INF <= alpha -> alpha < beta -> beta <= ReversiBot.INF ->
      exists m' s,
        pruned depth board alpha beta is_max = Ok (m', s)
        /\ window_bound alpha beta v s.
Proof.
  induction depth as [|d IH]; intros board is_max m v H alpha beta Ha Hab Hb;
    cbn [full_rec pruned_rec] in *.
  - exists m, v. split; [exact H | apply window_bound_exact].
  - destruct (search board is_max) as [lm| |]; cbn [rbind] in *;
      try discriminate.
    destruct (Py.len lm =? 0).
    + destruct (search board (negb is_max)) as [olm| |]; cbn [rbind] in *;
        try discriminate.
      destruct (Py.len olm =? 0).
      * exists m, v. split; [exact H | apply window_bound_exact].
      * apply rbind_Ok in H. destruct H as ([x w] & Hw & H).
        injection H as <- <-.
        destruct (IH _ _ _ _ Hw (- beta) (- alpha)) as (x' & t & Ht & Hbound);
          try lia.
        rewrite Ht. cbn [rbind]. exists None, (- t). split; [reflexivity|].
        apply window_bound_neg. exact Hbound.
    + assert (Hloop : forall mover other,
        full_loop fuel (full d) board is_max mover other lm
          (None, - ReversiBot.INF) = Ok (m, v) ->
        exists m' s,
          rbind (ReversiBot.negamax_loop fuel (pruned d) board beta is_max
                   mover other lm (alpha, None, - ReversiBot.INF))
            (fun f =>
               match f with
               | Return r => Ok r
               | Next (_, max_move, max_score) => Ok (max_move, max_score)
               end) = Ok (m', s)
          /\ window_bound alpha beta v s).
      { intros mover other Hl.
        destruct (pruned_loop_bound (full d) (pruned d) board is_max mover
                    other alpha beta IH Ha Hb lm None (- ReversiBot.INF)
                    alpha None (- ReversiBot.INF) (m, v) Hl)
          as (f & Hf & Hres); try lia.
        rewrite Hf. cbn [rbind].
        destruct f as [[[a' mm'] ms']|[m' s]]; cbn [snd] in Hres;
          eexists _, _; (split; [reflexivity | exact Hres]). }
      destruct is_max; apply Hloop; exact H.
Qed.

(** With the full window at the root nothing is cut off, and the pruned
    loop keeps the same best move and score as the full loop. *)
Lemma pruned_loop_root (d : nat) (board : Board) (is_max : bool)
    (mover other : pyval) :
  forall (l : moves) (fm : option Py.key) (V : Z) (r : option Py.key * Z),
    full_loop fuel (full d) board is_max mover other l (fm, V) = Ok r ->
    - ReversiBot.INF <= V < ReversiBot.INF ->
    ReversiBot.negamax_loop fuel (pruned d) board ReversiBot.INF is_max
      mover other l (V, fm, V)
    = Ok (Next (snd r, fst r, snd r)).
Proof.
  induction l as [|[move directions] l IH]; intros fm V r H HV.
  - cbn in H. injection H as <-. reflexivity.
  - rewrite full_loop_cons in H.
    apply rbind_Ok in H. destruct H as ([fm' V'] & Hstep & Hrest).
    apply rbind_Ok in Hstep. destruct Hstep as (nb & Hnb & Hstep).
    apply rbind_Ok in Hstep. destruct Hstep as ([x w] & Hw & Hstep).
    pose proof (full_bounded _ _ _ _ _ Hw) as Hwb.
    destruct (pruned_in_window _ _ _ _ _ Hw (- ReversiBot.INF) (- V))
      as (x' & t & Ht & Hbound); try lia.
    apply window_bound_neg in Hbound.
    rewrite negamax_loop_cons, Hnb. cbn [rbind]. rewrite Ht. cbn [rbind].
    unfold window_bound in Hbound.
    destruct (Z.gtb_spec (- t) V) as [Hgt|Hle].
    + destruct (Z.geb_spec (- t) ReversiBot.INF) as [Hcut|Hin]; [lia|].
      assert (Hexact : - t = - w) by lia.
      destruct (Z.gtb_spec (- w) V) as [_|HwV]; [|lia].
      injection Hstep as <- <-. cbn [rbind].
      rewrite Hexact, Z.max_r by lia.
      apply (IH _ _ _ Hrest). lia.
    + destruct (Z.gtb_spec (- w) V) as [HwV|_]; [lia|].
      injection Hstep as <- <-. cbn [rbind].
      apply (IH _ _ _ Hrest). lia.
Qed.

Lemma pruned_at_root :
  forall (depth : nat) (board : Board) (is_max : bool)
         (r : option Py.key * Z),
    full depth board is_max = Ok r ->
    pruned depth board (- ReversiBot.INF) ReversiBot.INF is_max = Ok r.
Proof.
  intros [|d] board is_max [m v] H; cbn [full_rec pruned_rec] in *.
  - exact H.
  - destruct (search board is_max) as [lm| |]; cbn [rbind] in *;
      try discriminate.
    destruct (Py.len lm =? 0).
    + destruct (search board (negb is_max)) as [olm| |]; cbn [rbind] in *;
        try discriminate.
      destruct (Py.len olm =? 0); [exact H|].
      apply rbind_Ok in H. destruct H as ([x w] & Hw & H).
      injection H as <- <-.
      pose proof (full_bounded _ _ _ _ _ Hw) as Hwb.
      destruct (pruned_in_window _ _ _ _ _ Hw (- ReversiBot.INF)
                  (- - ReversiBot.INF)) as (x' & t & Ht & Hbound);
        try (unfold ReversiBot.INF; lia).
      rewrite Ht. cbn [rbind]. unfold window_bound in Hbound.
      assert (t = w) by (unfold ReversiBot.INF in *; lia).
      subst t. reflexivity.
    + assert (Hloop : forall mover other,
        full_loop fuel (full d) board is_max mover other lm
          (None, - ReversiBot.INF) = Ok (m, v) ->
        rbind (ReversiBot.negamax_loop fuel (pruned d) board ReversiBot.INF
                 is_max mover other lm
                 (- ReversiBot.INF, None, - ReversiBot.INF))
          (fun f =>
             match f with
             | Return r => Ok r
             | Next (_, max_move, max_score) => Ok (max_move, max_score)
             end) = Ok (m, v)).
      { intros mover other Hl.
        rewrite (pruned_loop_root d board is_max mover other lm None
                   (- ReversiBot.INF) (m, v) Hl)
          by (unfold ReversiBot.INF; lia).
        reflexivity. }
      destruct is_max; apply Hloop; exact H.
Qed.

(** X10: pruning changes neither the chosen move nor its score: whenever
    the full minimax returns, the pruned search started with the window
    [(-INF, INF)] returns the same pair. *)
Theorem pruning_keeps_minimax_move :
  forall (depth : nat) (board : Board) (is_max : bool)
         (r : option Py.key * Z),
    full depth board is_max = Ok r ->
    pruned depth board (- ReversiBot.INF) ReversiBot.INF is_max = Ok r.
Proof. exact pruned_at_root. Qed.

(** The full loop keeps the first of its moves to attain the maximal
    score: either no move beats the score the loop starts with, or the move
    it returns is the first maximum of the list. *)
Lemma full_loop_first_maximum
    (rec : Board -> bool -> res (option Py.key * Z))
    (board : Board) (is_max : bool) (mover other : pyval) :
  let score := fun entry : Py.key * list direction =>
    rbind (ReversiBot.make_move fuel board mover other (fst entry)
             (snd entry)) (fun new_board =>
    rbind (rec new_board (negb is_max)) (fun '(_, score) => Ok (- score))) in
  forall (l : moves) (fm : option Py.key) (V : Z) (m : option Py.key)
         (v : Z),
    full_loop fuel rec board is_max mover other l (fm, V) = Ok (m, v) ->
    (m = fm /\ v = V
     /\ forall e, In e l -> exists s, score e = Ok s /\ s <= V)
    \/ (exists move directions,
          m = Some move /\ V < v
          /\ first_maximum score l (move, directions) v).
Proof.
  intros score.
  induction l as [|[move directions] l IH]; intros fm V m v H.
  - cbn in H. injection H as <- <-. left.
    split; [reflexivity|]. split; [reflexivity|]. intros e [].
  - rewrite full_loop_cons in H.
    apply rbind_Ok in H. destruct H as ([fm' V'] & Hstep & Hrest).
    apply rbind_Ok in Hstep. destruct Hstep as (nb & Hnb & Hstep).
    apply rbind_Ok in Hstep. destruct Hstep as ([x w] & Hw & Hstep).
    assert (Hscore : score (move, directions) = Ok (- w)).
    { unfold score. cbn [fst snd]. rewrite Hnb. cbn [rbind].
      rewrite Hw. reflexivity. }
    destruct (Z.gtb_spec (- w) V) as [Hgt|Hle]; injection Hstep as <- <-.
    + (* the move takes the lead *)
      right. destruct (IH _ _ _ _ Hrest)
        as [(-> & -> & Hall)|(mv & ds & -> & Hlt & pre & post & -> & Hs
                                & Hpre & Hpost)].
      * exists move, directions. split; [reflexivity|]. split; [exact Hgt|].
        exists [], l. split; [reflexivity|]. split; [exact Hscore|].
        split; [intros e []|exact Hall].
      * exists mv, ds. split; [reflexivity|]. split; [lia|].
        exists ((move, directions) :: pre), post.
        split; [reflexivity|]. split; [exact Hs|]. split; [|exact Hpost].
        intros e [<-|He]; [exists (- w); split; [exact Hscore|lia]|].
        apply Hpre. exact He.
    + (* the lead is kept *)
      destruct (IH _ _ _ _ Hrest)
        as [(-> & -> & Hall)|(mv & ds & -> & Hlt & pre & post & -> & Hs
                                & Hpre & Hpost)].
      * left. split; [reflexivity|]. split; [reflexivity|].
        intros e [<-|He]; [exists (- w); split; [exact Hscore|lia]|].
        apply Hall. exact He.
      * right. exists mv, ds. split; [reflexivity|]. split; [exact Hlt|].
        exists ((move, directions) :: pre), post.
        split; [reflexivity|]. split; [exact Hs|]. split; [|exact Hpost].
        intros e [<-|He]; [exists (- w); split; [exact Hscore|lia]|].
        apply Hpre. exact He.
Qed.

(** At a position where the scan reports moves, the move of the full
    minimax is the first move, in the order of the scan's map, to attain
    the maximal score. *)
Lemma full_first_maximum (d : nat) (board : Board) (legal_moves : moves)
    (m : option Py.key) (v : Z) :
  full (S d) board true = Ok (m, v) ->
  search board true = Ok legal_moves -> legal_moves <> [] ->
  exists move directions,
    m = Some move
    /\ first_maximum (move_score fuel search evaluate my opp d board true)
         legal_moves (move, directions) v.
Proof.
  intros H Hlm Hne. pose proof (full_bounded _ _ _ _ _ H) as Hv.
  cbn [full_rec] in H. rewrite Hlm in H. cbn [rbind] in H.
  replace (Py.len legal_moves =? 0) with false in H
    by (destruct legal_moves; [congruence | reflexivity]).
  destruct (full_loop_first_maximum (full d) board true my opp legal_moves
              None (- ReversiBot.INF) m v H)
    as [(_ & -> & _)|(mv & ds & -> & _ & Hfirst)]; [lia|].
  exists mv, ds. split; [reflexivity | exact Hfirst].
Qed.

(** X11: whenever the full minimax returns, the pruned search returns for every
    proper window, with a score that bounds the minimax value: the value
    itself when it lies strictly inside the window, a lower bound of it at
    or above [beta], an upper bound of it at or below [alpha]. *)
Theorem pruned_bound :
  forall (depth : nat) (board : Board) (is_max : bool)
         (m : option Py.key) (v : Z),
    full depth board is_max = Ok (m, v) ->
    forall alpha beta,
      - ReversiBot.INF <= alpha -> alpha < beta -> beta <= ReversiBot.INF ->
      exists m' s,
        pruned depth board alpha beta is_max = Ok (m', s)
        /\ window_bound alpha beta v s.
Proof. exact pruned_in_window. Qed.

End Pruning.

(** [_negamax] is the pruned search over the search engine's own scan and
    evaluation. *)
Lemma negamax_rec_pruned (fuel : nat) (my opp : pyval) :
  forall (depth : nat) (board : Board) (alpha beta : Z) (is_max : bool),
    ReversiBot.negamax_rec fuel my opp depth board alpha beta is_max
    = pruned_rec fuel (ReversiBot._search_legal_moves fuel my opp)
        (ReversiBot._evaluate fuel my opp) my opp depth board alpha beta
        is_max.
Proof. reflexivity. Qed.

(** C5: for every board, pair of colors and positive depth, the pruned
    search started with the full window returns the move (and the score) of
    the full minimax over the same game tree, and this move is the first
    move in the order of the scan's map to attain the maximal score, later
    moves of equal score not replacing it.  This holds for the loop of
    [_negamax] as written, over every implementation of the two methods it
    calls whose evaluation stays strictly between [-INF] and [INF]; with
    the search engine's own scan and evaluation, for which the loop is
    never entered, the two searches are the same computation on every
    board. *)
Theorem C5_pruned_move_is_minimax_move (fuel : nat)
    (search : Board -> bool -> res moves) (evaluate : Board -> res Z)
    (my_color opponent_color : pyval) (board : Board) (depth : Z)
    (m : option Py.key) (v : Z) :
  (forall b x, evaluate b = Ok x ->
     - ReversiBot.INF < x < ReversiBot.INF) ->
  depth > 0 ->
  full_rec fuel search evaluate my_color opponent_color (Z.to_nat depth)
    board true = Ok (m, v) ->
  pruned_rec fuel search evaluate my_color opponent_color (Z.to_nat depth)
    board (- ReversiBot.INF) ReversiBot.INF true = Ok (m, v)
  /\ (forall legal_moves,
        search board true = Ok legal_moves -> legal_moves <> [] ->
        exists move directions,
          m = Some move
          /\ first_maximum
               (move_score fuel search evaluate my_color opponent_color
                  (Nat.pred (Z.to_nat depth)) board true)
               legal_moves (move, directions) v)
  /\ ReversiBot._negamax fuel my_color opponent_color board depth
       (- ReversiBot.INF) ReversiBot.INF true
     = minimax fuel my_color opponent_color board depth true.
Proof.
  intros Hev Hdepth Hfull. split; [|split].
  - apply pruned_at_root; assumption.
  - intros legal_moves Hlm Hne.
    destruct (Z.to_nat depth) as [|d] eqn:Hd; [lia|]. cbn [Nat.pred].
    apply full_first_maximum; assumption.
  - unfold ReversiBot._negamax, minimax. apply negamax_rec_minimax.
Qed.

Lemma C5_witness :
  pruned_rec 17 (game_scan 17 BLACK WHITE) (clamped_cell_score BLACK WHITE)
    BLACK WHITE (Z.to_nat 3) (opening false) (- ReversiBot.INF)
    ReversiBot.INF true = Ok (Some (2, 4), 3)
  /\ (forall legal_moves,
        game_scan 17 BLACK WHITE (opening false) true = Ok legal_moves ->
        legal_moves <> [] ->
        exists move directions,
          Some (2, 4) = Some move
          /\ first_maximum
               (move_score 17 (game_scan 17 BLACK WHITE)
                  (clamped_cell_score BLACK WHITE) BLACK WHITE
                  (Nat.pred (Z.to_nat 3)) (opening false) true)
               legal_moves (move, directions) 3)
  /\ ReversiBot._negamax 17 BLACK WHITE (opening false) 3
       (- ReversiBot.INF) ReversiBot.INF true
     = minimax 17 BLACK WHITE (opening false) 3 true.
Proof.
  apply (C5_pruned_move_is_minimax_move 17 (game_scan 17 BLACK WHITE)
           (clamped_cell_score BLACK WHITE) BLACK WHITE (opening false) 3
           (Some (2, 4)) 3).
  - intros b x [= <-]. unfold ReversiBot.INF. lia.
  - lia.
  - vm_compute. reflexivity.
Defined.

(** On the opening position with the legality scan of the game engine,
    three plies deep, both searches choose the same move. *)
Example pruning_on_opening :
  pruned_rec 17 (game_scan 17 BLACK WHITE) (clamped_cell_score BLACK WHITE)
    BLACK WHITE 3 (opening false) (- ReversiBot.INF) ReversiBot.INF true
  = Ok (Some (2, 4), 3)
  /\ full_rec 17 (game_scan 17 BLACK WHITE) (clamped_cell_score BLACK WHITE)
       BLACK WHITE 3 (opening false) true
     = Ok (Some (2, 4), 3).
Proof. split; vm_compute; reflexivity. Qed.

(** *** The legality scan of the game engine returns

    Unlike the scan of the search engine, the walk of the game engine
    advances along the direction, and the distance to the edge of the board
    bounds its iterations: on every 8 x 8 board and in every running state
    the scan returns a map and leaves the object as it was. *)

Lemma returns_ret {A : Type} (a : A) (g : Game.t) :
  returns_unchanged (Game.ret a) g.
Proof. exists a. reflexivity. Qed.

Lemma returns_bind {A B : Type} (m : Game.M A) (k : A -> Game.M B)
    (g : Game.t) :
  returns_unchanged m g -> (forall a, returns_unchanged (k a) g) ->
  returns_unchanged (Game.bind m k) g.
Proof.
  intros [a Ha] Hk. unfold returns_unchanged, Game.bind. rewrite Ha.
  apply Hk.
Qed.

Lemma returns_forM {A S : Type} (l : list A) (body : A -> S -> Game.M S)
    (g : Game.t) :
  (forall x s, In x l -> returns_unchanged (body x s) g) ->
  forall s, returns_unchanged (Game.forM l body s) g.
Proof.
  induction l as [|x l IH]; intros Hbody s; cbn [Game.forM].
  - apply returns_ret.
  - apply returns_bind.
    + apply Hbody. left. reflexivity.
    + intros s'. apply IH. intros y t Hy. apply Hbody. right. exact Hy.
Qed.

Lemma returns_board_get (g : Game.t) (r c : Z) :
  shape 8 (Game.board g) ->
  Game.in_range r && Game.in_range c = true ->
  returns_unchanged (Game.board_get r c) g.
Proof.
  intros Hs Hin. apply andb_true_iff in Hin. destruct Hin as [Hr Hc].
  unfold Game.in_range, Game.BOARD_SIZE in Hr, Hc.
  apply andb_true_iff in Hr, Hc.
  destruct Hr as [Hr1 Hr2], Hc as [Hc1 Hc2].
  apply Z.leb_le in Hr1, Hc1. apply Z.ltb_lt in Hr2, Hc2.
  exists (cell PyNone (Game.board g) r c).
  unfold Game.board_get, Game.bind, Game.get, Game.lift.
  rewrite (getitem2_shape PyNone 8) by (assumption || lia). reflexivity.
Qed.

(** A loop whose test and body leave the object alone and whose body
    decreases a measure returns once the fuel exceeds the measure. *)
Lemma returns_whileM {S : Type} (mu : S -> nat) (cond : S -> Game.M bool)
    (body : S -> Game.M S) (g : Game.t) :
  (forall s, returns_unchanged (cond s) g) ->
  (forall s, cond s g = (Ok true, g) ->
     exists s', body s g = (Ok s', g) /\ (mu s' < mu s)%nat) ->
  forall (fuel : nat) (s : S), (mu s < fuel)%nat ->
    returns_unchanged (Game.whileM fuel cond body s) g.
Proof.
  intros Hcond Hbody. induction fuel as [|n IH]; intros s Hmu; [lia|].
  cbn [Game.whileM]. unfold returns_unchanged, Game.bind.
  destruct (Hcond s) as [b Hb]. rewrite Hb. destruct b.
  - destruct (Hbody s Hb) as (s' & Hs' & Hlt). rewrite Hs'.
    apply IH. lia.
  - exists s. reflexivity.
Qed.

Lemma to_edge_step (d : direction) (r c : Z) :
  In d Game.DIRECTIONS ->
  Game.in_range r && Game.in_range c = true ->
  (to_edge d (r + fst d) (c + snd d) < to_edge d r c)%nat.
Proof.
  intros Hd Hin. unfold to_edge. rewrite Hin.
  apply andb_true_iff in Hin. destruct Hin as [Hr Hc].
  unfold Game.in_range, Game.BOARD_SIZE in *.
  apply andb_true_iff in Hr, Hc.
  destruct Hr as [Hr1 Hr2], Hc as [Hc1 Hc2].
  apply Z.leb_le in Hr1, Hc1. apply Z.ltb_lt in Hr2, Hc2.
  cbn in Hd.
  repeat (destruct Hd as [<-|Hd]; [cbn [fst snd Z.eqb Pos.eqb]|]);
    try contradiction.
  all: destruct ((0 <=? _) && (_ <? 8) && ((0 <=? _) && (_ <? 8))) eqn:E;
    [|lia].
  all: apply andb_true_iff in E; destruct E as [E1 E2];
    apply andb_true_iff in E1, E2;
    destruct E1 as [E1 E1'], E2 as [E2 E2'];
    apply Z.leb_le in E1, E2; apply Z.ltb_lt in E1', E2'; lia.
Qed.

Lemma to_edge_bound (d : direction) (r c : Z) :
  In d Game.DIRECTIONS ->
  Game.in_range r && Game.in_range c = true ->
  (to_edge d (r + fst d) (c + snd d) < 8)%nat.
Proof.
  intros Hd Hin. pose proof (to_edge_step d r c Hd Hin) as H.
  assert (to_edge d r c <= 8)%nat; [|lia].
  unfold to_edge. rewrite Hin.
  apply andb_true_iff in Hin. destruct Hin as [Hr Hc].
  unfold Game.in_range, Game.BOARD_SIZE in *.
  apply andb_true_iff in Hr, Hc.
  destruct Hr as [Hr1 Hr2], Hc as [Hc1 Hc2].
  apply Z.leb_le in Hr1, Hc1. apply Z.ltb_lt in Hr2, Hc2.
  cbn in Hd.
  repeat (destruct Hd as [<-|Hd]; [cbn [fst snd Z.eqb Pos.eqb]; lia|]).
  contradiction.
Qed.

Lemma game_directions_return (n : nat) (g : Game.t) (row col : Z) :
  shape 8 (Game.board g) ->
  Game.in_range row && Game.in_range col = true ->
  returns_unchanged (Game._search_available_directions (8 + n) row col) g.
Proof.
  intros Hs Hin. unfold Game._search_available_directions.
  apply returns_forM. intros d directions Hd.
  apply returns_bind.
  - apply (returns_whileM (fun '(r, c, _) => to_edge d r c)).
    + intros [[r c] count].
      destruct (Game.in_range r && Game.in_range c) eqn:E.
      * apply returns_bind; [apply returns_board_get; assumption|].
        intros x. apply returns_bind; [eexists; reflexivity|].
        intros g'. apply returns_ret.
      * apply returns_ret.
    + intros [[r c] count] Hcond.
      exists (r + fst d, c + snd d, count + 1). split; [reflexivity|].
      apply to_edge_step; [exact Hd|].
      destruct (Game.in_range r && Game.in_range c); [reflexivity|].
      cbn in Hcond. discriminate.
    + pose proof (to_edge_bound d row col Hd Hin). lia.
  - intros [[r c] count]. destruct (count >? 0); [|apply returns_ret].
    destruct (Game.in_range r && Game.in_range c) eqn:E;
      [|apply returns_ret].
    apply returns_bind; [apply returns_board_get; assumption|].
    intros x. apply returns_bind; [eexists; reflexivity|].
    intros g'. destruct (py_eqb x (Game._my_color g')); apply returns_ret.
Qed.

Lemma in_range_of_range (x : Z) :
  In x (Py.range Game.BOARD_SIZE) -> Game.in_range x = true.
Proof.
  intros H. apply In_range in H. unfold Game.in_range.
  apply andb_true_iff. split; [apply Z.leb_le | apply Z.ltb_lt]; lia.
Qed.

Lemma returns_bind_val {A B : Type} (m : Game.M A) (k : A -> Game.M B)
    (g : Game.t) (a : A) :
  m g = (Ok a, g) -> returns_unchanged (k a) g ->
  returns_unchanged (Game.bind m k) g.
Proof.
  intros Ha Hk. unfold returns_unchanged, Game.bind. rewrite Ha. exact Hk.
Qed.

(** The scan of the game engine returns on every 8 x 8 board in a running
    state, with at most eight iterations of each walk, and changes
    nothing. *)
Theorem game_scan_returns (n : nat) (g : Game.t) :
  shape 8 (Game.board g) ->
  is_running (Game._state g) = true ->
  returns_unchanged (Game._search_legal_moves (8 + n)) g.
Proof.
  intros Hs Hrun. unfold Game._search_legal_moves.
  apply (returns_bind_val _ _ g g); [reflexivity|].
  rewrite Hrun. apply returns_bind; [apply returns_ret|]. intros _.
  apply returns_forM. intros row legal_moves Hrow.
  apply returns_forM. intros col legal_moves' Hcol.
  apply in_range_of_range in Hrow, Hcol.
  assert (Hin : Game.in_range row && Game.in_range col = true)
    by (rewrite Hrow, Hcol; reflexivity).
  apply returns_bind; [apply returns_board_get; assumption|].
  intros x. destruct (py_eqb x UNTOUCHED); [|apply returns_ret].
  apply returns_bind; [apply game_directions_return; assumption|].
  intros directions. destruct (Py.len directions >? 0); apply returns_ret.
Qed.

Lemma game_scan_returns_on_opening :
  returns_unchanged (Game._search_legal_moves 8) (started 8 false true).
Proof.
  apply (game_scan_returns 0 (started 8 false true)).
  - split; [reflexivity|]. intros row Hin. cbn in Hin.
    repeat (destruct Hin as [<-|Hin]; [reflexivity|]). contradiction.
  - reflexivity.
Defined.

(** *** What the search returns on this code *)

(** Whenever [_negamax] returns, at any depth and for any window, it
    returns no move, and its score is the static evaluation of the board it
    was given, signed by the side to move: the scan reports no move for
    either side, which the search takes for the end of the game. *)
Theorem negamax_returns_evaluation (fuel : nat) (my_color opponent_color : pyval)
    (board : Board) (depth alpha beta : Z) (is_max : bool)
    (r : option Py.key * Z) :
  ReversiBot._negamax fuel my_color opponent_color board depth alpha beta
    is_max = Ok r ->
  exists e,
    ReversiBot._evaluate fuel my_color opponent_color board = Ok e
    /\ r = (None, (if is_max then 1 else -1) * e).
Proof.
  unfold ReversiBot._negamax.
  destruct (Z.to_nat depth) as [|d]; cbn [ReversiBot.negamax_rec]; intros H.
  - apply rbind_Ok in H. destruct H as (e & He & [= <-]). eauto.
  - apply rbind_Ok in H. destruct H as (lm & Hlm & H).
    apply bot_scan_empty in Hlm. subst lm.
    cbn [Py.len length Z.of_nat Z.eqb] in H.
    apply rbind_Ok in H. destruct H as (olm & Holm & H).
    apply bot_scan_empty in Holm. subst olm.
    cbn [Py.len length Z.of_nat Z.eqb] in H.
    apply rbind_Ok in H. destruct H as (e & He & [= <-]). eauto.
Qed.

Lemma negamax_returns_evaluation_witness :
  exists e,
    ReversiBot._evaluate 8 BLACK WHITE two_captures = Ok e
    /\ (@None Py.key, 10) = (None, 1 * e).
Proof.
  apply (negamax_returns_evaluation 8 BLACK WHITE two_captures 3
           (- ReversiBot.INF) ReversiBot.INF true (None, 10)).
  vm_compute. reflexivity.
Defined.

(** X12: whenever [analyze] returns, it returns [None]: it never proposes a
    move. *)
Theorem analyze_returns_no_move (fuel : nat) (game : Game.t) (depth : Z)
    (move : option Py.key) :
  ReversiBot.analyze fuel game depth = Ok move ->
  move = None
  /\ is_running (Game._state game) = true /\ depth > 0
  /\ exists e,
       ReversiBot._evaluate fuel (Game._my_color game)
         (Game._opponent_color game) (Game.board game) = Ok e.
Proof.
  unfold ReversiBot.analyze.
  destruct (is_running (Game._state game)) eqn:Hrun; cbn [andb];
    [|discriminate].
  destruct (Z.gtb_spec depth 0) as [Hd|Hd]; [|discriminate].
  intros H. apply rbind_Ok in H. destruct H as ([m v] & Hn & [= <-]).
  apply negamax_returns_evaluation in Hn. destruct Hn as (e & He & [= -> _]).
  repeat split; [lia | eauto].
Qed.

Lemma analyze_returns_no_move_witness :
  @None Py.key = None
  /\ is_running RUNNING_BLACK = true /\ 3 > 0
  /\ exists e, ReversiBot._evaluate 8 BLACK WHITE two_captures = Ok e.
Proof.
  apply (analyze_returns_no_move 8
           (Game.mk two_captures RUNNING_BLACK [] BLACK WHITE 0 0 0 0) 3 None).
  vm_compute. reflexivity.
Defined.

(** *** Witnesses of the pruning theorems *)

Lemma pruning_keeps_minimax_move_witness :
  pruned_rec 17 (game_scan 17 BLACK WHITE) (clamped_cell_score BLACK WHITE)
    BLACK WHITE 3 (opening false) (- ReversiBot.INF) ReversiBot.INF true
  = Ok (Some (2, 4), 3).
Proof.
  assert (Hev : forall b v, clamped_cell_score BLACK WHITE b = Ok v ->
            - ReversiBot.INF < v < ReversiBot.INF)
    by (intros b v [= <-]; unfold ReversiBot.INF; lia).
  apply (pruning_keeps_minimax_move 17 (game_scan 17 BLACK WHITE)
           (clamped_cell_score BLACK WHITE) BLACK WHITE Hev).
  vm_compute. reflexivity.
Defined.

Lemma pruned_bound_witness :
  exists m' s,
    pruned_rec 17 (game_scan 17 BLACK WHITE) (clamped_cell_score BLACK WHITE)
      BLACK WHITE 3 (opening false) 5 10 true = Ok (m', s)
    /\ window_bound 5 10 3 s.
Proof.
  apply (pruned_bound 17 (game_scan 17 BLACK WHITE)
           (clamped_cell_score BLACK WHITE) BLACK WHITE 3 (opening false)
           true (Some (2, 4)) 3).
  - vm_compute. reflexivity.
  - unfold ReversiBot.INF. lia.
  - lia.
  - unfold ReversiBot.INF. lia.
Defined.

(** *** When the scan of the search engine returns *)

Lemma for_each_stuck {A S : Type} (p : A -> bool) (l : list A)
    (body : A -> S -> res S) :
  (forall x s, In x l -> body x s = if p x then OutOfFuel else Ok s) ->
  forall s, for_each l body s = if existsb p l then OutOfFuel else Ok s.
Proof.
  induction l as [|x l IH]; intros Hbody s; cbn [for_each existsb].
  - reflexivity.
  - rewrite Hbody by (left; reflexivity).
    destruct (p x); cbn [rbind orb]; [reflexivity|].
    apply IH. intros y t Hy. apply Hbody. right. exact Hy.
Qed.

Lemma walk_test_square (board : Board) (opp : pyval) (r c : Z) :
  square board ->
  walk_test board opp r c
  = Ok ((((0 <=? r) && (r <? Py.len board))
         && ((0 <=? c) && (c <? Py.len board)))
        && py_eqb (cell PyNone board r c) opp).
Proof.
  intros Hsq. unfold walk_test. rewrite in_board_square by exact Hsq.
  cbn [rbind].
  destruct ((0 <=? r) && (r <? Py.len board)) eqn:Hr; cbn [andb];
    [|reflexivity].
  destruct ((0 <=? c) && (c <? Py.len board)) eqn:Hc; [|reflexivity].
  apply andb_true_iff in Hr, Hc.
  destruct Hr as [Hr1 Hr2], Hc as [Hc1 Hc2].
  apply Z.leb_le in Hr1, Hc1. apply Z.ltb_lt in Hr2, Hc2.
  rewrite getitem2_square by (assumption || lia). reflexivity.
Qed.

(** X13: on a square board and with at least one iteration allowed, the scan of
    the search engine returns the empty map unless some empty cell has the
    opponent's color diagonally up and to the left of it, and in that case
    it does not return, however many iterations it is given. *)
Theorem bot_scan_characterised (n : nat) (my_color opponent_color : pyval)
    (board : Board) (is_max : bool) :
  square board ->
  ReversiBot._search_legal_moves (S n) my_color opponent_color board is_max
  = if bot_hangs board (if is_max then opponent_color else my_color)
    then OutOfFuel else Ok [].
Proof.
  intros Hsq. rewrite bot_scan_closed. unfold scan_with, bot_hangs.
  assert (H : forall a b,
    for_each (Py.range (Py.len board)) (fun row legal_moves =>
      rbind (Py.getitem board 0) (fun row0 =>
      for_each (Py.range (Py.len row0)) (fun col legal_moves =>
        rbind (Py.getitem2 board row col) (fun x =>
        if py_eqb x UNTOUCHED then
          rbind (directions_closed board a b row col) (fun directions =>
          match directions with
          | None => Raise TypeError
          | Some directions =>
              if Py.len directions >? 0 then
                Ok (Py.dict_set legal_moves (row, col) directions)
              else Ok legal_moves
          end)
        else Ok legal_moves)) legal_moves)) []
    = if existsb (fun row =>
           existsb (fun col =>
             py_eqb (cell PyNone board row col) UNTOUCHED
             && (((0 <=? row + -1) && (row + -1 <? Py.len board))
                 && ((0 <=? col + -1) && (col + -1 <? Py.len board)))
             && py_eqb (cell PyNone board (row + -1) (col + -1)) b)
             (Py.range (Py.len board))) (Py.range (Py.len board))
      then OutOfFuel else Ok []).
  { intros a b. apply for_each_stuck. intros row s Hrow.
    apply In_range in Hrow.
    assert (H0 : 0 <= 0 < Py.len board) by lia.
    rewrite (getitem_in_range board 0 []) by exact H0. cbn [rbind].
    rewrite (square_row board);
      [| exact Hsq | apply nth_In; unfold Py.len in H0; lia].
    apply for_each_stuck. intros col s' Hcol. apply In_range in Hcol.
    rewrite getitem2_square by assumption. cbn [rbind].
    fold (cell PyNone board row col).
    destruct (py_eqb (cell PyNone board row col) UNTOUCHED); cbn [andb];
      [|reflexivity].
    unfold directions_closed. rewrite walk_test_square by exact Hsq.
    destruct ((0 <=? row + -1) && (row + -1 <? Py.len board)
              && ((0 <=? col + -1) && (col + -1 <? Py.len board)));
      cbn [andb]; [|reflexivity].
    destruct (py_eqb (cell PyNone board (row + -1) (col + -1)) b);
      reflexivity. }
  destruct is_max; apply H.
Qed.

Lemma bot_scan_characterised_witness :
  ReversiBot._search_legal_moves 1 BLACK WHITE one_capture true = Ok []
  /\ ReversiBot._search_legal_moves 1 BLACK WHITE (opening false) true
     = OutOfFuel.
Proof.
  split.
  - apply (bot_scan_characterised 0 BLACK WHITE one_capture true).
    apply squareb_square. vm_compute. reflexivity.
  - apply (bot_scan_characterised 0 BLACK WHITE (opening false) true).
    apply squareb_square. vm_compute. reflexivity.
Defined.

(** *** Python lists: reading back what was stored *)

Lemma index_lt (n i : Z) (k : nat) :
  Py.index n i = Some k -> (Z.of_nat k < n).
Proof.
  unfold Py.index.
  destruct ((0 <=? i) && (i <? n)) eqn:E1.
  - apply andb_true_iff in E1. destruct E1 as [H1 H2].
    apply Z.leb_le in H1. apply Z.ltb_lt in H2. intros [= <-]. lia.
  - destruct ((- n <=? i) && (i <? 0)) eqn:E2; [|discriminate].
    apply andb_true_iff in E2. destruct E2 as [H1 H2].
    apply Z.leb_le in H1. apply Z.ltb_lt in H2. intros [= <-]. lia.
Qed.

Lemma nth_error_update {A : Type} (l : list A) (k : nat) (v : A) :
  (k < length l)%nat -> nth_error (Py.update l k v) k = Some v.
Proof.
  revert k. induction l as [|x l IH]; intros [|k] H; cbn in *; try lia.
  - reflexivity.
  - apply IH. lia.
Qed.

Lemma getitem_setitem {A : Type} (l l' : list A) (i : Z) (v : A) :
  Py.setitem l i v = Ok l' -> Py.getitem l' i = Ok v.
Proof.
  unfold Py.setitem, Py.getitem.
  destruct (Py.index (Py.len l) i) as [k|] eqn:Hk; [|discriminate].
  intros [= <-]. unfold Py.len in *. rewrite length_update, Hk.
  apply index_lt in Hk. rewrite nth_error_update by lia. reflexivity.
Qed.

Lemma setitem_of_getitem {A : Type} (l : list A) (i : Z) (x v : A) :
  Py.getitem l i = Ok x -> exists l', Py.setitem l i v = Ok l'.
Proof.
  unfold Py.setitem, Py.getitem.
  destruct (Py.index (Py.len l) i) as [k|]; [|discriminate].
  eauto.
Qed.

(** Storing at [m[r][c]] succeeds wherever reading succeeds, for negative
    indices too, and the stored value is read back. *)
Lemma setitem2_of_getitem2 {A : Type} (m : list (list A)) (r c : Z)
    (x v : A) :
  Py.getitem2 m r c = Ok x ->
  exists m', Py.setitem2 m r c v = Ok m' /\ Py.getitem2 m' r c = Ok v.
Proof.
  unfold Py.getitem2, Py.setitem2. intros H.
  apply rbind_Ok in H. destruct H as (row & Hrow & Hx).
  rewrite Hrow. cbn [rbind].
  destruct (setitem_of_getitem row c x v Hx) as (row' & Hrow').
  rewrite Hrow'. cbn [rbind].
  destruct (setitem_of_getitem m r row row' Hrow) as (m' & Hm').
  exists m'. split; [exact Hm'|].
  rewrite (getitem_setitem m m' r row' Hm'). cbn [rbind].
  apply (getitem_setitem row row' c v Hrow').
Qed.

(** *** The simulated move of the search engine *)

Lemma bot_flip_loop (n : nat) (my opp : pyval) (r c : Z) (nb : Board) :
  my <> opp ->
  while (S (S n))
    (fun new_board =>
       rbind (Py.getitem2 new_board r c) (fun x => Ok (py_eqb x opp)))
    (fun new_board => Py.setitem2 new_board r c my) nb
  = flip_adjacent my opp r c nb.
Proof.
  intros Hne. unfold flip_adjacent. cbn [while].
  destruct (Py.getitem2 nb r c) as [x| |] eqn:Hx; cbn [rbind];
    try reflexivity.
  destruct (py_eqb x opp); [|reflexivity].
  destruct (setitem2_of_getitem2 nb r c x my Hx) as (nb' & Hset & Hget).
  rewrite Hset. cbn [rbind]. rewrite Hget. cbn [rbind].
  rewrite (py_eqb_neq my opp Hne). reflexivity.
Qed.

(** X14: for two distinct colors and at least two iterations allowed, the move
    the search engine makes on its copy of the board stores the mover's
    color at the cell and then, for each recorded direction, turns the one
    cell next to it if it holds the opponent's color: no cell further along
    the direction is ever written. *)
Theorem make_move_flips_adjacent (n : nat) (board : Board)
    (my_color opponent_color : pyval) (row col : Z)
    (directions : list direction) :
  my_color <> opponent_color ->
  ReversiBot.make_move (2 + n) board my_color opponent_color (row, col)
    directions
  = rbind (Py.setitem2 board row col my_color)
      (for_each directions (fun d new_board =>
         flip_adjacent my_color opponent_color (row + fst d) (col + snd d)
           new_board)).
Proof.
  intros Hne. unfold ReversiBot.make_move.
  destruct (Py.setitem2 board row col my_color) as [nb| |]; cbn [rbind];
    try reflexivity.
  apply for_each_ext. intros d nb'. apply bot_flip_loop. exact Hne.
Qed.

Lemma make_move_flips_adjacent_witness :
  ReversiBot.make_move 2 two_captures BLACK WHITE (7, 0) [(0, 1)]
  = rbind (Py.setitem2 two_captures 7 0 BLACK)
      (for_each [(0, 1)] (fun d new_board =>
         flip_adjacent BLACK WHITE (7 + fst d) (0 + snd d) new_board)).
Proof.
  apply (make_move_flips_adjacent 0 two_captures BLACK WHITE 7 0 [(0, 1)]).
  discriminate.
Defined.

(** *** The range of the static evaluation *)

Lemma sum_over_abs (l : list Z) (f g : Z -> Z) :
  (forall i, Z.abs (f i) <= g i) -> Z.abs (sum_over l f) <= sum_over l g.
Proof.
  intros H. induction l as [|i l IH]; cbn [sum_over fold_right].
  - lia.
  - unfold sum_over in IH. pose proof (H i). lia.
Qed.

Lemma cell_value_abs (my opp : pyval) (w : Z) (x : pyval) :
  Z.abs (cell_value my opp w x) <= Z.abs w.
Proof.
  unfold cell_value. destruct (py_eqb x my); [lia|].
  destruct (py_eqb x opp); lia.
Qed.

Lemma shape_square (board : Board) (n : nat) :
  shape n board -> square board /\ length board = n.
Proof.
  intros [Hlen Hrows]. split; [|exact Hlen].
  apply Forall_forall. intros row Hin. rewrite Hlen. apply Hrows. exact Hin.
Qed.

(** X15: on an 8 x 8 board the static evaluation, whenever it returns, is at
    most 776 in absolute value (676, the sum of the absolute weights, for
    the cell score and 100 for the freedom score): the bound [INF] of the
    search is never reached. *)
Theorem evaluation_in_range (fuel : nat) (my_color opponent_color : pyval)
    (board : Board) (v : Z) :
  shape 8 board ->
  ReversiBot._evaluate fuel my_color opponent_color board = Ok v ->
  Z.abs v <= 776 /\ - ReversiBot.INF < v < ReversiBot.INF.
Proof.
  intros Hs H. apply shape_square in Hs. destruct Hs as [Hsq Hlen].
  assert (Hv : Z.abs v <= 776); [|unfold ReversiBot.INF; lia].
  unfold ReversiBot._evaluate in H.
  destruct (weights_filled (length board)) as (w & Hw & Hfilled).
  change (Z.of_nat (length board)) with (Py.len board) in Hw, Hfilled.
  rewrite Hw in H. cbn [rbind] in H.
  rewrite cell_score_sum in H by assumption. cbn [rbind] in H.
  apply rbind_Ok in H. destruct H as (om & _ & H).
  apply rbind_Ok in H. destruct H as (mm & _ & [= <-]).
  assert (Hfree : Z.abs (ReversiBot.freedom om mm) <= 100).
  { unfold ReversiBot.freedom.
    destruct (Py.len om =? 0), (Py.len mm =? 0); lia. }
  assert (Hcells : Z.abs (cell_sum ReversiBot.weight_at my_color
                            opponent_color board) <= 676); [|lia].
  unfold cell_sum, Py.len. rewrite Hlen.
  etransitivity.
  - apply (sum_over_abs _ _ (fun r =>
      sum_over (Py.range 8) (fun c => Z.abs (ReversiBot.weight_at 8 r c)))).
    intros r. apply sum_over_abs. intros c. apply cell_value_abs.
  - vm_compute. discriminate.
Qed.

Lemma evaluation_in_range_witness :
  Z.abs 10 <= 776 /\ - ReversiBot.INF < 10 < ReversiBot.INF.
Proof.
  apply (evaluation_in_range 8 BLACK WHITE two_captures 10).
  - split; [reflexivity|]. intros row Hin. cbn in Hin.
    repeat (destruct Hin as [<-|Hin]; [reflexivity|]). contradiction.
  - vm_compute. reflexivity.
Defined.

(** *** Counting the board *)

Lemma add3_assoc (a b c : Z * Z * Z) : add3 (add3 a b) c = add3 a (add3 b c).
Proof.
  destruct a as [[a1 a2] a3], b as [[b1 b2] b3], c as [[c1 c2] c3].
  cbn. f_equal; [f_equal|]; lia.
Qed.

Lemma add3_zero (a : Z * Z * Z) : add3 a (0, 0, 0) = a.
Proof. destruct a as [[a1 a2] a3]. cbn. f_equal; [f_equal|]; lia. Qed.

(** A loop over the object that only reads it and adds to three
    counters. *)
Lemma forM_sum3 {A : Type} (g : Game.t) (l : list A) (f : A -> Z * Z * Z)
    (body : A -> Z * Z * Z -> Game.M (Z * Z * Z)) :
  (forall x acc, In x l -> body x acc g = (Ok (add3 acc (f x)), g)) ->
  forall acc, Game.forM l body acc g = (Ok (add3 acc (sum3 l f)), g).
Proof.
  induction l as [|x l IH]; intros Hbody acc; cbn [Game.forM].
  - change (sum3 [] f) with (0, 0, 0). rewrite add3_zero. reflexivity.
  - unfold Game.bind. rewrite Hbody by (left; reflexivity).
    rewrite IH by (intros y a Hy; apply Hbody; right; exact Hy).
    rewrite add3_assoc. reflexivity.
Qed.

Lemma board_get_shape (g : Game.t) (r c : Z) :
  shape 8 (Game.board g) -> 0 <= r < 8 -> 0 <= c < 8 ->
  Game.board_get r c g = (Ok (cell PyNone (Game.board g) r c), g).
Proof.
  intros Hs Hr Hc. unfold Game.board_get, Game.bind, Game.get, Game.lift.
  rewrite (getitem2_shape PyNone 8) by (assumption || lia). reflexivity.
Qed.

Lemma sum3_cons {A : Type} (x : A) (l : list A) (f : A -> Z * Z * Z) :
  sum3 (x :: l) f = add3 (f x) (sum3 l f).
Proof. reflexivity. Qed.

Lemma sum3_ext_in {A : Type} (l : list A) (f h : A -> Z * Z * Z) :
  (forall x, In x l -> f x = h x) -> sum3 l f = sum3 l h.
Proof.
  induction l as [|x l IH]; intros H; [reflexivity|].
  rewrite !sum3_cons. rewrite H by (left; reflexivity).
  rewrite IH by (intros y Hy; apply H; right; exact Hy). reflexivity.
Qed.

(** A sum over the indices of a list is the sum over its elements. *)
Lemma sum3_nth {A : Type} (f : A -> Z * Z * Z) (d : A) (l : list A) :
  forall a : nat,
    sum3 (map Z.of_nat (seq a (length l)))
      (fun i => f (nth (Z.to_nat i - a) l d))
    = sum3 l f.
Proof.
  induction l as [|x l IH]; intros a; cbn [length seq map].
  - reflexivity.
  - rewrite !sum3_cons. rewrite Nat2Z.id, Nat.sub_diag. cbn [nth]. f_equal.
    rewrite <- (IH (S a)). apply sum3_ext_in.
    intros i Hi. apply in_map_iff in Hi. destruct Hi as (k & <- & Hk).
    apply in_seq in Hk. rewrite Nat2Z.id.
    replace (k - a)%nat with (S (k - S a)) by lia. reflexivity.
Qed.

Lemma sum3_range {A : Type} (f : A -> Z * Z * Z) (d : A) (l : list A) :
  sum3 (Py.range (Py.len l)) (fun i => f (nth (Z.to_nat i) l d)) = sum3 l f.
Proof.
  unfold Py.len. rewrite range_of_nat. rewrite <- (sum3_nth f d l 0).
  apply sum3_ext_in. intros i _. rewrite Nat.sub_0_r. reflexivity.
Qed.

Lemma sum3_concat {A : Type} (f : A -> Z * Z * Z) (m : list (list A)) :
  sum3 m (fun row => sum3 row f) = sum3 (concat m) f.
Proof.
  induction m as [|row m IH]; [reflexivity|].
  rewrite sum3_cons, IH. cbn [concat]. clear IH.
  induction row as [|x row IHr]; cbn [app].
  - destruct (sum3 (concat m) f) as [[a b] c]. reflexivity.
  - rewrite !sum3_cons, <- IHr. apply add3_assoc.
Qed.

Lemma sum3_indicators (l : list pyval) :
  sum3 l (fun x => (b2z (py_eqb x WHITE), b2z (py_eqb x BLACK),
                    b2z (py_eqb x UNTOUCHED)))
  = (Z.of_nat (length (filter (fun x => py_eqb x WHITE) l)),
     Z.of_nat (length (filter (fun x => py_eqb x BLACK) l)),
     Z.of_nat (length (filter (fun x => py_eqb x UNTOUCHED) l))).
Proof.
  induction l as [|x l IH]; [reflexivity|].
  rewrite sum3_cons, IH. cbn [filter].
  destruct x as [|[]]; cbn [py_eqb COLOR_eqb b2z add3 length];
    f_equal; try f_equal; lia.
Qed.

Lemma count_board_closed (g : Game.t) :
  shape 8 (Game.board g) ->
  Game._count_board g
  = (Ok tt,
     Game.with_counts (count_cells UNTOUCHED (Game.board g))
       (count_cells WHITE (Game.board g)) (count_cells BLACK (Game.board g))
       g).
Proof.
  intros Hs. unfold Game._count_board, Game.bind.
  set (f3 := fun x : pyval =>
               (b2z (py_eqb x WHITE), b2z (py_eqb x BLACK),
                b2z (py_eqb x UNTOUCHED))).
  rewrite (forM_sum3 g (Py.range Game.BOARD_SIZE)
             (fun row => sum3 (Py.range Game.BOARD_SIZE)
                (fun col => f3 (cell PyNone (Game.board g) row col)))).
  - assert (Hsum :
      sum3 (Py.range Game.BOARD_SIZE)
        (fun row => sum3 (Py.range Game.BOARD_SIZE)
           (fun col => f3 (cell PyNone (Game.board g) row col)))
      = sum3 (concat (Game.board g)) f3).
    { rewrite <- sum3_concat.
      destruct Hs as [Hlen Hrows].
      replace Game.BOARD_SIZE with (Py.len (Game.board g))
        by (unfold Py.len; rewrite Hlen; reflexivity).
      rewrite <- (sum3_range (fun row => sum3 row f3) []).
      apply sum3_ext_in. intros r Hr. apply In_range in Hr.
      unfold cell.
      replace (Py.len (Game.board g))
        with (Py.len (nth (Z.to_nat r) (Game.board g) [])).
      - apply (sum3_range f3 PyNone).
      - unfold Py.len in *. rewrite Hlen.
        rewrite Hrows; [reflexivity | apply nth_In; lia]. }
    rewrite Hsum. unfold f3. rewrite sum3_indicators. reflexivity.
  - intros row acc Hrow. apply In_range in Hrow.
    apply forM_sum3. intros col [[w b] r] Hcol. apply In_range in Hcol.
    unfold Game.bind, Game.BOARD_SIZE in *.
    repeat (rewrite (board_get_shape g row col Hs Hrow Hcol); cbn beta iota).
    reflexivity.
Qed.

(** X6: on an 8 x 8 board [_count_board] returns, writes only the three
    counters, and each counter is the number of cells of its kind. *)
Theorem count_board_counts (g : Game.t) :
  shape 8 (Game.board g) ->
  Game._count_board g
  = (Ok tt,
     Game.with_counts (count_cells UNTOUCHED (Game.board g))
       (count_cells WHITE (Game.board g)) (count_cells BLACK (Game.board g))
       g).
Proof. exact (count_board_closed g). Qed.

Lemma count_board_counts_witness :
  Game._count_board (started 8 false true)
  = (Ok tt,
     Game.with_counts (count_cells UNTOUCHED (opening false))
       (count_cells WHITE (opening false)) (count_cells BLACK (opening false))
       (started 8 false true)).
Proof.
  apply (count_board_counts (started 8 false true)).
  split; [reflexivity|]. intros row Hin. cbn in Hin.
  repeat (destruct Hin as [<-|Hin]; [reflexivity|]). contradiction.
Defined.

Lemma count_cells_partition (l : list pyval) :
  Forall (fun x => x <> PyNone) l ->
  Z.of_nat (length (filter (fun x => py_eqb x UNTOUCHED) l))
  + Z.of_nat (length (filter (fun x => py_eqb x WHITE) l))
  + Z.of_nat (length (filter (fun x => py_eqb x BLACK) l))
  = Z.of_nat (length l).
Proof.
  induction 1 as [|x l Hx _ IH]; cbn [filter length]; [reflexivity|].
  destruct x as [|[]]; [congruence| | |]; cbn [py_eqb COLOR_eqb length]; lia.
Qed.

Lemma length_concat_shape {A : Type} (n : nat) (m : list (list A)) :
  shape n m -> length (concat m) = (n * n)%nat.
Proof.
  intros [Hlen Hrows]. rewrite <- Hlen at 1. clear Hlen.
  induction m as [|row m IH]; [reflexivity|].
  cbn [concat length]. rewrite length_app.
  rewrite (Hrows row) by (left; reflexivity).
  rewrite IH by (intros r Hr; apply Hrows; right; exact Hr). lia.
Qed.

Lemma count_cells_total (board : Board) :
  shape 8 board ->
  Forall (fun x => x <> PyNone) (concat board) ->
  count_cells UNTOUCHED board + count_cells WHITE board
  + count_cells BLACK board = 64.
Proof.
  intros Hs Hcolors. unfold count_cells.
  rewrite (count_cells_partition _ Hcolors).
  rewrite (length_concat_shape 8 board Hs). reflexivity.
Qed.

(** X7: on an 8 x 8 board all of whose cells hold a color, [_count_board]
    returns, and the three counters it stores in the object add up to
    64. *)
Theorem counts_add_up (g : Game.t) :
  shape 8 (Game.board g) ->
  Forall (fun x => x <> PyNone) (concat (Game.board g)) ->
  exists g',
    Game._count_board g = (Ok tt, g')
    /\ Game._remain g' + Game._white_count g' + Game._black_count g' = 64.
Proof.
  intros Hs Hcolors. rewrite (count_board_closed g Hs).
  eexists. split; [reflexivity|].
  cbn [Game._remain Game._white_count Game._black_count Game.with_counts].
  apply count_cells_total; assumption.
Qed.

Lemma counts_add_up_witness :
  exists g',
    Game._count_board (started 8 false true) = (Ok tt, g')
    /\ Game._remain g' + Game._white_count g' + Game._black_count g' = 64.
Proof.
  apply (counts_add_up (started 8 false true)).
  - split; [reflexivity|]. intros row Hin. cbn in Hin.
    repeat (destruct Hin as [<-|Hin]; [reflexivity|]). contradiction.
  - vm_compute. repeat constructor; discriminate.
Defined.

(** *** Methods that only read *)

Lemma readonly_ret {A : Type} (a : A) : readonly (Game.ret a).
Proof. intros g. reflexivity. Qed.

Lemma readonly_bind {A B : Type} (m : Game.M A) (k : A -> Game.M B) :
  readonly m -> (forall a, readonly (k a)) -> readonly (Game.bind m k).
Proof.
  intros Hm Hk g. unfold Game.bind. specialize (Hm g).
  destruct (m g) as [[a|e|] g1]; cbn [snd] in *; subst g1;
    [apply Hk | reflexivity | reflexivity].
Qed.

Lemma readonly_forM {A S : Type} (l : list A) (body : A -> S -> Game.M S) :
  (forall x s, readonly (body x s)) -> forall s, readonly (Game.forM l body s).
Proof.
  intros Hbody. induction l as [|x l IH]; intros s; cbn [Game.forM].
  - apply readonly_ret.
  - apply readonly_bind; [apply Hbody | exact IH].
Qed.

Lemma readonly_whileM {S : Type} (cond : S -> Game.M bool)
    (body : S -> Game.M S) :
  (forall s, readonly (cond s)) -> (forall s, readonly (body s)) ->
  forall (fuel : nat) (s : S), readonly (Game.whileM fuel cond body s).
Proof.
  intros Hcond Hbody. induction fuel as [|n IH]; intros s; cbn [Game.whileM].
  - intros g. reflexivity.
  - apply readonly_bind; [apply Hcond|]. intros [|]; [|apply readonly_ret].
    apply readonly_bind; [apply Hbody | exact IH].
Qed.

Lemma readonly_board_get (r c : Z) : readonly (Game.board_get r c).
Proof. intros g. reflexivity. Qed.

Lemma readonly_get : readonly Game.get.
Proof. intros g. reflexivity. Qed.

Lemma readonly_assert (b : bool) : readonly (Game.assert b).
Proof. intros g. destruct b; reflexivity. Qed.

Lemma readonly_directions (fuel : nat) (row col : Z) :
  readonly (Game._search_available_directions fuel row col).
Proof.
  unfold Game._search_available_directions.
  apply readonly_forM. intros d directions. apply readonly_bind.
  - apply readonly_whileM.
    + intros [[r c] count].
      destruct (Game.in_range r && Game.in_range c); [|apply readonly_ret].
      apply readonly_bind; [apply readonly_board_get|]. intros x.
      apply readonly_bind; [apply readonly_get|]. intros g.
      apply readonly_ret.
    + intros [[r c] count]. apply readonly_ret.
  - intros [[r c] count]. destruct (count >? 0); [|apply readonly_ret].
    destruct (Game.in_range r && Game.in_range c); [|apply readonly_ret].
    apply readonly_bind; [apply readonly_board_get|]. intros x.
    apply readonly_bind; [apply readonly_get|]. intros g.
    destruct (py_eqb x (Game._my_color g)); apply readonly_ret.
Qed.

Lemma readonly_scan (fuel : nat) : readonly (Game._search_legal_moves fuel).
Proof.
  unfold Game._search_legal_moves.
  apply readonly_bind; [apply readonly_get|]. intros g.
  apply readonly_bind; [apply readonly_assert|]. intros _.
  apply readonly_forM. intros row legal_moves.
  apply readonly_forM. intros col legal_moves'.
  apply readonly_bind; [apply readonly_board_get|]. intros x.
  destruct (py_eqb x UNTOUCHED); [|apply readonly_ret].
  apply readonly_bind; [apply readonly_directions|]. intros directions.
  destruct (Py.len directions >? 0); apply readonly_ret.
Qed.

(** X2: the legality scan of the game engine never changes the object, whatever
    the board, the state and the bound on its loops, also when its assertion
    fails or a loop does not finish. *)
Theorem game_scan_readonly (fuel : nat) (g : Game.t) :
  snd (Game._search_legal_moves fuel g) = g.
Proof. exact (readonly_scan fuel g). Qed.

(** *** Properties the methods keep *)

Lemma preserves_readonly {A : Type} (P : Game.t -> Prop) (m : Game.M A) :
  readonly m -> preserves P m.
Proof. intros H g Hg. rewrite H. exact Hg. Qed.

Lemma preserves_ret {A : Type} (P : Game.t -> Prop) (a : A) :
  preserves P (Game.ret a).
Proof. intros g Hg. exact Hg. Qed.

Lemma preserves_bind {A B : Type} (P : Game.t -> Prop) (m : Game.M A)
    (k : A -> Game.M B) :
  preserves P m -> (forall a, preserves P (k a)) ->
  preserves P (Game.bind m k).
Proof.
  intros Hm Hk g Hg. unfold Game.bind. specialize (Hm g Hg).
  destruct (m g) as [[a|e|] g1]; cbn [snd] in *;
    [apply Hk; exact Hm | exact Hm | exact Hm].
Qed.

(** Binding the object itself: the rest runs from the object it reads. *)
Lemma preserves_bind_get {B : Type} (P : Game.t -> Prop)
    (k : Game.t -> Game.M B) :
  (forall g, P g -> P (snd (k g g))) -> preserves P (Game.bind Game.get k).
Proof. intros H g Hg. apply H. exact Hg. Qed.

Lemma preserves_forM {A S : Type} (P : Game.t -> Prop) (l : list A)
    (body : A -> S -> Game.M S) :
  (forall x s, preserves P (body x s)) ->
  forall s, preserves P (Game.forM l body s).
Proof.
  intros Hbody. induction l as [|x l IH]; intros s; cbn [Game.forM].
  - apply preserves_ret.
  - apply preserves_bind; [apply Hbody | exact IH].
Qed.

Lemma preserves_whileM {S : Type} (P : Game.t -> Prop)
    (cond : S -> Game.M bool) (body : S -> Game.M S) :
  (forall s, preserves P (cond s)) -> (forall s, preserves P (body s)) ->
  forall (fuel : nat) (s : S), preserves P (Game.whileM fuel cond body s).
Proof.
  intros Hcond Hbody. induction fuel as [|n IH]; intros s; cbn [Game.whileM].
  - intros g Hg. exact Hg.
  - apply preserves_bind; [apply Hcond|]. intros [|]; [|apply preserves_ret].
    apply preserves_bind; [apply Hbody | exact IH].
Qed.

Lemma preserves_try_except {A : Type} (P : Game.t -> Prop) (m h : Game.M A)
    (e : exn) :
  preserves P m -> preserves P h -> preserves P (Game.try_except m e h).
Proof.
  intros Hm Hh g Hg. unfold Game.try_except. specialize (Hm g Hg).
  destruct (m g) as [[a|e'|] g1]; cbn [snd] in *; try exact Hm.
  destruct (Game.exn_eqb e e'); [apply Hh; exact Hm | exact Hm].
Qed.

Lemma preserves_modify (P : Game.t -> Prop) (f : Game.t -> Game.t) :
  (forall g, P g -> P (f g)) -> preserves P (Game.modify f).
Proof. intros H g Hg. apply H. exact Hg. Qed.

(** A property of the object that only looks at the board and is kept by
    storing the value [v]. *)
Lemma preserves_board_set (P : Game.t -> Prop) (Q : Board -> Prop)
    (r c : Z) (v : pyval) :
  (forall g b, P g -> Q b -> P (Game.with_board b g)) ->
  (forall g, P g -> Q (Game.board g)) ->
  (forall b b', Q b -> Py.setitem2 b r c v = Ok b' -> Q b') ->
  preserves P (Game.board_set r c v).
Proof.
  intros Hwith Hboard Hset g Hg.
  unfold Game.board_set, Game.bind, Game.get, Game.lift, Game.modify.
  destruct (Py.setitem2 (Game.board g) r c v) as [b'| |] eqn:Hb;
    cbn [snd]; try exact Hg.
  apply Hwith; [exact Hg|]. eapply Hset; [apply Hboard; exact Hg | exact Hb].
Qed.

Lemma ensures_bind {A B : Type} (P R Q : Game.t -> Prop) (m : Game.M A)
    (k : A -> Game.M B) :
  ensures P m R -> (forall g, R g -> Q g) ->
  (forall a, ensures R (k a) Q) ->
  ensures P (Game.bind m k) Q.
Proof.
  intros Hm HRQ Hk g Hg. unfold Game.bind. specialize (Hm g Hg).
  destruct (m g) as [[a|e|] g1]; cbn [snd] in *;
    [apply Hk; exact Hm | apply HRQ; exact Hm | apply HRQ; exact Hm].
Qed.

Lemma setitem_update {A : Type} (l l' : list A) (i : Z) (v : A) :
  Py.setitem l i v = Ok l' -> exists k, l' = Py.update l k v.
Proof.
  unfold Py.setitem. destruct (Py.index (Py.len l) i) as [k|]; [|discriminate].
  intros [= <-]. eauto.
Qed.

Lemma setitem2_rows {A : Type} (m m' : list (list A)) (r c : Z) (v : A) :
  Py.setitem2 m r c v = Ok m' ->
  length m' = length m
  /\ forall row', In row' m' ->
       In row' m
       \/ exists row, In row m /\ length row' = length row
                      /\ forall x, In x row' -> x = v \/ In x row.
Proof.
  unfold Py.setitem2. intros H.
  apply rbind_Ok in H. destruct H as (row & Hrow & H).
  apply rbind_Ok in H. destruct H as (row1 & Hrow1 & H).
  apply setitem_update in Hrow1. destruct Hrow1 as (kc & ->).
  apply setitem_update in H. destruct H as (kr & ->).
  apply getitem_In in Hrow. split; [apply length_update|].
  intros row' Hin. apply In_update in Hin. destruct Hin as [->|Hin].
  - right. exists row. split; [exact Hrow|]. split; [apply length_update|].
    intros x Hx. apply In_update in Hx. exact Hx.
  - left. exact Hin.
Qed.

Lemma setitem2_keeps_shape {A : Type} (n : nat) (m m' : list (list A))
    (r c : Z) (v : A) :
  shape n m -> Py.setitem2 m r c v = Ok m' -> shape n m'.
Proof.
  intros [Hlen Hrows] H. apply setitem2_rows in H. destruct H as [Hlen' H].
  split; [lia|]. intros row' Hin.
  destruct (H row' Hin) as [Hold|(row & Hrow & Hl & _)].
  - apply Hrows. exact Hold.
  - rewrite Hl. apply Hrows. exact Hrow.
Qed.

Lemma setitem2_keeps_colors (m m' : Board) (r c : Z) (v : pyval) :
  Forall (Forall (fun x => x <> PyNone)) m -> v <> PyNone ->
  Py.setitem2 m r c v = Ok m' ->
  Forall (Forall (fun x => x <> PyNone)) m'.
Proof.
  intros Hm Hv H. apply setitem2_rows in H. destruct H as [_ H].
  rewrite Forall_forall in *. intros row' Hin.
  destruct (H row' Hin) as [Hold|(row & Hrow & _ & Hx)].
  - apply Hm. exact Hold.
  - apply Forall_forall. intros x Hin'. destruct (Hx x Hin') as [->|Hold].
    + exact Hv.
    + specialize (Hm row Hrow). rewrite Forall_forall in Hm. apply Hm.
      exact Hold.
Qed.

(** Storing a color keeps the object well formed. *)
Lemma board_set_well_formed (r c : Z) (v : pyval) :
  v <> PyNone -> preserves well_formed (Game.board_set r c v).
Proof.
  intros Hv.
  apply (preserves_board_set well_formed
           (fun b => shape 8 b /\ Forall (Forall (fun x => x <> PyNone)) b)).
  - intros g b (_ & Hcol & _ & Hmap) [Hs Hc].
    split; [exact Hs|]. split; [exact Hcol|]. split; [exact Hc|exact Hmap].
  - intros g (Hs & _ & Hc & _). split; [exact Hs|exact Hc].
  - intros b b' [Hs Hc] H. split.
    + eapply setitem2_keeps_shape; eassumption.
    + eapply setitem2_keeps_colors; eassumption.
Qed.

Lemma board_set_well_formed_set (r c : Z) (v : pyval) :
  v <> PyNone -> preserves well_formed_set (Game.board_set r c v).
Proof.
  intros Hv g [Hwf Hmy]. split.
  - apply board_set_well_formed; assumption.
  - unfold Game.board_set, Game.bind, Game.get, Game.lift, Game.modify.
    destruct (Py.setitem2 (Game.board g) r c v); exact Hmy.
Qed.

(** Assigning the property [state]. *)
Lemma set_state_well_formed (value : GAMESTATE) :
  preserves well_formed (Game.set_state value).
Proof.
  intros g (Hs & Hcol & Hc & Hmap).
  destruct value; (split; [exact Hs|]; split; [|split; [exact Hc|]]);
    cbn; try exact I; try exact Hmap; try (split; reflexivity);
    intros H; discriminate H.
Qed.

Lemma set_state_running (value : GAMESTATE) :
  is_running value = true ->
  ensures well_formed (Game.set_state value) well_formed_set.
Proof.
  intros Hrun g Hg. split; [apply set_state_well_formed; exact Hg|].
  destruct value; try discriminate; cbn; discriminate.
Qed.

Lemma set_state_well_formed_set (value : GAMESTATE) :
  preserves well_formed_set (Game.set_state value).
Proof.
  intros g [Hwf Hmy]. split; [apply set_state_well_formed; exact Hwf|].
  destruct value; cbn; try exact Hmy; discriminate.
Qed.

Lemma readonly_count_loop :
  forall acc, readonly
    (Game.forM (Py.range Game.BOARD_SIZE) (fun row acc =>
       Game.forM (Py.range Game.BOARD_SIZE)
         (fun col '(white, black, remain) =>
            Game.bind (Game.board_get row col) (fun x =>
            let white := white + b2z (py_eqb x WHITE) in
            Game.bind (Game.board_get row col) (fun y =>
            let black := black + b2z (py_eqb y BLACK) in
            Game.bind (Game.board_get row col) (fun z =>
            let remain := remain + b2z (py_eqb z UNTOUCHED) in
            Game.ret (white, black, remain))))) acc) acc).
Proof.
  apply readonly_forM. intros row acc. apply readonly_forM.
  intros col [[w b] r].
  repeat (apply readonly_bind; [apply readonly_board_get | intros ?]).
  apply readonly_ret.
Qed.

(** A property that does not look at the three counters is kept by
    [_count_board]. *)
Lemma count_board_preserves (P : Game.t -> Prop) :
  (forall g r w b, P g -> P (Game.with_counts r w b g)) ->
  preserves P Game._count_board.
Proof.
  intros HP. unfold Game._count_board. apply preserves_bind.
  - apply preserves_readonly. apply readonly_count_loop.
  - intros [[w b] r]. apply preserves_modify. intros g. apply HP.
Qed.

Lemma end_well_formed_set : preserves well_formed_set Game._end.
Proof.
  unfold Game._end. apply preserves_bind;
    [apply preserves_readonly, readonly_get|].
  intros g.
  destruct (Game._white_count g =? Game._black_count g);
    [apply set_state_well_formed_set|].
  destruct (Game._white_count g >? Game._black_count g);
    apply set_state_well_formed_set.
Qed.

Lemma end_well_formed : preserves well_formed Game._end.
Proof.
  unfold Game._end. apply preserves_bind;
    [apply preserves_readonly, readonly_get|].
  intros g.
  destruct (Game._white_count g =? Game._black_count g);
    [apply set_state_well_formed|].
  destruct (Game._white_count g >? Game._black_count g);
    apply set_state_well_formed.
Qed.

Lemma well_formed_set_weaken (g : Game.t) : well_formed_set g -> well_formed g.
Proof. intros [H _]. exact H. Qed.

Lemma switch_side_well_formed (fuel : nat) :
  preserves well_formed (Game._switch_side fuel).
Proof.
  unfold Game._switch_side.
  apply preserves_bind; [apply preserves_readonly, readonly_get|]. intros g.
  apply preserves_bind; [apply preserves_readonly, readonly_assert|].
  intros _.
  apply (ensures_bind well_formed well_formed_set well_formed).
  - destruct (GAMESTATE_eqb (Game._state g) RUNNING_BLACK);
      apply set_state_running; reflexivity.
  - apply well_formed_set_weaken.
  - intros _ g1 Hg1. apply well_formed_set_weaken. revert g1 Hg1.
    change (preserves well_formed_set
      (Game.bind (Game._search_legal_moves fuel) (fun legal_moves =>
         if Py.len legal_moves >? 0 then
           Game.bind (Game.modify (Game.with_no_move_round 0)) (fun _ =>
           Game.modify (Game.with_legal_moves legal_moves))
         else
           Game.bind
             (Game.modify (fun g =>
                Game.with_no_move_round (Game._no_move_round g + 1) g))
             (fun _ =>
           Game.bind Game.get (fun g =>
           if Game._no_move_round g >=? 2 then Game._end
           else Game.ret tt))))).
    apply preserves_bind;
      [apply preserves_readonly, readonly_scan|].
    intros legal_moves. destruct (Py.len legal_moves >? 0).
    + apply preserves_bind.
      * apply preserves_modify.
        intros g1 [(Hs & Hcol & Hc & Hmap) Hmy].
        exact (conj (conj Hs (conj Hcol (conj Hc Hmap))) Hmy).
      * intros _. apply preserves_modify.
        intros g1 [(Hs & Hcol & Hc & Hmap) Hmy].
        refine (conj (conj Hs (conj Hcol (conj Hc _))) Hmy).
        intros H. destruct (Hmy H).
    + apply preserves_bind.
      * apply preserves_modify.
        intros g1 [(Hs & Hcol & Hc & Hmap) Hmy].
        exact (conj (conj Hs (conj Hcol (conj Hc Hmap))) Hmy).
      * intros _. apply preserves_bind;
          [apply preserves_readonly, readonly_get|].
        intros g1. destruct (Game._no_move_round g1 >=? 2);
          [apply end_well_formed_set | apply preserves_ret].
Qed.

Lemma lookup_nonempty {V : Type} (d : Py.dict V) (k : Py.key) (v : V) :
  Py.lookup d k = Some v -> d <> [].
Proof. intros H ->. discriminate. Qed.

Lemma flips_well_formed_set (fuel : nat) (row col : Z) (ds : list direction)
    (v : pyval) :
  v <> PyNone ->
  preserves well_formed_set
    (Game.bind (Game.board_set row col v) (fun _ =>
     Game.forM ds (fun d (_ : unit) =>
       Game.bind
         (Game.whileM fuel
            (fun '(r, c) =>
               Game.bind (Game.board_get r c) (fun x =>
               Game.bind Game.get (fun g1 =>
               Game.ret (py_eqb x (Game._opponent_color g1)))))
            (fun '(r, c) =>
               Game.bind Game.get (fun g1 =>
               Game.bind (Game.board_set r c (Game._my_color g1)) (fun _ =>
               Game.ret (r + fst d, c + snd d))))
            (row + fst d, col + snd d))
         (fun '(r, c) => Game.ret tt)) tt)).
Proof.
  intros Hv. apply preserves_bind;
    [apply board_set_well_formed_set; exact Hv|].
  intros _. apply preserves_forM. intros d [].
  apply preserves_bind.
  - apply preserves_whileM.
    + intros [r c]. apply preserves_readonly.
      apply readonly_bind; [apply readonly_board_get|]. intros x.
      apply readonly_bind; [apply readonly_get|]. intros g1.
      apply readonly_ret.
    + intros [r c]. apply preserves_bind_get. intros g1 Hg1.
      apply (preserves_bind well_formed_set);
        [apply board_set_well_formed_set; apply Hg1 | | exact Hg1].
      intros _. apply preserves_ret.
  - intros [r c]. apply preserves_ret.
Qed.

Lemma move_flips_well_formed (fuel : nat) (row col : Z) :
  preserves well_formed (Game.move_flips fuel row col).
Proof.
  intros g Hg. unfold Game.move_flips.
  unfold Game.bind at 1. cbn [Game.get].
  unfold Game.bind at 1. unfold Game.lift, Py.dict_get.
  destruct (Py.lookup (Game._legal_moves g) (row, col)) as [ds|] eqn:Hk;
    [|exact Hg].
  assert (Hset : well_formed_set g).
  { split; [exact Hg|]. intros Hnone.
    destruct Hg as (_ & _ & _ & Hmap).
    apply (lookup_nonempty _ _ _ Hk). apply Hmap. exact Hnone. }
  apply well_formed_set_weaken.
  unfold Game.bind at 1. cbn [Game.get].
  apply (flips_well_formed_set fuel row col ds (Game._my_color g));
    [apply Hset | exact Hset].
Qed.

Lemma move_well_formed (fuel : nat) (row col : Z) :
  preserves well_formed (Game.move fuel row col).
Proof.
  unfold Game.move. apply preserves_try_except; [|apply preserves_ret].
  apply preserves_bind; [apply move_flips_well_formed|]. intros _.
  apply preserves_bind.
  { apply count_board_preserves.
    intros g r w b (Hs & Hcol & Hc & Hmap).
    exact (conj Hs (conj Hcol (conj Hc Hmap))). }
  intros _. apply preserves_bind; [apply preserves_readonly, readonly_get|].
  intros g. apply preserves_bind; [|intros _; apply preserves_ret].
  destruct (Game._remain g =? 0);
    [apply end_well_formed | apply switch_side_well_formed].
Qed.

Lemma start_well_formed (fuel : nat) (shuffled black_first : bool) :
  preserves well_formed (Game.start fuel shuffled black_first).
Proof.
  unfold Game.start.
  repeat (apply preserves_bind;
          [apply board_set_well_formed; destruct shuffled; discriminate
          | intros _]).
  apply preserves_bind.
  { apply count_board_preserves.
    intros g r w b (Hs & Hcol & Hc & Hmap).
    exact (conj Hs (conj Hcol (conj Hc Hmap))). }
  intros _.
  apply (ensures_bind well_formed well_formed_set well_formed).
  - destruct black_first; apply set_state_running; reflexivity.
  - apply well_formed_set_weaken.
  - intros _ g Hg. apply well_formed_set_weaken. revert g Hg.
    change (preserves well_formed_set
      (Game.bind (Game._search_legal_moves fuel) (fun legal_moves =>
         Game.modify (Game.with_legal_moves legal_moves)))).
    apply preserves_bind; [apply preserves_readonly, readonly_scan|].
    intros legal_moves. apply preserves_modify.
    intros g [(Hs & Hcol & Hc & Hmap) Hmy].
    refine (conj (conj Hs (conj Hcol (conj Hc _))) Hmy).
    intros H. destruct (Hmy H).
Qed.

(** X8: every object that calls of [start] and [move] produce from a new game,
    whatever their arguments and whether they return or raise, has an
    8 x 8 board whose cells all hold a color, and in a running state its
    color fields are those of the side the state names. *)
Theorem reachable_well_formed (g : Game.t) : reachable g -> well_formed g.
Proof.
  induction 1 as [|fuel shuffled black_first g _ IH|fuel row col g _ IH].
  - split; [|split; [exact I|split]].
    + split; [reflexivity|]. intros row Hin. cbn in Hin.
      repeat (destruct Hin as [<-|Hin]; [reflexivity|]). contradiction.
    + cbn. repeat constructor; discriminate.
    + reflexivity.
  - apply start_well_formed. exact IH.
  - apply move_well_formed. exact IH.
Qed.

Lemma play_reachable (fuel : nat) (ms : list Py.key) :
  forall g, reachable g -> reachable (snd (play fuel ms g)).
Proof.
  induction ms as [|[row col] ms IH]; intros g Hg; cbn [play].
  - exact Hg.
  - unfold Game.bind.
    pose proof (reachable_move fuel row col g Hg) as H1.
    destruct (Game.move fuel row col g) as [[p|e|] g1]; cbn [snd] in *;
      try exact H1.
    pose proof (IH g1 H1) as H2.
    destruct (play fuel ms g1) as [[ps|e|] g2]; cbn [snd] in *; exact H2.
Qed.

Lemma reachable_well_formed_witness : well_formed (after_pass 17).
Proof.
  apply (reachable_well_formed (after_pass 17)).
  apply play_reachable. apply reachable_start. apply reachable_new.
Defined.

(** *** A finished game *)

(** X9: once the state is a win or a draw, no call of [move] makes the game
    running again, whatever the cell and whether the call returns or
    raises. *)
Theorem move_keeps_finished (fuel : nat) (row col : Z) (g : Game.t) :
  is_finished (Game._state g) = true ->
  is_finished (Game._state (snd (Game.move fuel row col g))) = true.
Proof.
  revert g.
  change (preserves (fun g => is_finished (Game._state g) = true)
            (Game.move fuel row col)).
  set (P := fun g => is_finished (Game._state g) = true).
  assert (Hset : forall r c v, preserves P (Game.board_set r c v)).
  { intros r c v. apply (preserves_board_set P (fun _ => True)); auto. }
  assert (Hend : preserves P Game._end).
  { unfold Game._end. apply preserves_bind;
      [apply preserves_readonly, readonly_get|].
    intros g0 g _.
    destruct (Game._white_count g0 =? Game._black_count g0); [reflexivity|].
    destruct (Game._white_count g0 >? Game._black_count g0); reflexivity. }
  unfold Game.move. apply preserves_try_except; [|apply preserves_ret].
  apply preserves_bind.
  { unfold Game.move_flips.
    apply preserves_bind; [apply preserves_readonly, readonly_get|].
    intros g0. apply preserves_bind.
    { intros g Hg. exact Hg. }
    intros ds. apply preserves_bind;
      [apply preserves_readonly, readonly_get|].
    intros g1. apply preserves_bind; [apply Hset|]. intros _.
    apply preserves_forM. intros d []. apply preserves_bind.
    - apply preserves_whileM.
      + intros [r c]. apply preserves_readonly.
        apply readonly_bind; [apply readonly_board_get|]. intros x.
        apply readonly_bind; [apply readonly_get|]. intros g2.
        apply readonly_ret.
      + intros [r c]. apply preserves_bind;
          [apply preserves_readonly, readonly_get|].
        intros g2. apply preserves_bind; [apply Hset|].
        intros _. apply preserves_ret.
    - intros [r c]. apply preserves_ret. }
  intros _. apply preserves_bind.
  { apply count_board_preserves. intros g r w b Hg. exact Hg. }
  intros _. apply preserves_bind; [apply preserves_readonly, readonly_get|].
  intros g0. apply preserves_bind; [|intros _; apply preserves_ret].
  destruct (Game._remain g0 =? 0); [exact Hend|].
  unfold Game._switch_side. apply preserves_bind_get. intros g Hg.
  unfold Game.bind, Game.assert.
  replace (is_running (Game._state g)) with false; [exact Hg|].
  unfold P in Hg. destruct (Game._state g); try discriminate; reflexivity.
Qed.

Lemma move_keeps_finished_witness :
  is_finished
    (Game._state
       (snd (Game.move 8 2 4 (Game.with_state WIN_BLACK (started 8 false true)))))
  = true.
Proof.
  apply (move_keeps_finished 8 2 4
           (Game.with_state WIN_BLACK (started 8 false true))).
  reflexivity.
Defined.

(** *** The legality scan of the game engine computes the legal moves *)

Lemma forM_fold {A S : Type} (g : Game.t) (l : list A) (step : S -> A -> S)
    (body : A -> S -> Game.M S) :
  (forall x s, In x l -> body x s g = (Ok (step s x), g)) ->
  forall s, Game.forM l body s g = (Ok (fold_left step l s), g).
Proof.
  induction l as [|x l IH]; intros Hbody s; cbn [Game.forM fold_left].
  - reflexivity.
  - unfold Game.bind. rewrite Hbody by (left; reflexivity).
    apply IH. intros y t Hy. apply Hbody. right. exact Hy.
Qed.

Lemma on_board_range (r c : Z) :
  on_board r c = true <-> (0 <= r < 8 /\ 0 <= c < 8).
Proof.
  unfold on_board, Game.in_range, Game.BOARD_SIZE.
  rewrite !andb_true_iff, !Z.leb_le, !Z.ltb_lt. tauto.
Qed.

Lemma walk_cond (g : Game.t) (r c count : Z) :
  shape 8 (Game.board g) ->
  (if Game.in_range r && Game.in_range c
   then
     Game.bind (Game.board_get r c) (fun x =>
     Game.bind Game.get (fun g0 =>
     Game.ret (py_eqb x (Game._opponent_color g0))))
   else Game.ret false) g
  = (Ok (on_board r c
         && py_eqb (cell PyNone (Game.board g) r c) (Game._opponent_color g)),
     g).
Proof.
  intros Hs. fold (on_board r c).
  destruct (on_board r c) eqn:E; [|reflexivity].
  apply on_board_range in E. destruct E as [Hr Hc].
  unfold Game.bind. rewrite (board_get_shape g r c Hs Hr Hc). reflexivity.
Qed.

(** The walk stops after as many steps as the run is long. *)
Lemma game_walk (g : Game.t) (d : direction) :
  shape 8 (Game.board g) -> In d Game.DIRECTIONS ->
  forall (fuel : nat) (r c count : Z),
    (to_edge d r c < fuel)%nat ->
    Game.whileM fuel
      (fun '(r, c, _) =>
         if Game.in_range r && Game.in_range c
         then
           Game.bind (Game.board_get r c) (fun x =>
           Game.bind Game.get (fun g0 =>
           Game.ret (py_eqb x (Game._opponent_color g0))))
         else Game.ret false)
      (fun '(r, c, count) => Game.ret (r + fst d, c + snd d, count + 1))
      (r, c, count) g
    = (Ok (let k := run_length fuel (Game.board g) (Game._opponent_color g)
                      d r c in
           (r + k * fst d, c + k * snd d, count + k)), g).
Proof.
  intros Hs Hd. induction fuel as [|n IH]; intros r c count Hfuel; [lia|].
  cbn [Game.whileM run_length]. unfold Game.bind at 1.
  rewrite (walk_cond g r c count Hs).
  destruct (on_board r c
            && py_eqb (cell PyNone (Game.board g) r c)
                 (Game._opponent_color g)) eqn:E.
  - apply andb_true_iff in E. destruct E as [Hin _].
    pose proof (to_edge_step d r c Hd Hin) as Hstep.
    unfold Game.bind, Game.ret. rewrite IH by lia. cbn zeta.
    f_equal. f_equal. f_equal; [f_equal|]; lia.
  - cbn zeta. unfold Game.ret. f_equal. f_equal. f_equal; [f_equal|]; lia.
Qed.

Lemma to_edge_off_board (d : direction) (r c : Z) :
  on_board r c = false -> to_edge d r c = O.
Proof. unfold to_edge, on_board. intros ->. reflexivity. Qed.

(** Beyond the distance to the edge the bound of [run_length] does not
    matter. *)
Lemma run_length_stable (board : Board) (opp : pyval) (d : direction) :
  In d Game.DIRECTIONS ->
  forall (n n' : nat) (r c : Z),
    (to_edge d r c <= n)%nat -> (to_edge d r c <= n')%nat ->
    run_length n board opp d r c = run_length n' board opp d r c.
Proof.
  intros Hd. induction n as [|n IH]; intros n' r c Hn Hn'.
  - destruct n' as [|n']; [reflexivity|]. cbn [run_length].
    destruct (on_board r c) eqn:E; [|reflexivity].
    pose proof (to_edge_step d r c Hd E). lia.
  - destruct n' as [|n'].
    + cbn [run_length]. destruct (on_board r c) eqn:E; [|reflexivity].
      pose proof (to_edge_step d r c Hd E). lia.
    + cbn [run_length].
      destruct (on_board r c && py_eqb (cell PyNone board r c) opp) eqn:E;
        [|reflexivity].
      apply andb_true_iff in E. destruct E as [Hin _].
      pose proof (to_edge_step d r c Hd Hin) as Hstep.
      rewrite (IH n') by lia. reflexivity.
Qed.

Lemma forM_filter {A : Type} (g : Game.t) (p : A -> bool) (l : list A)
    (body : A -> list A -> Game.M (list A)) :
  (forall x acc, In x l ->
     body x acc g = (Ok (if p x then acc ++ [x] else acc), g)) ->
  forall acc, Game.forM l body acc g = (Ok (acc ++ filter p l), g).
Proof.
  induction l as [|x l IH]; intros Hbody acc; cbn [Game.forM filter].
  - rewrite app_nil_r. reflexivity.
  - unfold Game.bind. rewrite Hbody by (left; reflexivity).
    rewrite IH by (intros y a Hy; apply Hbody; right; exact Hy).
    destruct (p x); [rewrite <- app_assoc|]; reflexivity.
Qed.

(** The directions the game engine records for a cell of the board. *)
Lemma game_directions_closed (n : nat) (g : Game.t) (row col : Z) :
  shape 8 (Game.board g) -> on_board row col = true ->
  Game._search_available_directions (8 + n) row col g
  = (Ok (legal_directions (Game.board g) (Game._my_color g)
           (Game._opponent_color g) row col), g).
Proof.
  intros Hs Hin. unfold Game._search_available_directions, legal_directions.
  rewrite (forM_filter g
             (captures_along (Game.board g) (Game._my_color g)
                (Game._opponent_color g) row col)); [reflexivity|].
  intros d directions Hd. unfold Game.bind at 1.
  pose proof (to_edge_bound d row col Hd Hin) as Hbound.
  rewrite (game_walk g d Hs Hd) by lia. cbn zeta.
  rewrite (run_length_stable (Game.board g) (Game._opponent_color g) d Hd
             (8 + n) 8) by lia.
  unfold captures_along.
  set (k := run_length 8 (Game.board g) (Game._opponent_color g) d
              (row + fst d) (col + snd d)).
  change (0 + k) with k.
  destruct (k >? 0); cbn [andb]; [|reflexivity].
  fold (on_board (row + fst d + k * fst d) (col + snd d + k * snd d)).
  destruct (on_board (row + fst d + k * fst d) (col + snd d + k * snd d))
    eqn:E; cbn [andb]; [|reflexivity].
  apply on_board_range in E. destruct E as [Hr Hc].
  unfold Game.bind. rewrite (board_get_shape g _ _ Hs Hr Hc).
  cbn [Game.get]. destruct (py_eqb _ (Game._my_color g)); reflexivity.
Qed.

(** The scan returns the map of legal moves of the board for the side to
    move, and changes nothing. *)
Lemma game_scan_closed (n : nat) (g : Game.t) :
  shape 8 (Game.board g) -> is_running (Game._state g) = true ->
  Game._search_legal_moves (8 + n) g
  = (Ok (legal_moves_of (Game.board g) (Game._my_color g)
           (Game._opponent_color g)), g).
Proof.
  intros Hs Hrun. unfold Game._search_legal_moves, legal_moves_of.
  unfold Game.bind at 1. cbn [Game.get]. rewrite Hrun.
  unfold Game.bind at 1. cbn [Game.assert Game.ret].
  apply forM_fold. intros row lm Hrow.
  apply forM_fold. intros col lm' Hcol.
  apply In_range in Hrow, Hcol. unfold Game.BOARD_SIZE in Hrow, Hcol.
  unfold Game.bind at 1. rewrite (board_get_shape g row col Hs Hrow Hcol).
  unfold legal_entry.
  destruct (py_eqb (cell PyNone (Game.board g) row col) UNTOUCHED);
    [|reflexivity].
  unfold Game.bind.
  rewrite (game_directions_closed n g row col Hs)
    by (apply on_board_range; split; assumption).
  cbn zeta.
  destruct (Py.len (legal_directions (Game.board g) (Game._my_color g)
                      (Game._opponent_color g) row col) >? 0); reflexivity.
Qed.

(** *** Looking a cell up in the map *)

Lemma key_eqb_eq (a b : Py.key) : Py.key_eqb a b = true <-> a = b.
Proof.
  destruct a as [a1 a2], b as [b1 b2]. unfold Py.key_eqb. cbn [fst snd].
  rewrite andb_true_iff, !Z.eqb_eq. split.
  - intros [-> ->]. reflexivity.
  - intros [= -> ->]. split; reflexivity.
Qed.

Lemma key_eqb_refl (a : Py.key) : Py.key_eqb a a = true.
Proof. apply key_eqb_eq. reflexivity. Qed.

(** Reading a key after storing one. *)
Lemma lookup_dict_set {V : Type} (d : Py.dict V) (k k' : Py.key) (v : V) :
  Py.lookup (Py.dict_set d k v) k'
  = if Py.key_eqb k k' then Some v else Py.lookup d k'.
Proof.
  induction d as [|[k0 v0] d IH]; cbn [Py.dict_set Py.lookup].
  - reflexivity.
  - destruct (Py.key_eqb k0 k) eqn:E0; cbn [Py.lookup].
    + apply key_eqb_eq in E0. subst k0.
      destruct (Py.key_eqb k k'); reflexivity.
    + rewrite IH. destruct (Py.key_eqb k0 k') eqn:E1; [|reflexivity].
      destruct (Py.key_eqb k k') eqn:E2; [|reflexivity].
      apply key_eqb_eq in E1, E2. subst k0 k.
      rewrite key_eqb_refl in E0. discriminate.
Qed.

Lemma lookup_legal_entry (board : Board) (my opp : pyval) (lm : moves)
    (row col : Z) (k : Py.key) :
  Py.lookup (legal_entry board my opp lm row col) k
  = match (if Py.key_eqb (row, col) k then entry_of board my opp row col
           else None) with
    | Some ds => Some ds
    | None => Py.lookup lm k
    end.
Proof.
  unfold legal_entry, entry_of.
  destruct (py_eqb (cell PyNone board row col) UNTOUCHED);
    [|destruct (Py.key_eqb (row, col) k); reflexivity].
  cbn zeta.
  destruct (Py.len (legal_directions board my opp row col) >? 0);
    [|destruct (Py.key_eqb (row, col) k); reflexivity].
  rewrite lookup_dict_set. destruct (Py.key_eqb (row, col) k); reflexivity.
Qed.

Lemma lookup_row (board : Board) (my opp : pyval) (row : Z) (k : Py.key) :
  forall (cols : list Z) (lm : moves),
    Py.lookup
      (fold_left (fun lm col => legal_entry board my opp lm row col) cols lm)
      k
    = match (if (fst k =? row) && existsb (Z.eqb (snd k)) cols
             then entry_of board my opp (fst k) (snd k) else None) with
      | Some ds => Some ds
      | None => Py.lookup lm k
      end.
Proof.
  induction cols as [|col cols IH]; intros lm; cbn [fold_left existsb].
  - rewrite andb_false_r. reflexivity.
  - rewrite IH, lookup_legal_entry. destruct k as [r c]. cbn [fst snd].
    unfold Py.key_eqb. cbn [fst snd].
    destruct (Z.eqb_spec r row) as [->|Hr]; cbn [andb].
    + rewrite Z.eqb_refl. cbn [andb].
      destruct (existsb (Z.eqb c) cols) eqn:E; cbn [orb].
      * rewrite orb_true_r.
        destruct (entry_of board my opp row c) eqn:Ee; [reflexivity|].
        destruct (Z.eqb_spec col c) as [->|Hc]; [rewrite Ee|]; reflexivity.
      * rewrite orb_false_r. rewrite (Z.eqb_sym c col).
        destruct (Z.eqb_spec col c) as [->|Hc]; reflexivity.
    + destruct (Z.eqb_spec row r) as [->|_]; [congruence|]. reflexivity.
Qed.

Lemma lookup_rows (board : Board) (my opp : pyval) (cols : list Z)
    (k : Py.key) :
  forall (rows : list Z) (lm : moves),
    Py.lookup
      (fold_left (fun lm row =>
         fold_left (fun lm col => legal_entry board my opp lm row col)
           cols lm) rows lm) k
    = match (if existsb (Z.eqb (fst k)) rows && existsb (Z.eqb (snd k)) cols
             then entry_of board my opp (fst k) (snd k) else None) with
      | Some ds => Some ds
      | None => Py.lookup lm k
      end.
Proof.
  induction rows as [|row rows IH]; intros lm; cbn [fold_left existsb].
  - reflexivity.
  - rewrite IH, lookup_row.
    destruct (existsb (Z.eqb (snd k)) cols); cbn [andb];
      [|rewrite !andb_false_r; reflexivity].
    rewrite !andb_true_r.
    destruct (existsb (Z.eqb (fst k)) rows); cbn [orb].
    + rewrite orb_true_r.
      destruct (entry_of board my opp (fst k) (snd k)); [reflexivity|].
      destruct (fst k =? row); reflexivity.
    + rewrite orb_false_r. reflexivity.
Qed.

Lemma existsb_range (x n : Z) :
  existsb (Z.eqb x) (Py.range n) = (0 <=? x) && (x <? n).
Proof.
  destruct (existsb (Z.eqb x) (Py.range n)) eqn:E.
  - apply existsb_exists in E. destruct E as (y & Hy & Hxy).
    apply Z.eqb_eq in Hxy. subst y. apply In_range in Hy.
    symmetry. apply andb_true_iff. rewrite Z.leb_le, Z.ltb_lt. exact Hy.
  - destruct ((0 <=? x) && (x <? n)) eqn:E'; [|reflexivity].
    apply andb_true_iff in E'. rewrite Z.leb_le, Z.ltb_lt in E'.
    assert (H : existsb (Z.eqb x) (Py.range n) = true).
    { apply existsb_exists. exists x. split; [apply In_range; exact E'|].
      apply Z.eqb_refl. }
    congruence.
Qed.

(** The map holds, for each cell of the board, exactly what the scan
    records for it. *)
Lemma lookup_legal_moves_of (board : Board) (my opp : pyval) (row col : Z) :
  Py.lookup (legal_moves_of board my opp) (row, col)
  = if on_board row col then entry_of board my opp row col else None.
Proof.
  unfold legal_moves_of. rewrite lookup_rows. cbn [fst snd Py.lookup].
  rewrite !existsb_range. fold (Game.in_range row) (Game.in_range col).
  fold (on_board row col).
  destruct (on_board row col); [|reflexivity].
  destruct (entry_of board my opp row col); reflexivity.
Qed.

(** *** The recorded directions are the capturing ones *)

Lemma to_edge_le (d : direction) (r c : Z) :
  In d Game.DIRECTIONS -> (to_edge d r c <= 8)%nat.
Proof.
  intros Hd. unfold to_edge.
  destruct (Game.in_range r && Game.in_range c) eqn:Hin; [|lia].
  apply andb_true_iff in Hin. destruct Hin as [Hr Hc].
  unfold Game.in_range, Game.BOARD_SIZE in *.
  apply andb_true_iff in Hr, Hc.
  destruct Hr as [Hr1 Hr2], Hc as [Hc1 Hc2].
  apply Z.leb_le in Hr1, Hc1. apply Z.ltb_lt in Hr2, Hc2.
  cbn in Hd.
  repeat (destruct Hd as [<-|Hd]; [cbn [fst snd Z.eqb Pos.eqb]; lia|]).
  contradiction.
Qed.

(** The cells of a run are on the board and hold the opponent's color. *)
Lemma run_length_cells (board : Board) (opp : pyval) (d : direction) :
  forall (n : nat) (r c j : Z),
    0 <= j < run_length n board opp d r c ->
    on_board (r + j * fst d) (c + j * snd d) = true
    /\ cell PyNone board (r + j * fst d) (c + j * snd d) = opp.
Proof.
  induction n as [|n IH]; intros r c j Hj; cbn [run_length] in Hj; [lia|].
  destruct (on_board r c && py_eqb (cell PyNone board r c) opp) eqn:E;
    [|lia].
  destruct (Z.eq_dec j 0) as [->|Hne].
  - rewrite !Z.mul_0_l, !Z.add_0_r.
    apply andb_true_iff in E. destruct E as [Hin Heq].
    apply py_eqb_eq in Heq. split; assumption.
  - replace (r + j * fst d) with (r + fst d + (j - 1) * fst d) by lia.
    replace (c + j * snd d) with (c + snd d + (j - 1) * snd d) by lia.
    apply IH. lia.
Qed.

Lemma run_length_nonneg (board : Board) (opp : pyval) (d : direction) :
  forall (n : nat) (r c : Z), 0 <= run_length n board opp d r c.
Proof.
  induction n as [|n IH]; intros r c; cbn [run_length]; [lia|].
  destruct (on_board r c && py_eqb (cell PyNone board r c) opp); [|lia].
  specialize (IH (r + fst d) (c + snd d)). lia.
Qed.

(** The run ends at the first cell that is off the board or does not hold
    the opponent's color. *)
Lemma run_length_end (board : Board) (opp : pyval) (d : direction) :
  In d Game.DIRECTIONS ->
  forall (n : nat) (r c : Z),
    (to_edge d r c <= n)%nat ->
    let k := run_length n board opp d r c in
    on_board (r + k * fst d) (c + k * snd d)
    && py_eqb (cell PyNone board (r + k * fst d) (c + k * snd d)) opp
    = false.
Proof.
  intros Hd. induction n as [|n IH]; intros r c Hn; cbn [run_length].
  - cbn zeta. rewrite !Z.mul_0_l, !Z.add_0_r.
    destruct (on_board r c) eqn:E; [|reflexivity].
    pose proof (to_edge_step d r c Hd E). lia.
  - destruct (on_board r c && py_eqb (cell PyNone board r c) opp) eqn:E.
    + apply andb_true_iff in E. destruct E as [Hin _].
      pose proof (to_edge_step d r c Hd Hin) as Hstep.
      cbn zeta.
      specialize (IH (r + fst d) (c + snd d)). cbn zeta in IH.
      set (k := run_length n board opp d (r + fst d) (c + snd d)) in *.
      replace (r + (1 + k) * fst d) with (r + fst d + k * fst d) by lia.
      replace (c + (1 + k) * snd d) with (c + snd d + k * snd d) by lia.
      apply IH. lia.
    + cbn zeta. rewrite !Z.mul_0_l, !Z.add_0_r. exact E.
Qed.

(** The test the scan applies to a direction is the rule of the game. *)
Lemma captures_along_spec (board : Board) (my opp : pyval) (row col : Z)
    (d : direction) :
  my <> opp -> In d Game.DIRECTIONS ->
  captures_along board my opp row col d = true
  <-> exists k, captures board my opp row col d k.
Proof.
  intros Hne Hd. unfold captures_along.
  set (k := run_length 8 board opp d (row + fst d) (col + snd d)).
  pose proof (run_length_cells board opp d 8 (row + fst d) (col + snd d))
    as Hcells. fold k in Hcells.
  pose proof (run_length_end board opp d Hd 8 (row + fst d) (col + snd d)
                (to_edge_le d _ _ Hd)) as Hend.
  cbn zeta in Hend. fold k in Hend.
  split.
  - intros H. apply andb_true_iff in H. destruct H as [Hk H].
    apply andb_true_iff in H. destruct H as [Hin Hmy].
    apply Z.gtb_lt in Hk. apply py_eqb_eq in Hmy.
    exists k. split; [lia|]. split; [|split].
    + intros i Hi.
      replace (row + i * fst d) with (row + fst d + (i - 1) * fst d) by lia.
      replace (col + i * snd d) with (col + snd d + (i - 1) * snd d) by lia.
      apply Hcells. lia.
    + replace (row + (k + 1) * fst d) with (row + fst d + k * fst d) by lia.
      replace (col + (k + 1) * snd d) with (col + snd d + k * snd d) by lia.
      exact Hin.
    + replace (row + (k + 1) * fst d) with (row + fst d + k * fst d) by lia.
      replace (col + (k + 1) * snd d) with (col + snd d + k * snd d) by lia.
      exact Hmy.
  - intros (k' & Hk' & Hrun & Hin & Hmy).
    assert (Hkk : k = k').
    { pose proof (run_length_nonneg board opp d 8 (row + fst d)
                    (col + snd d)) as Hk0. fold k in Hk0.
      destruct (Z.lt_trichotomy k k') as [Hlt|[Heq|Hgt]]; [|exact Heq|].
      - (* the run stops inside the captured cells *)
        destruct (Hrun (k + 1)) as [Hin' Hopp']; [lia|].
        replace (row + (k + 1) * fst d) with (row + fst d + k * fst d)
          in Hin', Hopp' by lia.
        replace (col + (k + 1) * snd d) with (col + snd d + k * snd d)
          in Hin', Hopp' by lia.
        rewrite Hin', Hopp' in Hend.
        replace (py_eqb opp opp) with true in Hend
          by (symmetry; apply py_eqb_eq; reflexivity).
        discriminate.
      - (* the run passes over the mover's cell *)
        destruct (Hcells k') as [_ Hopp']; [lia|].
        replace (row + fst d + k' * fst d) with (row + (k' + 1) * fst d)
          in Hopp' by lia.
        replace (col + snd d + k' * snd d) with (col + (k' + 1) * snd d)
          in Hopp' by lia.
        congruence. }
    subst k'.
    replace (row + (k + 1) * fst d) with (row + fst d + k * fst d)
      in Hin, Hmy by lia.
    replace (col + (k + 1) * snd d) with (col + snd d + k * snd d)
      in Hin, Hmy by lia.
    rewrite Hin, Hmy.
    replace (py_eqb my my) with true
      by (symmetry; apply py_eqb_eq; reflexivity).
    replace (k >? 0) with true by (symmetry; apply Z.gtb_lt; lia).
    reflexivity.
Qed.

Lemma len_positive {A : Type} (l : list A) :
  (Py.len l >? 0) = true <-> l <> [].
Proof.
  unfold Py.len. destruct l; cbn [length].
  - split; [discriminate | congruence].
  - split; [discriminate | intros _; apply Z.gtb_lt; lia].
Qed.

(** X1: on an 8 x 8 board, in a running state with two distinct colors, the
    scan of the game engine returns without changing the object, and its
    map is exactly the rule of the game: a cell is a key if and only if it
    is an empty cell of the board from which some direction captures, and
    the directions recorded for it are the capturing directions. *)
Theorem game_scan_legal_moves (n : nat) (g : Game.t) :
  shape 8 (Game.board g) ->
  is_running (Game._state g) = true ->
  Game._my_color g <> Game._opponent_color g ->
  exists m,
    Game._search_legal_moves (8 + n) g = (Ok m, g)
    /\ forall row col,
         match Py.lookup m (row, col) with
         | Some ds =>
             on_board row col = true
             /\ cell PyNone (Game.board g) row col = UNTOUCHED
             /\ ds <> []
             /\ forall d,
                  In d ds <->
                  In d Game.DIRECTIONS
                  /\ exists k,
                       captures (Game.board g) (Game._my_color g)
                         (Game._opponent_color g) row col d k
         | None =>
             ~ (on_board row col = true
                /\ cell PyNone (Game.board g) row col = UNTOUCHED
                /\ exists d k,
                     In d Game.DIRECTIONS
                     /\ captures (Game.board g) (Game._my_color g)
                          (Game._opponent_color g) row col d k)
         end.
Proof.
  intros Hs Hrun Hne. eexists. split; [apply game_scan_closed; assumption|].
  intros row col. rewrite lookup_legal_moves_of. unfold entry_of.
  set (b := Game.board g). set (my := Game._my_color g).
  set (opp := Game._opponent_color g).
  assert (Hdirs : forall d,
    In d (legal_directions b my opp row col) <->
    In d Game.DIRECTIONS /\ exists k, captures b my opp row col d k).
  { intros d. unfold legal_directions. rewrite filter_In. split.
    - intros [Hd H]. split; [exact Hd|].
      apply captures_along_spec; assumption.
    - intros [Hd H]. split; [exact Hd|].
      apply captures_along_spec; assumption. }
  destruct (on_board row col) eqn:Hin; [|intros (H & _); discriminate].
  destruct (py_eqb (cell PyNone b row col) UNTOUCHED) eqn:Hcell.
  - apply py_eqb_eq in Hcell. cbn zeta.
    destruct (Py.len (legal_directions b my opp row col) >? 0) eqn:Hlen.
    + apply len_positive in Hlen. split; [reflexivity|].
      split; [exact Hcell|]. split; [exact Hlen|]. exact Hdirs.
    + intros (_ & _ & d & k & Hd & Hk).
      assert (Hd' : In d (legal_directions b my opp row col))
        by (apply Hdirs; eauto).
      assert (Hnil : legal_directions b my opp row col <> [])
        by (intros E; rewrite E in Hd'; exact Hd').
      apply len_positive in Hnil. congruence.
  - intros (_ & Hu & _). rewrite Hu in Hcell. discriminate.
Qed.

Lemma game_scan_legal_moves_witness :
  exists m,
    Game._search_legal_moves 8 (started 8 false true)
    = (Ok m, started 8 false true)
    /\ forall row col,
         match Py.lookup m (row, col) with
         | Some ds =>
             on_board row col = true
             /\ cell PyNone (opening false) row col = UNTOUCHED
             /\ ds <> []
             /\ forall d,
                  In d ds <->
                  In d Game.DIRECTIONS
                  /\ exists k, captures (opening false) BLACK WHITE row col d k
         | None =>
             ~ (on_board row col = true
                /\ cell PyNone (opening false) row col = UNTOUCHED
                /\ exists d k,
                     In d Game.DIRECTIONS
                     /\ captures (opening false) BLACK WHITE row col d k)
         end.
Proof.
  apply (game_scan_legal_moves 0 (started 8 false true)).
  - split; [reflexivity|]. intros row Hin. cbn in Hin.
    repeat (destruct Hin as [<-|Hin]; [reflexivity|]). contradiction.
  - reflexivity.
  - discriminate.
Defined.

(** *** Writing one cell *)

Lemma shape_set_cell {A : Type} (n : nat) (m : list (list A)) (r c : Z)
    (v : A) :
  shape n m -> 0 <= r < Z.of_nat n -> shape n (set_cell m r c v).
Proof.
  intros Hs Hr. pose proof (shape_row n m r Hs Hr) as Hrow.
  destruct Hs as [Hlen Hrows]. unfold set_cell. split.
  - rewrite length_update. exact Hlen.
  - intros row Hin. apply In_update in Hin. destruct Hin as [->|Hin].
    + rewrite length_update. exact Hrow.
    + apply Hrows. exact Hin.
Qed.

Lemma cell_set_cell {A : Type} (d : A) (n : nat) (m : list (list A))
    (r c r' c' : Z) (v : A) :
  shape n m -> 0 <= r < Z.of_nat n -> 0 <= c < Z.of_nat n ->
  0 <= r' -> 0 <= c' ->
  cell d (set_cell m r c v) r' c'
  = if (r' =? r) && (c' =? c) then v else cell d m r' c'.
Proof.
  intros Hs Hr Hc Hr' Hc'. pose proof (shape_row n m r Hs Hr) as Hrow.
  destruct Hs as [Hlen Hrows]. unfold cell, set_cell.
  rewrite nth_update by lia.
  destruct (Z.eqb_spec r' r) as [->|Hne]; cbn [andb].
  - rewrite Nat.eqb_refl. rewrite nth_update by lia.
    destruct (Z.eqb_spec c' c) as [->|Hnc].
    + rewrite Nat.eqb_refl. reflexivity.
    + replace (Nat.eqb (Z.to_nat c) (Z.to_nat c')) with false; [reflexivity|].
      symmetry. apply Nat.eqb_neq. lia.
  - replace (Nat.eqb (Z.to_nat r) (Z.to_nat r')) with false; [reflexivity|].
    symmetry. apply Nat.eqb_neq. lia.
Qed.

Lemma board_set_on_board (g : Game.t) (r c : Z) (v : pyval) :
  shape 8 (Game.board g) -> on_board r c = true ->
  Game.board_set r c v g
  = (Ok tt, Game.with_board (set_cell (Game.board g) r c v) g).
Proof.
  intros Hs Hin. apply on_board_range in Hin. destruct Hin as [Hr Hc].
  unfold Game.board_set, Game.bind, Game.get, Game.lift, Game.modify.
  rewrite (setitem2_shape 8) by (assumption || lia). reflexivity.
Qed.

(** *** Turning a run *)

Lemma flip_cells_shape (d : direction) (v : pyval) :
  forall (k : nat) (board : Board) (r c : Z),
    shape 8 board ->
    (forall j, 0 <= j < Z.of_nat k ->
       on_board (r + j * fst d) (c + j * snd d) = true) ->
    shape 8 (flip_cells k board v d r c).
Proof.
  induction k as [|k IH]; intros board r c Hs Hon; cbn [flip_cells].
  - exact Hs.
  - apply IH.
    + apply shape_set_cell; [exact Hs|].
      specialize (Hon 0). rewrite !Z.mul_0_l, !Z.add_0_r in Hon.
      apply on_board_range in Hon; [|lia]. lia.
    + intros j Hj.
      replace (r + fst d + j * fst d) with (r + (j + 1) * fst d) by lia.
      replace (c + snd d + j * snd d) with (c + (j + 1) * snd d) by lia.
      apply Hon. lia.
Qed.

(** After turning a run that lies on the board, a cell of the board holds
    the new color if it is on the run and what it held before if not. *)
Lemma flip_cells_cell (d : direction) (v : pyval) :
  forall (k : nat) (board : Board) (r c r' c' : Z),
    shape 8 board ->
    (forall j, 0 <= j < Z.of_nat k ->
       on_board (r + j * fst d) (c + j * snd d) = true) ->
    on_board r' c' = true ->
    (on_segment d r c k r' c' ->
     cell PyNone (flip_cells k board v d r c) r' c' = v)
    /\ (~ on_segment d r c k r' c' ->
        cell PyNone (flip_cells k board v d r c) r' c'
        = cell PyNone board r' c').
Proof.
  induction k as [|k IH]; intros board r c r' c' Hs Hon Hin;
    cbn [flip_cells].
  - split; [|reflexivity]. intros (j & Hj & _). lia.
  - assert (H0 : on_board r c = true).
    { specialize (Hon 0). rewrite !Z.mul_0_l, !Z.add_0_r in Hon.
      apply Hon. lia. }
    apply on_board_range in H0. destruct H0 as [Hr Hc].
    pose proof Hin as Hin'. apply on_board_range in Hin'.
    destruct Hin' as [Hr' Hc'].
    assert (Hs' : shape 8 (set_cell board r c v))
      by (apply shape_set_cell; [exact Hs | lia]).
    assert (Hon' : forall j, 0 <= j < Z.of_nat k ->
              on_board (r + fst d + j * fst d) (c + snd d + j * snd d) = true).
    { intros j Hj.
      replace (r + fst d + j * fst d) with (r + (j + 1) * fst d) by lia.
      replace (c + snd d + j * snd d) with (c + (j + 1) * snd d) by lia.
      apply Hon. lia. }
    destruct (IH (set_cell board r c v) (r + fst d) (c + snd d) r' c'
                Hs' Hon' Hin) as [IHon IHoff].
    assert (Hdec : on_segment d (r + fst d) (c + snd d) k r' c'
                   \/ ~ on_segment d (r + fst d) (c + snd d) k r' c').
    { clear. unfold on_segment.
      induction k as [|k IHk].
      - right. intros (j & Hj & _). lia.
      - destruct IHk as [(j & Hj & H1 & H2)|Hno].
        + left. exists j. repeat split; try assumption; lia.
        + destruct (Z.eq_dec r' (r + fst d + Z.of_nat k * fst d)) as [E1|N1];
            [destruct (Z.eq_dec c' (c + snd d + Z.of_nat k * snd d))
               as [E2|N2]|].
          * left. exists (Z.of_nat k). repeat split; try assumption; lia.
          * right. intros (j & Hj & H1 & H2).
            destruct (Z.eq_dec j (Z.of_nat k)) as [->|Hjk]; [contradiction|].
            apply Hno. exists j. repeat split; try assumption; lia.
          * right. intros (j & Hj & H1 & H2).
            destruct (Z.eq_dec j (Z.of_nat k)) as [->|Hjk]; [contradiction|].
            apply Hno. exists j. repeat split; try assumption; lia. }
    split.
    + intros (j & Hj & H1 & H2).
      destruct Hdec as [Hyes|Hno]; [apply IHon; exact Hyes|].
      rewrite (IHoff Hno).
      rewrite (cell_set_cell PyNone 8) by (assumption || lia).
      destruct (Z.eq_dec j 0) as [->|Hj0].
      * replace r' with r by lia. replace c' with c by lia.
        rewrite !Z.eqb_refl. reflexivity.
      * exfalso. apply Hno. exists (j - 1).
        repeat split; lia.
    + intros Hnot.
      assert (Hno : ~ on_segment d (r + fst d) (c + snd d) k r' c').
      { intros (j & Hj & H1 & H2). apply Hnot. exists (j + 1).
        repeat split; lia. }
      rewrite (IHoff Hno).
      rewrite (cell_set_cell PyNone 8) by (assumption || lia).
      destruct (Z.eqb_spec r' r) as [->|Hne]; [|reflexivity].
      destruct (Z.eqb_spec c' c) as [->|Hnc]; [|reflexivity].
      exfalso. apply Hnot. exists 0. repeat split; lia.
Qed.

(** *** The eight rays from a cell *)

Lemma ray_leaves (d : direction) (r c i : Z) :
  In d Game.DIRECTIONS -> i <> 0 ->
  ~ (r + i * fst d = r /\ c + i * snd d = c).
Proof.
  intros Hd Hi [H1 H2]. cbn in Hd.
  repeat (destruct Hd as [<-|Hd]; [cbn [fst snd] in *; lia|]).
  contradiction.
Qed.

Lemma rays_disjoint (d d' : direction) (r c i j : Z) :
  In d Game.DIRECTIONS -> In d' Game.DIRECTIONS -> d <> d' ->
  1 <= i -> 1 <= j ->
  ~ (r + i * fst d = r + j * fst d' /\ c + i * snd d = c + j * snd d').
Proof.
  intros Hd Hd' Hne Hi Hj [H1 H2]. cbn in Hd, Hd'.
  repeat (destruct Hd as [<-|Hd];
          [repeat (destruct Hd' as [<-|Hd'];
                   [cbn [fst snd] in *; try congruence; lia|]);
           contradiction|]).
  contradiction.
Qed.

Lemma with_board_same (g : Game.t) : Game.with_board (Game.board g) g = g.
Proof. destruct g. reflexivity. Qed.

(** *** Running a computation step by step *)

Lemma bind_ok {A B : Type} (m : Game.M A) (k : A -> Game.M B)
    (g g' : Game.t) (a : A) :
  m g = (Ok a, g') -> Game.bind m k g = k a g'.
Proof. intros H. unfold Game.bind. rewrite H. reflexivity. Qed.

Lemma whileM_step {S : Type} (fuel : nat) (cond : S -> Game.M bool)
    (body : S -> Game.M S) (s : S) (g g1 : Game.t) (b : bool) :
  cond s g = (Ok b, g1) ->
  Game.whileM (Datatypes.S fuel) cond body s g
  = if b then Game.bind (body s) (Game.whileM fuel cond body) g1
    else (Ok s, g1).
Proof.
  intros H. cbn [Game.whileM]. rewrite (bind_ok _ _ _ _ _ H).
  destruct b; reflexivity.
Qed.

Lemma flip_cond (g : Game.t) (r c : Z) :
  shape 8 (Game.board g) -> on_board r c = true ->
  Game.bind (Game.board_get r c) (fun x =>
  Game.bind Game.get (fun g0 =>
  Game.ret (py_eqb x (Game._opponent_color g0)))) g
  = (Ok (py_eqb (cell PyNone (Game.board g) r c) (Game._opponent_color g)),
     g).
Proof.
  intros Hs Hin. apply on_board_range in Hin. destruct Hin as [Hr Hc].
  rewrite (bind_ok _ _ _ _ _ (board_get_shape g r c Hs Hr Hc)).
  reflexivity.
Qed.

Lemma flip_body (g : Game.t) (d : direction) (r c : Z) :
  shape 8 (Game.board g) -> on_board r c = true ->
  Game.bind Game.get (fun g0 =>
  Game.bind (Game.board_set r c (Game._my_color g0)) (fun _ =>
  Game.ret (r + fst d, c + snd d))) g
  = (Ok (r + fst d, c + snd d),
     Game.with_board (set_cell (Game.board g) r c (Game._my_color g)) g).
Proof.
  intros Hs Hin. unfold Game.bind at 1. cbn [Game.get].
  rewrite (bind_ok _ _ _ _ _ (board_set_on_board g r c _ Hs Hin)).
  reflexivity.
Qed.

(** *** The flip walk of [move] *)

(** When the [k] cells from [(r, c)] on hold the opponent's color and the
    next one the mover's, all on the board, the walk turns exactly these
    [k] cells and stops, without reading outside the board. *)
Lemma flip_walk (d : direction) :
  In d Game.DIRECTIONS ->
  forall (k : nat) (g : Game.t) (r c : Z) (fuel : nat),
    shape 8 (Game.board g) ->
    Game._my_color g <> Game._opponent_color g ->
    (forall j, 0 <= j < Z.of_nat k ->
       on_board (r + j * fst d) (c + j * snd d) = true
       /\ cell PyNone (Game.board g) (r + j * fst d) (c + j * snd d)
          = Game._opponent_color g) ->
    on_board (r + Z.of_nat k * fst d) (c + Z.of_nat k * snd d) = true ->
    cell PyNone (Game.board g) (r + Z.of_nat k * fst d)
      (c + Z.of_nat k * snd d) = Game._my_color g ->
    (k < fuel)%nat ->
    Game.whileM fuel
      (fun '(r, c) =>
         Game.bind (Game.board_get r c) (fun x =>
         Game.bind Game.get (fun g0 =>
         Game.ret (py_eqb x (Game._opponent_color g0)))))
      (fun '(r, c) =>
         Game.bind Game.get (fun g0 =>
         Game.bind (Game.board_set r c (Game._my_color g0)) (fun _ =>
         Game.ret (r + fst d, c + snd d))))
      (r, c) g
    = (Ok (r + Z.of_nat k * fst d, c + Z.of_nat k * snd d),
       Game.with_board
         (flip_cells k (Game.board g) (Game._my_color g) d r c) g).
Proof.
  intros Hd. induction k as [|k IH];
    intros g r c fuel Hs Hne Hrun Hend_on Hend Hfuel;
    (destruct fuel as [|fuel]; [lia|]).
  - cbn [Z.of_nat] in *. rewrite !Z.mul_0_l, !Z.add_0_r in *.
    match goal with
    | |- Game.whileM _ ?cond ?body _ _ = _ =>
        rewrite (whileM_step fuel cond body (r, c) g g _
                   (flip_cond g r c Hs Hend_on))
    end.
    rewrite Hend, (py_eqb_neq _ _ Hne). cbn [flip_cells].
    rewrite with_board_same. reflexivity.
  - destruct (Hrun 0) as [H0 Hc0]; [lia|].
    rewrite !Z.mul_0_l, !Z.add_0_r in H0, Hc0.
    pose proof H0 as Hrc. apply on_board_range in Hrc.
    destruct Hrc as [Hr Hc].
    match goal with
    | |- Game.whileM _ ?cond ?body _ _ = _ =>
        rewrite (whileM_step fuel cond body (r, c) g g _
                   (flip_cond g r c Hs H0))
    end.
    rewrite Hc0.
    replace (py_eqb (Game._opponent_color g) (Game._opponent_color g))
      with true by (symmetry; apply py_eqb_eq; reflexivity).
    match goal with
    | |- Game.bind ?m ?k g = _ =>
        rewrite (bind_ok m k g _ _ (flip_body g d r c Hs H0))
    end.
    set (g1 := Game.with_board
                 (set_cell (Game.board g) r c (Game._my_color g)) g).
    assert (Hs1 : shape 8 (Game.board g1))
      by (apply shape_set_cell; [exact Hs | lia]).
    assert (Hkeep : forall j, 1 <= j ->
      on_board (r + j * fst d) (c + j * snd d) = true ->
      cell PyNone (Game.board g1) (r + j * fst d) (c + j * snd d)
      = cell PyNone (Game.board g) (r + j * fst d) (c + j * snd d)).
    { intros j Hj Hon. apply on_board_range in Hon. destruct Hon as [Hjr Hjc].
      cbn [g1 Game.board Game.with_board].
      rewrite (cell_set_cell PyNone 8) by (assumption || lia).
      destruct (Z.eqb_spec (r + j * fst d) r) as [E1|_]; [|reflexivity].
      destruct (Z.eqb_spec (c + j * snd d) c) as [E2|_]; [|reflexivity].
      exfalso. apply (ray_leaves d r c j Hd); [lia | split; assumption]. }
    rewrite (IH g1 (r + fst d) (c + snd d) fuel Hs1).
    + replace (r + Z.of_nat (S k) * fst d)
        with (r + fst d + Z.of_nat k * fst d) by lia.
      replace (c + Z.of_nat (S k) * snd d)
        with (c + snd d + Z.of_nat k * snd d) by lia.
      reflexivity.
    + exact Hne.
    + intros j Hj.
      replace (r + fst d + j * fst d) with (r + (j + 1) * fst d) by lia.
      replace (c + snd d + j * snd d) with (c + (j + 1) * snd d) by lia.
      destruct (Hrun (j + 1)) as [Hon Hopp]; [lia|].
      split; [exact Hon|]. rewrite Hkeep by (lia || exact Hon). exact Hopp.
    + replace (r + fst d + Z.of_nat k * fst d)
        with (r + Z.of_nat (S k) * fst d) by lia.
      replace (c + snd d + Z.of_nat k * snd d)
        with (c + Z.of_nat (S k) * snd d) by lia.
      exact Hend_on.
    + replace (r + fst d + Z.of_nat k * fst d)
        with (r + Z.of_nat (S k) * fst d) by lia.
      replace (c + snd d + Z.of_nat k * snd d)
        with (c + Z.of_nat (S k) * snd d) by lia.
      rewrite Hkeep by (lia || exact Hend_on). exact Hend.
    + lia.
Qed.

Lemma captures_run_length (board : Board) (my opp : pyval) (row col : Z)
    (d : direction) (k : Z) :
  my <> opp -> In d Game.DIRECTIONS ->
  captures board my opp row col d k ->
  run_length 8 board opp d (row + fst d) (col + snd d) = k.
Proof.
  intros Hne Hd (Hk & Hrun & Hin & Hmy).
  set (k0 := run_length 8 board opp d (row + fst d) (col + snd d)).
  pose proof (run_length_cells board opp d 8 (row + fst d) (col + snd d))
    as Hcells. fold k0 in Hcells.
  pose proof (run_length_end board opp d Hd 8 (row + fst d) (col + snd d)
                (to_edge_le d _ _ Hd)) as Hend.
  cbn zeta in Hend. fold k0 in Hend.
  pose proof (run_length_nonneg board opp d 8 (row + fst d) (col + snd d))
    as Hk0. fold k0 in Hk0.
  destruct (Z.lt_trichotomy k0 k) as [Hlt|[Heq|Hgt]]; [|exact Heq|].
  - destruct (Hrun (k0 + 1)) as [Hin' Hopp']; [lia|].
    replace (row + (k0 + 1) * fst d) with (row + fst d + k0 * fst d)
      in Hin', Hopp' by lia.
    replace (col + (k0 + 1) * snd d) with (col + snd d + k0 * snd d)
      in Hin', Hopp' by lia.
    rewrite Hin', Hopp' in Hend.
    replace (py_eqb opp opp) with true in Hend
      by (symmetry; apply py_eqb_eq; reflexivity).
    discriminate.
  - destruct (Hcells k) as [_ Hopp']; [lia|].
    replace (row + fst d + k * fst d) with (row + (k + 1) * fst d)
      in Hopp' by lia.
    replace (col + snd d + k * snd d) with (col + (k + 1) * snd d)
      in Hopp' by lia.
    congruence.
Qed.

Lemma run_length_le_to_edge (board : Board) (opp : pyval) (d : direction) :
  In d Game.DIRECTIONS ->
  forall (n : nat) (r c : Z),
    run_length n board opp d r c <= Z.of_nat (to_edge d r c).
Proof.
  intros Hd. induction n as [|n IH]; intros r c; cbn [run_length]; [lia|].
  destruct (on_board r c && py_eqb (cell PyNone board r c) opp) eqn:E; [|lia].
  apply andb_true_iff in E. destruct E as [Hin _].
  pose proof (to_edge_step d r c Hd Hin).
  specialize (IH (r + fst d) (c + snd d)). lia.
Qed.

Lemma with_board_twice (b b' : Board) (g : Game.t) :
  Game.with_board b (Game.with_board b' g) = Game.with_board b g.
Proof. reflexivity. Qed.

(** The loop of [move] over the recorded directions, started on a board
    that still holds, along each of these directions, what the board [b0]
    of the scan held there. *)
Lemma flips_loop (n : nat) (b0 : Board) (my opp : pyval) (row col : Z) :
  my <> opp -> on_board row col = true ->
  forall (ds : list direction) (g : Game.t),
    shape 8 (Game.board g) ->
    Game._my_color g = my -> Game._opponent_color g = opp ->
    NoDup ds ->
    (forall d, In d ds ->
       In d Game.DIRECTIONS /\ exists k, captures b0 my opp row col d k) ->
    (forall d i, In d ds -> 1 <= i ->
       on_board (row + i * fst d) (col + i * snd d) = true ->
       cell PyNone (Game.board g) (row + i * fst d) (col + i * snd d)
       = cell PyNone b0 (row + i * fst d) (col + i * snd d)) ->
    let step := fun b d =>
      flip_cells
        (Z.to_nat (run_length 8 b0 opp d (row + fst d) (col + snd d)))
        b my d (row + fst d) (col + snd d) in
    Game.forM ds (fun d (_ : unit) =>
      Game.bind
        (Game.whileM (8 + n)
           (fun '(r, c) =>
              Game.bind (Game.board_get r c) (fun x =>
              Game.bind Game.get (fun g0 =>
              Game.ret (py_eqb x (Game._opponent_color g0)))))
           (fun '(r, c) =>
              Game.bind Game.get (fun g0 =>
              Game.bind (Game.board_set r c (Game._my_color g0)) (fun _ =>
              Game.ret (r + fst d, c + snd d))))
           (row + fst d, col + snd d))
        (fun '(r, c) => Game.ret tt)) tt g
    = (Ok tt, Game.with_board (fold_left step ds (Game.board g)) g)
    /\ shape 8 (fold_left step ds (Game.board g)).
Proof.
  intros Hne Horigin.
  induction ds as [|d ds IH]; intros g Hs Hmy Hopp Hnd Hcap Hagree step.
  - cbn [Game.forM fold_left]. rewrite with_board_same.
    split; [reflexivity | exact Hs].
  - cbn [Game.forM fold_left].
    destruct (Hcap d (or_introl eq_refl)) as (Hd & k & Hk).
    pose proof (captures_run_length b0 my opp row col d k Hne Hd Hk) as Hrl.
    pose proof (run_length_le_to_edge b0 opp d Hd 8 (row + fst d)
                  (col + snd d)) as Hle.
    pose proof (to_edge_bound d row col Hd Horigin) as Hedge.
    destruct Hk as (Hk1 & Hrun & Hend_on & Hend).
    assert (Hkn : Z.of_nat (Z.to_nat k) = k) by lia.
    assert (Hseg : forall j, 0 <= j < Z.of_nat (Z.to_nat k) ->
              on_board (row + fst d + j * fst d) (col + snd d + j * snd d)
              = true).
    { intros j Hj.
      replace (row + fst d + j * fst d) with (row + (j + 1) * fst d) by lia.
      replace (col + snd d + j * snd d) with (col + (j + 1) * snd d) by lia.
      apply Hrun. lia. }
    unfold Game.bind at 1. unfold Game.bind at 1.
    rewrite (flip_walk d Hd (Z.to_nat k) g (row + fst d) (col + snd d)
               (8 + n) Hs).
    + cbn [Game.ret].
      set (g1 := Game.with_board
                   (flip_cells (Z.to_nat k) (Game.board g)
                      (Game._my_color g) d (row + fst d) (col + snd d)) g).
      assert (Hs1 : shape 8 (Game.board g1))
        by (apply flip_cells_shape; assumption).
      destruct (IH g1 Hs1 Hmy Hopp) as [Hloop Hshape].
      * inversion Hnd. assumption.
      * intros d' Hd'. apply Hcap. right. exact Hd'.
      * intros d' i Hd' Hi Hon.
        rewrite <- (Hagree d' i (or_intror Hd') Hi Hon).
        cbn [g1 Game.board Game.with_board].
        apply flip_cells_cell; try assumption.
        intros (j & Hj & H1 & H2).
        destruct (Hcap d' (or_intror Hd')) as (HdD & _).
        apply (rays_disjoint d' d row col i (j + 1) HdD Hd); try lia.
        intros ->. inversion Hnd. contradiction.
      * split.
        -- rewrite Hloop. cbn [g1 Game.board Game.with_board].
           subst step. cbn beta. rewrite Hrl, Hmy. reflexivity.
        -- subst step. cbn beta. rewrite Hrl.
           cbn [g1 Game.board Game.with_board] in Hshape.
           rewrite Hmy in Hshape. exact Hshape.
    + rewrite Hmy, Hopp. exact Hne.
    + intros j Hj.
      replace (row + fst d + j * fst d) with (row + (j + 1) * fst d) by lia.
      replace (col + snd d + j * snd d) with (col + (j + 1) * snd d) by lia.
      destruct (Hrun (j + 1)) as [Hon Hop]; [lia|].
      split; [exact Hon|].
      rewrite (Hagree d (j + 1) (or_introl eq_refl)) by (lia || exact Hon).
      rewrite Hopp. exact Hop.
    + rewrite Hkn.
      replace (row + fst d + k * fst d) with (row + (k + 1) * fst d) by lia.
      replace (col + snd d + k * snd d) with (col + (k + 1) * snd d) by lia.
      exact Hend_on.
    + rewrite Hkn.
      replace (row + fst d + k * fst d) with (row + (k + 1) * fst d) by lia.
      replace (col + snd d + k * snd d) with (col + (k + 1) * snd d) by lia.
      rewrite (Hagree d (k + 1) (or_introl eq_refl))
        by (lia || exact Hend_on).
      rewrite Hmy. exact Hend.
    + lia.
Qed.

Lemma NoDup_DIRECTIONS : NoDup Game.DIRECTIONS.
Proof.
  unfold Game.DIRECTIONS.
  repeat (apply NoDup_cons; [cbn; intuition congruence|]).
  apply NoDup_nil.
Qed.

(** What a successful lookup in a fresh map tells about the cell. *)
Lemma fresh_lookup (g : Game.t) (row col : Z) (ds : list direction) :
  fresh g ->
  Game._my_color g <> Game._opponent_color g ->
  Py.lookup (Game._legal_moves g) (row, col) = Some ds ->
  on_board row col = true
  /\ cell PyNone (Game.board g) row col = UNTOUCHED
  /\ NoDup ds
  /\ forall d, In d ds <->
       In d Game.DIRECTIONS
       /\ exists k, captures (Game.board g) (Game._my_color g)
                      (Game._opponent_color g) row col d k.
Proof.
  intros Hfresh Hne Hk. unfold fresh in Hfresh. rewrite Hfresh in Hk.
  rewrite lookup_legal_moves_of in Hk.
  destruct (on_board row col); [|discriminate].
  unfold entry_of in Hk.
  destruct (py_eqb (cell PyNone (Game.board g) row col) UNTOUCHED) eqn:Hcell;
    [|discriminate].
  cbn zeta in Hk.
  destruct (Py.len _ >? 0); [|discriminate]. injection Hk as <-.
  apply py_eqb_eq in Hcell. repeat split; try assumption.
  - apply NoDup_filter, NoDup_DIRECTIONS.
  - unfold legal_directions in H. apply filter_In in H. apply H.
  - unfold legal_directions in H. apply filter_In in H. destruct H as [Hd H].
    apply captures_along_spec; assumption.
  - intros [Hd H]. unfold legal_directions. apply filter_In.
    split; [exact Hd|]. apply captures_along_spec; assumption.
Qed.

(** The flips of a legal move. *)
Lemma move_flips_legal (n : nat) (g : Game.t) (row col : Z)
    (ds : list direction) :
  shape 8 (Game.board g) ->
  Game._my_color g <> Game._opponent_color g ->
  fresh g ->
  Py.lookup (Game._legal_moves g) (row, col) = Some ds ->
  Game.move_flips (8 + n) row col g
  = (Ok tt,
     Game.with_board
       (flipped_board (Game.board g) (Game._my_color g)
          (Game._opponent_color g) row col ds) g)
  /\ shape 8 (flipped_board (Game.board g) (Game._my_color g)
                (Game._opponent_color g) row col ds).
Proof.
  intros Hs Hne Hfresh Hk.
  destruct (fresh_lookup g row col ds Hfresh Hne Hk)
    as (Horigin & _ & Hnd & Hds).
  pose proof Horigin as Hrc. apply on_board_range in Hrc.
  destruct Hrc as [Hr Hc].
  unfold Game.move_flips.
  unfold Game.bind at 1. cbn [Game.get].
  unfold Game.bind at 1. unfold Game.lift, Py.dict_get. rewrite Hk.
  unfold Game.bind at 1. cbn [Game.get].
  unfold Game.bind at 1.
  rewrite (board_set_on_board g row col _ Hs Horigin).
  set (g1 := Game.with_board
               (set_cell (Game.board g) row col (Game._my_color g)) g).
  destruct (flips_loop n (Game.board g) (Game._my_color g)
              (Game._opponent_color g) row col Hne Horigin ds g1)
    as [Hloop Hshape]; try reflexivity.
  - apply shape_set_cell; [exact Hs | lia].
  - exact Hnd.
  - intros d Hd. apply Hds. exact Hd.
  - intros d i Hd Hi Hon. apply on_board_range in Hon.
    destruct Hon as [Hir Hic].
    cbn [g1 Game.board Game.with_board].
    rewrite (cell_set_cell PyNone 8) by (assumption || lia).
    destruct (Z.eqb_spec (row + i * fst d) row) as [E1|_]; [|reflexivity].
    destruct (Z.eqb_spec (col + i * snd d) col) as [E2|_]; [|reflexivity].
    exfalso. apply (ray_leaves d row col i); [apply Hds; exact Hd | lia |].
    split; assumption.
  - split; [|exact Hshape]. rewrite Hloop. reflexivity.
Qed.

Lemma end_returns (g : Game.t) :
  exists g', Game._end g = (Ok tt, g') /\ Game.board g' = Game.board g.
Proof.
  unfold Game._end, Game.bind. cbn [Game.get].
  destruct (Game._white_count g =? Game._black_count g);
    [eexists; split; reflexivity|].
  destruct (Game._white_count g >? Game._black_count g);
    eexists; split; reflexivity.
Qed.

Lemma switch_side_returns (n : nat) (g : Game.t) :
  shape 8 (Game.board g) -> is_running (Game._state g) = true ->
  exists g',
    Game._switch_side (8 + n) g = (Ok tt, g')
    /\ Game.board g' = Game.board g.
Proof.
  intros Hs Hrun. unfold Game._switch_side.
  unfold Game.bind at 1. cbn [Game.get]. rewrite Hrun.
  unfold Game.bind at 1. cbn [Game.assert Game.ret].
  set (v := if GAMESTATE_eqb (Game._state g) RUNNING_BLACK
            then RUNNING_WHITE else RUNNING_BLACK).
  assert (Hset : exists g1,
    (if GAMESTATE_eqb (Game._state g) RUNNING_BLACK
     then Game.set_state RUNNING_WHITE
     else Game.set_state RUNNING_BLACK) g = (Ok tt, g1)
    /\ Game.board g1 = Game.board g
    /\ is_running (Game._state g1) = true).
  { destruct (GAMESTATE_eqb (Game._state g) RUNNING_BLACK);
      eexists; repeat split. }
  destruct Hset as (g1 & Hg1 & Hb1 & Hrun1).
  unfold Game.bind at 1. rewrite Hg1.
  assert (Hs1 : shape 8 (Game.board g1)) by (rewrite Hb1; exact Hs).
  unfold Game.bind at 1. rewrite (game_scan_closed n g1 Hs1 Hrun1).
  destruct (Py.len _ >? 0).
  - eexists. split; [reflexivity | exact Hb1].
  - unfold Game.bind at 1. cbn [Game.modify].
    unfold Game.bind at 1. cbn [Game.get].
    destruct (Game._no_move_round _ >=? 2).
    + destruct (end_returns
                  (Game.with_no_move_round (Game._no_move_round g1 + 1) g1))
        as (g2 & Hg2 & Hb2).
      exists g2. split; [exact Hg2 | rewrite Hb2; exact Hb1].
    + eexists. split; [reflexivity | exact Hb1].
Qed.

(** *** The cells of the board after the flips *)

Lemma on_segment_dec (d : direction) (r0 c0 : Z) (k : nat) (r c : Z) :
  on_segment d r0 c0 k r c \/ ~ on_segment d r0 c0 k r c.
Proof.
  unfold on_segment. induction k as [|k IHk].
  - right. intros (j & Hj & _). lia.
  - destruct IHk as [(j & Hj & H1 & H2)|Hno].
    + left. exists j. repeat split; try assumption; lia.
    + destruct (Z.eq_dec r (r0 + Z.of_nat k * fst d)) as [E1|N1];
        [destruct (Z.eq_dec c (c0 + Z.of_nat k * snd d)) as [E2|N2]|].
      * left. exists (Z.of_nat k). repeat split; try assumption; lia.
      * right. intros (j & Hj & H1 & H2).
        destruct (Z.eq_dec j (Z.of_nat k)) as [->|Hjk]; [contradiction|].
        apply Hno. exists j. repeat split; try assumption; lia.
      * right. intros (j & Hj & H1 & H2).
        destruct (Z.eq_dec j (Z.of_nat k)) as [->|Hjk]; [contradiction|].
        apply Hno. exists j. repeat split; try assumption; lia.
Qed.

Lemma flips_fold_cells (v : pyval) (row col : Z) (len : direction -> nat) :
  forall (ds : list direction) (cur : Board),
    shape 8 cur ->
    (forall d j, In d ds -> 0 <= j < Z.of_nat (len d) ->
       on_board (row + fst d + j * fst d) (col + snd d + j * snd d) = true) ->
    let final :=
      fold_left (fun b d =>
        flip_cells (len d) b v d (row + fst d) (col + snd d)) ds cur in
    forall r c, on_board r c = true ->
      ((exists d, In d ds
                  /\ on_segment d (row + fst d) (col + snd d) (len d) r c) ->
       cell PyNone final r c = v)
      /\ (cell PyNone cur r c = v -> cell PyNone final r c = v)
      /\ (~ (exists d, In d ds
                       /\ on_segment d (row + fst d) (col + snd d) (len d)
                            r c) ->
          cell PyNone final r c = cell PyNone cur r c).
Proof.
  induction ds as [|d ds IH]; intros cur Hs Hon final r c Hrc;
    subst final; cbn [fold_left].
  - split; [intros (d & [] & _)|]. split; [tauto | reflexivity].
  - set (cur' := flip_cells (len d) cur v d (row + fst d) (col + snd d)).
    assert (Hseg : forall j, 0 <= j < Z.of_nat (len d) ->
              on_board (row + fst d + j * fst d) (col + snd d + j * snd d)
              = true)
      by (intros j Hj; apply Hon; [left; reflexivity | exact Hj]).
    assert (Hs' : shape 8 cur') by (apply flip_cells_shape; assumption).
    destruct (flip_cells_cell d v (len d) cur (row + fst d) (col + snd d)
                r c Hs Hseg Hrc) as [Hin Hout].
    fold cur' in Hin, Hout.
    destruct (IH cur' Hs'
                (fun d' j Hd' => Hon d' j (or_intror Hd')) r c Hrc)
      as (IHa & IHb & IHc).
    split; [|split].
    + intros (d' & [<-|Hd'] & Hd'seg).
      * apply IHb. apply Hin. exact Hd'seg.
      * apply IHa. exists d'. split; assumption.
    + intros Hcur. apply IHb.
      destruct (on_segment_dec d (row + fst d) (col + snd d) (len d) r c)
        as [Hyes|Hno].
      * apply Hin. exact Hyes.
      * rewrite (Hout Hno). exact Hcur.
    + intros Hnot. rewrite IHc.
      * apply Hout. intros Hyes. apply Hnot. exists d.
        split; [left; reflexivity | exact Hyes].
      * intros (d' & Hd' & Hd'seg). apply Hnot. exists d'.
        split; [right; exact Hd' | exact Hd'seg].
Qed.

(** The cells of the board after the flips of a legal move. *)
Lemma flipped_board_cells (g : Game.t) (row col : Z) (ds : list direction) :
  shape 8 (Game.board g) ->
  Game._my_color g <> Game._opponent_color g ->
  fresh g ->
  Py.lookup (Game._legal_moves g) (row, col) = Some ds ->
  forall r c, on_board r c = true ->
    (turned (Game.board g) (Game._my_color g) (Game._opponent_color g)
       row col r c ->
     cell PyNone
       (flipped_board (Game.board g) (Game._my_color g)
          (Game._opponent_color g) row col ds) r c
     = Game._my_color g)
    /\ (~ turned (Game.board g) (Game._my_color g) (Game._opponent_color g)
          row col r c ->
        cell PyNone
          (flipped_board (Game.board g) (Game._my_color g)
             (Game._opponent_color g) row col ds) r c
        = cell PyNone (Game.board g) r c).
Proof.
  intros Hs Hne Hfresh Hk r c Hrc.
  destruct (fresh_lookup g row col ds Hfresh Hne Hk)
    as (Horigin & _ & _ & Hds).
  set (b0 := Game.board g) in *. set (my := Game._my_color g) in *.
  set (opp := Game._opponent_color g) in *.
  pose proof Horigin as Ho. apply on_board_range in Ho. destruct Ho as [Hr0 Hc0].
  pose proof Hrc as Hrc'. apply on_board_range in Hrc'.
  destruct Hrc' as [Hr Hc].
  set (len := fun d : direction =>
         Z.to_nat (run_length 8 b0 opp d (row + fst d) (col + snd d))).
  assert (Hlen : forall d k, In d Game.DIRECTIONS ->
            captures b0 my opp row col d k -> Z.of_nat (len d) = k).
  { intros d k Hd Hcap. unfold len.
    rewrite (captures_run_length b0 my opp row col d k Hne Hd Hcap).
    destruct Hcap as (Hk1 & _). lia. }
  assert (Hs1 : shape 8 (set_cell b0 row col my))
    by (apply shape_set_cell; [exact Hs | lia]).
  assert (Hon : forall d j, In d ds -> 0 <= j < Z.of_nat (len d) ->
            on_board (row + fst d + j * fst d) (col + snd d + j * snd d)
            = true).
  { intros d j Hd Hj. apply Hds in Hd. destruct Hd as (Hd & k & Hcap).
    rewrite (Hlen d k Hd Hcap) in Hj.
    destruct Hcap as (_ & Hrun & _).
    replace (row + fst d + j * fst d) with (row + (j + 1) * fst d) by lia.
    replace (col + snd d + j * snd d) with (col + (j + 1) * snd d) by lia.
    apply Hrun. lia. }
  destruct (flips_fold_cells my row col len ds (set_cell b0 row col my)
              Hs1 Hon r c Hrc) as (Ha & Hb & Hc').
  change (flipped_board b0 my opp row col ds)
    with (fold_left (fun b d =>
            flip_cells (len d) b my d (row + fst d) (col + snd d))
            ds (set_cell b0 row col my)).
  cbn zeta in Ha, Hb, Hc'.
  assert (Hcur : cell PyNone (set_cell b0 row col my) r c
                 = if (r =? row) && (c =? col) then my else cell PyNone b0 r c)
    by (apply (cell_set_cell PyNone 8); assumption || lia).
  split.
  - intros [[-> ->]|(d & k & i & Hd & Hcap & Hi & -> & ->)].
    + apply Hb. rewrite Hcur, !Z.eqb_refl. reflexivity.
    + apply Ha. exists d. split; [apply Hds; eauto|].
      exists (i - 1). rewrite (Hlen d k Hd Hcap). repeat split; lia.
  - intros Hnot. rewrite Hc'.
    + rewrite Hcur.
      destruct (Z.eqb_spec r row) as [->|_]; [|reflexivity].
      destruct (Z.eqb_spec c col) as [->|_]; [|reflexivity].
      exfalso. apply Hnot. left. split; reflexivity.
    + intros (d & Hd & j & Hj & -> & ->).
      apply Hds in Hd. destruct Hd as (Hd & k & Hcap).
      rewrite (Hlen d k Hd Hcap) in Hj.
      apply Hnot. right. exists d, k, (j + 1).
      split; [exact Hd|]. split; [exact Hcap|]. split; [lia|]. split; lia.
Qed.

(** X3: a legal move is applied without any exception.  On an 8 x 8 board, in
    a running state with two distinct colors and with the stored map being
    the map of legal moves of the board, [move] on a key of the map prints
    nothing and returns, and the new board holds the mover's color at the
    cell and at every cell the move captures, and what it held before
    everywhere else. *)
Theorem legal_move_applies (n : nat) (g : Game.t) (row col : Z)
    (ds : list direction) :
  shape 8 (Game.board g) ->
  is_running (Game._state g) = true ->
  Game._my_color g <> Game._opponent_color g ->
  fresh g ->
  Py.lookup (Game._legal_moves g) (row, col) = Some ds ->
  exists g',
    Game.move (8 + n) row col g = (Ok Game.Nothing, g')
    /\ forall r c, on_board r c = true ->
         (turned (Game.board g) (Game._my_color g) (Game._opponent_color g)
            row col r c ->
          cell PyNone (Game.board g') r c = Game._my_color g)
         /\ (~ turned (Game.board g) (Game._my_color g)
               (Game._opponent_color g) row col r c ->
             cell PyNone (Game.board g') r c
             = cell PyNone (Game.board g) r c).
Proof.
  intros Hs Hrun Hne Hfresh Hk.
  destruct (move_flips_legal n g row col ds Hs Hne Hfresh Hk)
    as [Hflips Hshape].
  set (B := flipped_board (Game.board g) (Game._my_color g)
              (Game._opponent_color g) row col ds) in *.
  assert (Hmove : exists g',
    Game.move (8 + n) row col g = (Ok Game.Nothing, g')
    /\ Game.board g' = B).
  { unfold Game.move, Game.try_except.
    unfold Game.bind at 1. rewrite Hflips.
    unfold Game.bind at 1.
    rewrite (count_board_closed (Game.with_board B g)) by exact Hshape.
    set (g2 := Game.with_counts _ _ _ (Game.with_board B g)).
    unfold Game.bind at 1. cbn [Game.get].
    destruct (Game._remain g2 =? 0).
    - destruct (end_returns g2) as (g3 & Hg3 & Hb3).
      unfold Game.bind. rewrite Hg3. cbn [Game.ret].
      exists g3. split; [reflexivity | exact Hb3].
    - destruct (switch_side_returns n g2) as (g3 & Hg3 & Hb3);
        [exact Hshape | exact Hrun |].
      unfold Game.bind. rewrite Hg3. cbn [Game.ret].
      exists g3. split; [reflexivity | exact Hb3]. }
  destruct Hmove as (g' & Hg' & Hb'). exists g'. split; [exact Hg'|].
  rewrite Hb'. apply flipped_board_cells; assumption.
Qed.

Lemma legal_move_applies_witness :
  exists g',
    Game.move 8 2 4 (started 8 false true) = (Ok Game.Nothing, g')
    /\ forall r c, on_board r c = true ->
         (turned (opening false) BLACK WHITE 2 4 r c ->
          cell PyNone (Game.board g') r c = BLACK)
         /\ (~ turned (opening false) BLACK WHITE 2 4 r c ->
             cell PyNone (Game.board g') r c
             = cell PyNone (opening false) r c).
Proof.
  apply (legal_move_applies 0 (started 8 false true) 2 4 [(1, 0)]).
  - split; [reflexivity|]. intros row Hin. cbn in Hin.
    repeat (destruct Hin as [<-|Hin]; [reflexivity|]). contradiction.
  - reflexivity.
  - discriminate.
  - vm_compute. reflexivity.
  - vm_compute. reflexivity.
Defined.

(** *** The end of a game and the change of side *)

Lemma end_outcome (g : Game.t) :
  Game._end g
  = (Ok tt,
     Game.with_state
       (final_state (Game._white_count g) (Game._black_count g)) g).
Proof.
  unfold Game._end, final_state, Game.bind. cbn [Game.get].
  destruct (Game._white_count g =? Game._black_count g); [reflexivity|].
  destruct (Game._white_count g >? Game._black_count g); reflexivity.
Qed.

Lemma final_state_finished (w b : Z) : is_finished (final_state w b) = true.
Proof.
  unfold final_state. destruct (w =? b); [reflexivity|].
  destruct (w >? b); reflexivity.
Qed.

(** What [_switch_side] does in a running state on an 8 x 8 board: the
    turn passes to the other side; with a legal move for it, its map is
    installed and the round counter reset; without one, the counter is
    incremented, the old map stays, and at the second such round in a row
    the game ends. *)
Lemma switch_side_outcome (n : nat) (g : Game.t) :
  shape 8 (Game.board g) -> is_running (Game._state g) = true ->
  let g1 := snd (Game.set_state (other_state (Game._state g)) g) in
  let m := legal_moves_of (Game.board g1) (Game._my_color g1)
             (Game._opponent_color g1) in
  Game._switch_side (8 + n) g
  = (Ok tt,
     if Py.len m >? 0 then
       Game.with_legal_moves m (Game.with_no_move_round 0 g1)
     else if Game._no_move_round g + 1 >=? 2 then
       Game.with_state
         (final_state (Game._white_count g) (Game._black_count g))
         (Game.with_no_move_round (Game._no_move_round g + 1) g1)
     else Game.with_no_move_round (Game._no_move_round g + 1) g1).
Proof.
  intros Hs Hrun g1 m. unfold Game._switch_side.
  unfold Game.bind at 1. cbn [Game.get]. rewrite Hrun.
  unfold Game.bind at 1. cbn [Game.assert Game.ret].
  assert (Hset :
    (if GAMESTATE_eqb (Game._state g) RUNNING_BLACK
     then Game.set_state RUNNING_WHITE
     else Game.set_state RUNNING_BLACK) g = (Ok tt, g1)
    /\ Game.board g1 = Game.board g
    /\ is_running (Game._state g1) = true
    /\ Game._no_move_round g1 = Game._no_move_round g
    /\ Game._white_count g1 = Game._white_count g
    /\ Game._black_count g1 = Game._black_count g).
  { subst g1. unfold other_state.
    destruct (GAMESTATE_eqb (Game._state g) RUNNING_BLACK); repeat split. }
  destruct Hset as (Hg1 & Hb1 & Hrun1 & Hn1 & Hw1 & Hbl1).
  unfold Game.bind at 1. rewrite Hg1.
  assert (Hs1 : shape 8 (Game.board g1)) by (rewrite Hb1; exact Hs).
  unfold Game.bind at 1. rewrite (game_scan_closed n g1 Hs1 Hrun1).
  fold m. destruct (Py.len m >? 0); [reflexivity|].
  unfold Game.bind at 1. cbn [Game.modify].
  unfold Game.bind at 1. cbn [Game.get].
  cbn [Game._no_move_round Game.with_no_move_round]. rewrite Hn1.
  destruct (Game._no_move_round g + 1 >=? 2); [|reflexivity].
  rewrite end_outcome.
  cbn [Game._white_count Game._black_count Game.with_no_move_round].
  rewrite Hw1, Hbl1. reflexivity.
Qed.

Lemma len_not_positive {A : Type} (l : list A) :
  (Py.len l >? 0) = false -> l = [].
Proof.
  destruct l as [|x l]; [reflexivity|]. unfold Py.len. cbn [length].
  rewrite Z.gtb_ltb. intros H. apply Z.ltb_ge in H. lia.
Qed.

Lemma running_colors_distinct (g : Game.t) :
  is_running (Game._state g) = true -> colors_follow_state g ->
  Game._my_color g <> Game._opponent_color g.
Proof.
  unfold colors_follow_state.
  destruct (Game._state g); try discriminate; intros _ [-> ->]; discriminate.
Qed.

(** X4: after a legal move the three counters are those of the new board, and
    either the game is over, or the turn has passed to the other side,
    which is ready to move (its map is installed and the round counter is
    0) or has no legal move while the map of the side that just moved is
    still the stored one and the round counter has been incremented. *)
Theorem legal_move_turn (n : nat) (g : Game.t) (row col : Z)
    (ds : list direction) :
  shape 8 (Game.board g) ->
  is_running (Game._state g) = true ->
  colors_follow_state g ->
  fresh g ->
  Py.lookup (Game._legal_moves g) (row, col) = Some ds ->
  exists g',
    Game.move (8 + n) row col g = (Ok Game.Nothing, g')
    /\ counted g'
    /\ (Game._state g'
        = final_state (Game._white_count g') (Game._black_count g')
        \/ (Game._state g' = other_state (Game._state g)
            /\ colors_follow_state g'
            /\ ((ready g' /\ Game._no_move_round g' = 0)
                \/ (stuck g'
                    /\ Game._legal_moves g' = Game._legal_moves g
                    /\ Game._no_move_round g'
                       = Game._no_move_round g + 1)))).
Proof.
  intros Hs Hrun Hcol Hfresh Hk.
  pose proof (running_colors_distinct g Hrun Hcol) as Hne.
  destruct (move_flips_legal n g row col ds Hs Hne Hfresh Hk)
    as [Hflips Hshape].
  set (B := flipped_board (Game.board g) (Game._my_color g)
              (Game._opponent_color g) row col ds) in *.
  unfold Game.move, Game.try_except.
  unfold Game.bind at 1. rewrite Hflips.
  unfold Game.bind at 1.
  rewrite (count_board_closed (Game.with_board B g)) by exact Hshape.
  cbn [Game.board Game.with_board].
  set (g2 := Game.with_counts (count_cells UNTOUCHED B) (count_cells WHITE B)
               (count_cells BLACK B) (Game.with_board B g)).
  assert (Hcounted : counted g2) by (repeat split).
  unfold Game.bind at 1. cbn [Game.get].
  destruct (Game._remain g2 =? 0).
  - unfold Game.bind. rewrite end_outcome. cbn [Game.ret].
    eexists. split; [reflexivity|]. split; [exact Hcounted|].
    left. reflexivity.
  - pose proof (switch_side_outcome n g2 Hshape Hrun) as Hsw.
    cbn zeta in Hsw. unfold Game.bind. rewrite Hsw. cbn [Game.ret].
    clear Hsw. eexists. split; [reflexivity|].
    set (g3 := snd (Game.set_state (other_state (Game._state g2)) g2)).
    assert (H3 : Game.board g3 = B
                 /\ Game._state g3 = other_state (Game._state g)
                 /\ colors_follow_state g3
                 /\ is_running (Game._state g3) = true
                 /\ counted g3
                 /\ Game._legal_moves g3 = Game._legal_moves g
                 /\ Game._no_move_round g3 = Game._no_move_round g).
    { subst g3. cbn [g2 Game._state Game.with_counts Game.with_board].
      unfold other_state.
      destruct (GAMESTATE_eqb (Game._state g) RUNNING_BLACK);
        repeat split. }
    destruct H3 as (Hb3 & Hst3 & Hcol3 & Hrun3 & Hcnt3 & Hmap3 & Hn3).
    set (m := legal_moves_of (Game.board g3) (Game._my_color g3)
                (Game._opponent_color g3)).
    destruct (Py.len m >? 0) eqn:Hlen.
    + split; [exact Hcnt3|]. right. split; [exact Hst3|].
      split; [exact Hcol3|]. left. split; [|reflexivity].
      split; [exact Hrun3|]. split; [reflexivity|].
      apply len_positive. exact Hlen.
    + cbn [g2 Game._no_move_round Game.with_counts Game.with_board].
      destruct (Game._no_move_round g + 1 >=? 2).
      * split; [exact Hcnt3|]. left.
        cbn [Game._state Game.with_state Game._white_count
             Game._black_count Game.with_no_move_round].
        destruct Hcnt3 as (_ & Hw & Hbk).
        cbn [g2 Game._white_count Game._black_count Game.with_counts
             Game.with_board].
        rewrite Hw, Hbk, Hb3. reflexivity.
      * split; [exact Hcnt3|]. right. split; [exact Hst3|].
        split; [exact Hcol3|]. right. split; [|split].
        -- split; [exact Hrun3|]. apply len_not_positive. exact Hlen.
        -- exact Hmap3.
        -- reflexivity.
Qed.

Lemma legal_move_turn_witness :
  exists g',
    Game.move 8 2 4 (started 8 false true) = (Ok Game.Nothing, g')
    /\ counted g'
    /\ (Game._state g'
        = final_state (Game._white_count g') (Game._black_count g')
        \/ (Game._state g' = other_state RUNNING_BLACK
            /\ colors_follow_state g'
            /\ ((ready g' /\ Game._no_move_round g' = 0)
                \/ (stuck g'
                    /\ Game._legal_moves g'
                       = Game._legal_moves (started 8 false true)
                    /\ Game._no_move_round g' = 0 + 1)))).
Proof.
  apply (legal_move_turn 0 (started 8 false true) 2 4 [(1, 0)]).
  - split; [reflexivity|]. intros row Hin. cbn in Hin.
    repeat (destruct Hin as [<-|Hin]; [reflexivity|]). contradiction.
  - reflexivity.
  - split; reflexivity.
  - vm_compute. reflexivity.
  - vm_compute. reflexivity.
Defined.

(** *** The start of a game *)

(** X5: on any 8 x 8 board, whatever the state of the object, [start] returns:
    the four central cells hold the two colors diagonally and every other
    cell of the board holds what it held before; the state is the running
    state of the side chosen, with the color fields of that side; the three
    counters are those of the new board, and the stored map is the map of
    legal moves of the new board for the side to move. *)
Theorem start_sets_up (n : nat) (shuffled black_first : bool) (g : Game.t) :
  shape 8 (Game.board g) ->
  exists g',
    Game.start (8 + n) shuffled black_first g = (Ok tt, g')
    /\ (forall r c, on_board r c = true ->
          cell PyNone (Game.board g') r c
          = match centre shuffled r c with
            | Some v => Enum v
            | None => cell PyNone (Game.board g) r c
            end)
    /\ shape 8 (Game.board g')
    /\ Game._state g'
       = (if black_first then RUNNING_BLACK else RUNNING_WHITE)
    /\ colors_follow_state g'
    /\ counted g'
    /\ fresh g'.
Proof.
  intros Hs. unfold Game.start.
  set (x := Enum (fst (if shuffled then (WHITE, BLACK) else (BLACK, WHITE)))).
  set (y := Enum (snd (if shuffled then (WHITE, BLACK) else (BLACK, WHITE)))).
  cbn zeta. fold x y.
  set (b1 := set_cell (Game.board g) 3 3 x).
  set (b2 := set_cell b1 3 4 y).
  set (b3 := set_cell b2 4 3 y).
  set (b4 := set_cell b3 4 4 x).
  assert (Hs1 : shape 8 b1) by (apply shape_set_cell; [exact Hs | lia]).
  assert (Hs2 : shape 8 b2) by (apply shape_set_cell; [exact Hs1 | lia]).
  assert (Hs3 : shape 8 b3) by (apply shape_set_cell; [exact Hs2 | lia]).
  assert (Hs4 : shape 8 b4) by (apply shape_set_cell; [exact Hs3 | lia]).
  rewrite (bind_ok _ _ _ _ _
             (board_set_on_board g 3 3 x Hs eq_refl)).
  rewrite (bind_ok _ _ _ _ _
             (board_set_on_board (Game.with_board b1 g) 3 4 y Hs1 eq_refl)).
  cbn [Game.board Game.with_board]. fold b2. rewrite with_board_twice.
  rewrite (bind_ok _ _ _ _ _
             (board_set_on_board (Game.with_board b2 g) 4 3 y Hs2 eq_refl)).
  cbn [Game.board Game.with_board]. fold b3. rewrite with_board_twice.
  rewrite (bind_ok _ _ _ _ _
             (board_set_on_board (Game.with_board b3 g) 4 4 x Hs3 eq_refl)).
  cbn [Game.board Game.with_board]. fold b4. rewrite with_board_twice.
  rewrite (bind_ok _ _ _ _ _
             (count_board_closed (Game.with_board b4 g) Hs4)).
  cbn [Game.board Game.with_board].
  set (g1 := Game.with_counts (count_cells UNTOUCHED b4)
               (count_cells WHITE b4) (count_cells BLACK b4)
               (Game.with_board b4 g)).
  set (v := if black_first then RUNNING_BLACK else RUNNING_WHITE).
  set (g2 := snd (Game.set_state v g1)).
  assert (Hset :
    (if black_first then Game.set_state RUNNING_BLACK
     else Game.set_state RUNNING_WHITE) g1 = (Ok tt, g2)
    /\ Game.board g2 = b4
    /\ Game._state g2 = v
    /\ is_running (Game._state g2) = true
    /\ colors_follow_state g2
    /\ counted g2).
  { subst g2 v. destruct black_first; repeat split. }
  destruct Hset as (Hg2 & Hb2 & Hst2 & Hrun2 & Hcol2 & Hcnt2).
  rewrite (bind_ok _ _ _ _ _ Hg2).
  assert (Hshape2 : shape 8 (Game.board g2)) by (rewrite Hb2; exact Hs4).
  rewrite (bind_ok _ _ _ _ _ (game_scan_closed n g2 Hshape2 Hrun2)).
  cbn [Game.modify]. eexists. split; [reflexivity|].
  cbn [Game.board Game._state Game.with_legal_moves].
  split; [|split; [exact Hshape2|split; [exact Hst2|
           split; [exact Hcol2|split; [exact Hcnt2|reflexivity]]]]].
  intros r c Hrc. rewrite Hb2. apply on_board_range in Hrc.
  destruct Hrc as [Hr Hc]. unfold b4, b3, b2, b1.
  rewrite (cell_set_cell PyNone 8) by (assumption || lia).
  rewrite (cell_set_cell PyNone 8) by (assumption || lia).
  rewrite (cell_set_cell PyNone 8) by (assumption || lia).
  rewrite (cell_set_cell PyNone 8) by (assumption || lia).
  unfold centre, x, y.
  destruct (Z.eqb_spec r 3), (Z.eqb_spec r 4), (Z.eqb_spec c 3),
    (Z.eqb_spec c 4); try lia; destruct shuffled; reflexivity.
Qed.

Lemma start_sets_up_witness :
  exists g',
    Game.start 8 false true Game.__init__ = (Ok tt, g')
    /\ (forall r c, on_board r c = true ->
          cell PyNone (Game.board g') r c
          = match centre false r c with
            | Some v => Enum v
            | None => cell PyNone (Game.board Game.__init__) r c
            end)
    /\ shape 8 (Game.board g')
    /\ Game._state g' = RUNNING_BLACK
    /\ colors_follow_state g'
    /\ counted g'
    /\ fresh g'.
Proof.
  apply (start_sets_up 0 false true Game.__init__).
  split; [reflexivity|]. intros row Hin. cbn in Hin.
  repeat (destruct Hin as [<-|Hin]; [reflexivity|]). contradiction.
Defined.
